(** * vce: the gap buffer, cursor navigation and paging of src/vce.c

    A shallow embedding of the editor core of vce.c and the properties
    of its specification.

    Conventions of the embedding.
    - A pointer into the text buffer is its address, a [Z]; [buf] is the
      address [calloc] returned (or the fixed RAM base), [ebuf = buf + BUF].
    - The buffer contents are a finite map from addresses to bytes; an
      address never written holds 0, as after [calloc] or the clearing
      loops of [init_buf].  A byte is the unsigned value [0..255] of the
      [char]; the comparisons of the source are against '\n', '\t', '\r'
      only, so the signedness of [char] plays no role.
    - [int] values are integers [Z].  Every [int] the editor computes on
      a well-formed state is an offset between [-2] and [BUF + 1], a
      screen coordinate or a line count, so no arithmetic leaves the
      range of [int] for a buffer that fits one.
    - A dereference outside [[buf, ebuf)] is undefined in C: the
      embedding stops with [Fault] and the address.
    - A [while] loop is a [Fixpoint] on a step budget ([fuel]); running
      out of budget is the outcome [OutOfFuel], which the theorems
      exclude for every sufficient budget. *)

From stdpp Require Import gmap list numbers.

Local Open Scope Z_scope.

(** ** Outcomes of running a piece of the editor *)

Inductive outcome (A : Type) : Type :=
| Done (a : A)
| Fault (addr : Z)
| OutOfFuel.

Arguments Done {A} a.
Arguments Fault {A} addr.
Arguments OutOfFuel {A}.

Definition bind {A B : Type} (m : outcome A) (k : A -> outcome B) : outcome B :=
  match m with
  | Done a => k a
  | Fault p => Fault p
  | OutOfFuel => OutOfFuel
  end.

Notation "x <- m ;; k" := (bind m (fun x => k))
  (at level 100, m at next level, right associativity,
   format "'[v' x  <-  m  ;;  '/' k ']'").

(** ** Characters the source names *)

Definition ch_BS : Z := 8.      (* '\b'   *)
Definition ch_TAB : Z := 9.     (* '\t'   *)
Definition ch_NL : Z := 10.     (* '\n'   *)
Definition ch_CR : Z := 13.     (* '\r'   *)
Definition ch_SPACE : Z := 32.  (* ' '    *)
Definition ch_DEL : Z := 127.   (* '\177' *)

(** The conversion of an [int] to the [char] that is stored. *)
Definition to_char (ch : Z) : Z := ch `mod` 256.

(** ** The static variables of vce.c *)

Record state : Type := mkState {
  buf : Z;
  ebuf : Z;
  gap : Z;
  egap : Z;
  mem : gmap Z Z;             (* the bytes at [buf .. ebuf) *)
  filename : option (list Z);
  screen : gmap Z Z;          (* screen[i][j] at index i * COL_MAX + j *)
  col : Z;
  row : Z;
  line : Z;
  idx : Z;
  page : Z;
  epage : Z;
  dirty : Z
}.

Definition set_gap (v : Z) (s : state) : state :=
  mkState (buf s) (ebuf s) v (egap s) (mem s) (filename s) (screen s)
          (col s) (row s) (line s) (idx s) (page s) (epage s) (dirty s).
Definition set_egap (v : Z) (s : state) : state :=
  mkState (buf s) (ebuf s) (gap s) v (mem s) (filename s) (screen s)
          (col s) (row s) (line s) (idx s) (page s) (epage s) (dirty s).
Definition set_mem (v : gmap Z Z) (s : state) : state :=
  mkState (buf s) (ebuf s) (gap s) (egap s) v (filename s) (screen s)
          (col s) (row s) (line s) (idx s) (page s) (epage s) (dirty s).
Definition set_filename (v : option (list Z)) (s : state) : state :=
  mkState (buf s) (ebuf s) (gap s) (egap s) (mem s) v (screen s)
          (col s) (row s) (line s) (idx s) (page s) (epage s) (dirty s).
Definition set_screen (v : gmap Z Z) (s : state) : state :=
  mkState (buf s) (ebuf s) (gap s) (egap s) (mem s) (filename s) v
          (col s) (row s) (line s) (idx s) (page s) (epage s) (dirty s).
Definition set_col (v : Z) (s : state) : state :=
  mkState (buf s) (ebuf s) (gap s) (egap s) (mem s) (filename s) (screen s)
          v (row s) (line s) (idx s) (page s) (epage s) (dirty s).
Definition set_row (v : Z) (s : state) : state :=
  mkState (buf s) (ebuf s) (gap s) (egap s) (mem s) (filename s) (screen s)
          (col s) v (line s) (idx s) (page s) (epage s) (dirty s).
Definition set_line (v : Z) (s : state) : state :=
  mkState (buf s) (ebuf s) (gap s) (egap s) (mem s) (filename s) (screen s)
          (col s) (row s) v (idx s) (page s) (epage s) (dirty s).
Definition set_idx (v : Z) (s : state) : state :=
  mkState (buf s) (ebuf s) (gap s) (egap s) (mem s) (filename s) (screen s)
          (col s) (row s) (line s) v (page s) (epage s) (dirty s).
Definition set_page (v : Z) (s : state) : state :=
  mkState (buf s) (ebuf s) (gap s) (egap s) (mem s) (filename s) (screen s)
          (col s) (row s) (line s) (idx s) v (epage s) (dirty s).
Definition set_epage (v : Z) (s : state) : state :=
  mkState (buf s) (ebuf s) (gap s) (egap s) (mem s) (filename s) (screen s)
          (col s) (row s) (line s) (idx s) (page s) v (dirty s).
Definition set_dirty (v : Z) (s : state) : state :=
  mkState (buf s) (ebuf s) (gap s) (egap s) (mem s) (filename s) (screen s)
          (col s) (row s) (line s) (idx s) (page s) (epage s) v.

(** ** Memory access *)

Definition in_buffer (s : state) (p : Z) : bool :=
  (buf s <=? p) && (p <? ebuf s).

(** [*p] as an rvalue. *)
Definition load (s : state) (p : Z) : outcome Z :=
  if in_buffer s p then Done (mem s !!! p) else Fault p.

(** [*p = c]. *)
Definition store (s : state) (p c : Z) : outcome state :=
  if in_buffer s p then Done (set_mem (<[p := c]> (mem s)) s) else Fault p.

(** ** Addressing: [ptr] and [pos] *)

Definition ptr (s : state) (offset : Z) : Z :=
  if offset <? 0 then buf s
  else buf s + offset + (if buf s + offset <? gap s then 0 else egap s - gap s).

Definition pos (s : state) (pointer : Z) : Z :=
  pointer - buf s - (if pointer <? egap s then 0 else egap s - gap s).

(** ** Gap relocation: [movegap] *)

(** [while (p < gap) *--egap = *--gap;] *)
Fixpoint movegap_down (fuel : nat) (p : Z) (s : state) : outcome state :=
  match fuel with
  | O => OutOfFuel
  | S fuel' =>
      if p <? gap s then
        let s1 := set_egap (egap s - 1) s in
        let s2 := set_gap (gap s1 - 1) s1 in
        c <- load s2 (gap s2) ;;
        s3 <- store s2 (egap s2) c ;;
        movegap_down fuel' p s3
      else Done s
  end.

(** [while (egap < p) *gap++ = *egap++;] *)
Fixpoint movegap_up (fuel : nat) (p : Z) (s : state) : outcome state :=
  match fuel with
  | O => OutOfFuel
  | S fuel' =>
      if egap s <? p then
        c <- load s (egap s) ;;
        s1 <- store s (gap s) c ;;
        let s2 := set_gap (gap s1 + 1) s1 in
        let s3 := set_egap (egap s2 + 1) s2 in
        movegap_up fuel' p s3
      else Done s
  end.

Definition movegap (fuel : nat) (s : state) : outcome state :=
  let p := ptr s (idx s) in
  s1 <- movegap_down fuel p s ;;
  s2 <- movegap_up fuel p s1 ;;
  Done (set_idx (pos s2 (egap s2)) s2).

(** ** Line navigation: [prevline], [nextline], [adjust] *)

(** [while (buf < (p = ptr(--offset)) && *p != '\n') ;]
    The result is the pair of [offset] and [p] when the loop is left. *)
Fixpoint prevline_scan (fuel : nat) (s : state) (offset : Z) : outcome (Z * Z) :=
  match fuel with
  | O => OutOfFuel
  | S fuel' =>
      let offset := offset - 1 in
      let p := ptr s offset in
      if buf s <? p then
        c <- load s p ;;
        if negb (c =? ch_NL) then prevline_scan fuel' s offset
        else Done (offset, p)
      else Done (offset, p)
  end.

Definition prevline (fuel : nat) (s : state) (offset : Z) : outcome Z :=
  r <- prevline_scan fuel s offset ;;
  let '(offset, p) := r in
  Done (if buf s <? p then offset + 1 else 0).

(** [while ((p = ptr(offset++)) < ebuf && *p != '\n') ;] *)
Fixpoint nextline_scan (fuel : nat) (s : state) (offset : Z) : outcome (Z * Z) :=
  match fuel with
  | O => OutOfFuel
  | S fuel' =>
      let p := ptr s offset in
      let offset := offset + 1 in
      if p <? ebuf s then
        c <- load s p ;;
        if negb (c =? ch_NL) then nextline_scan fuel' s offset
        else Done (offset, p)
      else Done (offset, p)
  end.

Definition nextline (fuel : nat) (s : state) (offset : Z) : outcome Z :=
  r <- nextline_scan fuel s offset ;;
  let '(offset, p) := r in
  Done (if p <? ebuf s then offset else pos s (ebuf s)).

(** The loop of [adjust]; [i] is the display column reached so far. *)
Fixpoint adjust_loop (fuel : nat) (s : state) (column offset i : Z) : outcome Z :=
  match fuel with
  | O => OutOfFuel
  | S fuel' =>
      let p := ptr s offset in
      if p <? ebuf s then
        c <- load s p ;;
        if negb (c =? ch_NL) && (i <? column) then
          let i := i + (if c =? ch_TAB then 8 - Z.land i 7 else 1) in
          adjust_loop fuel' s column (offset + 1) i
        else Done offset
      else Done offset
  end.

Definition adjust (fuel : nat) (s : state) (offset column : Z) : outcome Z :=
  adjust_loop fuel s column offset 0.

(** ** Cursor movement *)

Definition left (s : state) : state :=
  if 0 <? idx s then set_idx (idx s - 1) s else s.

Definition right (s : state) : state :=
  if idx s <? pos s (ebuf s) then set_idx (idx s + 1) s else s.

Definition up (fuel : nat) (s : state) : outcome state :=
  a <- prevline fuel s (idx s) ;;
  b <- prevline fuel s (a - 1) ;;
  c <- adjust fuel s b (col s) ;;
  Done (set_idx c s).

Definition down (fuel : nat) (s : state) : outcome state :=
  a <- nextline fuel s (idx s) ;;
  c <- adjust fuel s a (col s) ;;
  Done (set_idx c s).

(** ** The edit primitive: [insert] *)

Definition insert (fuel : nat) (ch : Z) (s : state) : outcome state :=
  s1 <- movegap fuel s ;;
  s2 <- (if (ch =? ch_BS) || (ch =? ch_DEL) then
           Done (if buf s1 <? gap s1 then set_gap (gap s1 - 1) s1 else s1)
         else if gap s1 <? egap s1 then
           s' <- store s1 (gap s1) (to_char (if ch =? ch_CR then ch_NL else ch)) ;;
           Done (set_gap (gap s' + 1) s')
         else Done s1) ;;
  Done (set_idx (pos s2 (egap s2)) s2).

(** ** The line number of the status line: [get_lineno] *)

(** [while (i < idx) { if (buf[i++] == '\n') ++line; }] *)
Fixpoint get_lineno_loop (fuel : nat) (s : state) (i : Z) : outcome state :=
  match fuel with
  | O => OutOfFuel
  | S fuel' =>
      if i <? idx s then
        c <- load s (buf s + i) ;;
        get_lineno_loop fuel' (if c =? ch_NL then set_line (line s + 1) s else s) (i + 1)
      else Done s
  end.

Definition get_lineno (fuel : nat) (s : state) : outcome state :=
  get_lineno_loop fuel (set_line 1 s) 0.

(** ** Paging and the render pass: [update_display] *)

Section Display.

(** The geometry the program is compiled for; [main] refuses
    [COL_MAX < 16] and [ROW_MAX < 2]. *)
Variables COL_MAX ROW_MAX : Z.

(** [screen[i][j] = c] for the array [screen[ROW_MAX - 1][COL_MAX]],
    kept as a map from the byte offsets [i * COL_MAX + j] of its
    row-major layout.  A store with an index outside its dimension
    stops with [Fault] and the byte offset: it leaves its row, which C
    leaves undefined also where the byte is one of a following row,
    and in the last row it leaves the array. *)
Definition put (scr : gmap Z Z) (i j c : Z) : outcome (gmap Z Z) :=
  if (0 <=? i) && (i <? ROW_MAX - 1) && (0 <=? j) && (j <? COL_MAX)
  then Done (<[i * COL_MAX + j := c]> scr)
  else Fault (i * COL_MAX + j).

(** A [for] loop over the values [l] of its counter, with the body
    [f]. *)
Fixpoint for_each {A B : Type} (f : A -> B -> outcome A) (a : A) (l : list B)
    : outcome A :=
  match l with
  | [] => Done a
  | x :: l' => a' <- f a x ;; for_each f a' l'
  end.

(** The two nested [for] loops that blank the grid. *)
Definition clear_screen (scr : gmap Z Z) : outcome (gmap Z Z) :=
  for_each (fun scr i =>
              for_each (fun scr j => put scr i j ch_SPACE) scr (seqZ 0 COL_MAX))
           scr (seqZ 0 (ROW_MAX - 1)).

(** The grid the two loops leave: every cell of it holds a space. *)
Definition blank (scr : gmap Z Z) : gmap Z Z :=
  foldl (fun scr i =>
           foldl (fun scr j => <[i * COL_MAX + j := ch_SPACE]> scr) scr (seqZ 0 COL_MAX))
        scr (seqZ 0 (ROW_MAX - 1)).

(** [while (k--) screen[i][j++] = ' ';] for a count [k] that is not
    negative ([k = 8 - (j & 7)] lies between 1 and 8). *)
Fixpoint fill (k : nat) (scr : gmap Z Z) (i j : Z) : outcome (gmap Z Z * Z) :=
  match k with
  | O => Done (scr, j)
  | S k' => scr' <- put scr i j ch_SPACE ;; fill k' scr' i (j + 1)
  end.

(** [while (0 < i--) page = prevline(page - 1);], [n] being the
    number of rounds, [i] when it is positive and none otherwise. *)
Fixpoint page_back (fuel : nat) (s : state) (n : nat) (pg : Z) : outcome Z :=
  match n with
  | O => Done pg
  | S n' =>
      pg' <- prevline fuel s (pg - 1) ;;
      page_back fuel s n' pg'
  end.

(** The [while (1)] loop of the render pass. *)
Fixpoint render (fuel : nat) (s : state) (i j : Z) : outcome state :=
  match fuel with
  | O => OutOfFuel
  | S fuel' =>
      let s := if idx s =? epage s then set_col j (set_row i s) else s in
      let p := ptr s (epage s) in
      if (ROW_MAX - 1 <=? i) || (ebuf s <=? p) then Done s
      else
        c <- load s p ;;
        cell <- (if negb (c =? ch_CR) then
                   if c =? ch_NL then
                     scr <- put (screen s) i j ch_SPACE ;; Done (scr, j + 1)
                   else if c =? ch_TAB then
                     fill (Z.to_nat (8 - Z.land j 7)) (screen s) i j
                   else
                     scr <- put (screen s) i j c ;; Done (scr, j + 1)
                 else Done (screen s, j)) ;;
        let '(scr, j1) := cell in
        let '(i2, j2) :=
          if (c =? ch_NL) || (COL_MAX <=? j1) then (i + 1, 0) else (i, j1) in
        render fuel' (set_epage (epage s + 1) (set_screen scr s)) i2 j2
  end.

(** [update_display]; what follows [get_lineno] in the source
    ([update_modeline] and the [write] calls) reads the state and
    changes the status line array and the terminal only. *)
Definition update_display (fuel : nat) (s : state) : outcome state :=
  scr <- clear_screen (screen s) ;;
  let s := set_screen scr s in
  s <- (if idx s <? page s then
          pg <- prevline fuel s (idx s) ;;
          Done (set_page pg s)
        else Done s) ;;
  s <- (if epage s <=? idx s then
          pg <- nextline fuel s (idx s) ;;
          let i := if pg =? pos s (ebuf s) then ROW_MAX - 3 else ROW_MAX - 1 in
          pg' <- page_back fuel s (Z.to_nat i) pg ;;
          Done (set_page pg' s)
        else Done s) ;;
  s <- render fuel (set_epage (page s) s) 0 0 ;;
  get_lineno fuel s.

End Display.

(** ** Saving: [save_file] *)

(** The bytes at [a .. a + n), in address order. *)
Definition bytes (m : gmap Z Z) (a n : Z) : list Z :=
  (fun x => m !!! x) <$> seqZ a n.

(** [save_file], in the [__unix__] variant.  [typed] is what [get_name]
    returns when it is asked, [open_ok] whether [open] succeeds.  The
    second component is what [write] is given, when it is reached. *)
Definition save_file (fuel : nat) (typed : option (list Z)) (open_ok : bool)
    (s : state) : outcome (state * option (list Z)) :=
  let saveidx := idx s in
  let s := match filename s with
           | None => set_filename typed s
           | Some _ => s
           end in
  match filename s with
  | None => Done (s, None)                      (* "no filename" *)
  | Some _ =>
      if negb open_ok then Done (s, None)       (* "failed open" *)
      else
        s1 <- movegap fuel (set_idx 0 s) ;;
        let out := bytes (mem s1) (egap s1) (ebuf s1 - egap s1) in
        Done (set_dirty 0 (set_idx saveidx s1), Some out)
  end.

(** ** Start-up: [init_buf] and the file read of [main] *)

(** The statics as the program starts, then [init_buf]: [base] is the
    address of the buffer and [BUF] its size. *)
Definition init_buf (base BUF : Z) : state :=
  {| buf := base; ebuf := base + BUF; gap := base; egap := base + BUF;
     mem := ∅; filename := None; screen := ∅;
     col := 0; row := 1; line := 1; idx := 0; page := 0; epage := 0;
     dirty := 0 |}.

(** Bytes stored from address [a] on. *)
Fixpoint write_bytes (m : gmap Z Z) (a : Z) (l : list Z) : gmap Z Z :=
  match l with
  | [] => m
  | c :: l' => write_bytes (<[a := c]> m) (a + 1) l'
  end.

(** What [main] finds of its file argument. *)
Inductive file_arg : Type :=
| NoFile                                       (* argc == 1 *)
| NoOpen (name : list Z)                       (* open fails *)
| ReadError (name : list Z)                    (* read returns -1 *)
| Contents (name : list Z) (data : list Z).    (* read delivers a prefix of data *)

(** [main] up to the label [out] and the [idx = 0] after it. *)
Definition startup (base BUF : Z) (arg : file_arg) : state :=
  let s := init_buf base BUF in
  let s :=
    match arg with
    | NoFile => s
    | NoOpen name => set_filename (Some name) s
    | ReadError name =>
        let s := set_gap (gap s + -1) (set_filename (Some name) s) in
        if gap s <? buf s then set_gap (buf s) s else s
    | Contents name data =>
        let got := take (Z.to_nat BUF) data in
        let s := set_filename (Some name) s in
        let s := set_mem (write_bytes (mem s) (buf s) got) s in
        let s := set_gap (gap s + Z.of_nat (length got)) s in
        if gap s <? buf s then set_gap (buf s) s else s
    end in
  set_idx 0 s.

(** ** The command loop of [main] *)

(** The cases of the [switch], after the bytes of a key are read. *)
Inductive command : Type :=
| Right                    (* ^D, ESC [ C *)
| Up                       (* ^E, ESC [ A *)
| Redraw                   (* ^L *)
| Left                     (* ^S, ESC [ D *)
| Down                     (* ^X, ESC [ B *)
| Save (typed : option (list Z)) (open_ok : bool)   (* ESC s *)
| Version                  (* ESC v, and ESC with an unbound byte *)
| Insert (ch : Z).         (* default: every other byte *)

(** The outer [switch] of [main] on the byte [fgetc] returns: the
    command of a byte that is a key by itself, and none for ESC, which
    starts a sequence. *)
Definition byte_command (ch : Z) : option command :=
  if ch =? 4 then Some Right
  else if ch =? 5 then Some Up
  else if ch =? 12 then Some Redraw
  else if ch =? 19 then Some Left
  else if ch =? 24 then Some Down
  else if ch =? 27 then None
  else Some (Insert ch).

Section Loop.

Variables COL_MAX ROW_MAX : Z.

(** What a command does to the state.  [Save] carries what its callee
    [get_name] returns, and neither it nor [Version] waits for the
    return key here: the input they read is that of [main_loop]
    below. *)
Definition dispatch (fuel : nat) (c : command) (s : state) : outcome state :=
  match c with
  | Right => Done (right s)
  | Up => up fuel s
  | Redraw => update_display COL_MAX ROW_MAX fuel s
  | Left => Done (left s)
  | Down => down fuel s
  | Save typed open_ok => r <- save_file fuel typed open_ok s ;; Done (fst r)
  | Version => Done s
  | Insert ch => insert fuel ch s
  end.

(** One round of the [while (!done)] loop: the frame, then the key. *)
Definition round (fuel : nat) (c : command) (s : state) : outcome state :=
  s1 <- update_display COL_MAX ROW_MAX fuel s ;;
  dispatch fuel c s1.

(** The rounds for the keys [cs], and the frame the next round starts with. *)
Fixpoint rounds (fuel : nat) (cs : list command) (s : state) : outcome state :=
  match cs with
  | [] => update_display COL_MAX ROW_MAX fuel s
  | c :: cs' => s1 <- round fuel c s ;; rounds fuel cs' s1
  end.

End Loop.

(** ** The document a state holds *)

(** The live prefix followed by the live suffix. *)
Definition document (s : state) : list Z :=
  bytes (mem s) (buf s) (gap s - buf s) ++ bytes (mem s) (egap s) (ebuf s - egap s).

Definition doclen (s : state) : Z := (gap s - buf s) + (ebuf s - egap s).

(** The storage invariant and the cursor inside the document. *)
Record wf (s : state) : Prop := mk_wf {
  wf_gap : buf s <= gap s;
  wf_egap : gap s <= egap s;
  wf_ebuf : egap s <= ebuf s;
  wf_idx_lo : 0 <= idx s;
  wf_idx_hi : idx s <= doclen s
}.

(** A step budget that suffices for every loop over the buffer. *)
Definition enough (s : state) (fuel : nat) : Prop :=
  (Z.to_nat (ebuf s - buf s) + 2 < fuel)%nat.

(** The three zones of the buffer are in order. *)
Definition layout (s : state) : Prop :=
  buf s <= gap s /\ gap s <= egap s /\ egap s <= ebuf s.

(** The cursor cell and the page start a frame is entered with, for
    the geometry [COL_MAX] by [ROW_MAX]. *)
Definition cell_ok (COL_MAX ROW_MAX : Z) (s : state) : Prop :=
  0 <= row s <= ROW_MAX - 1 /\ 0 <= col s < COL_MAX /\ 0 <= page s.

(** What holds between the rounds of the command loop. *)
Definition steady (COL_MAX ROW_MAX : Z) (s : state) : Prop :=
  wf s /\ cell_ok COL_MAX ROW_MAX s.

(** The states of a run of [main]: the state at the label [out], and
    what a frame or a key makes of a state of the run. *)
Inductive reachable (COL_MAX ROW_MAX : Z) : state -> Prop :=
| reach_startup (base BUF : Z) (arg : file_arg) :
    0 <= BUF -> reachable COL_MAX ROW_MAX (startup base BUF arg)
| reach_frame (s : state) (fuel : nat) (s' : state) :
    reachable COL_MAX ROW_MAX s -> enough s fuel ->
    update_display COL_MAX ROW_MAX fuel s = Done s' ->
    reachable COL_MAX ROW_MAX s'
| reach_key (s : state) (fuel : nat) (c : command) (s' : state) :
    reachable COL_MAX ROW_MAX s -> enough s fuel ->
    dispatch COL_MAX ROW_MAX fuel c s = Done s' ->
    reachable COL_MAX ROW_MAX s'.

(** ** What the properties are stated with *)

(** A computation with a step budget whose result, once it has one, is
    the same for every larger budget. *)
Definition stable {A : Type} (f : nat -> outcome A) : Prop :=
  forall (n m : nat) (r : A), f n = Done r -> (n <= m)%nat -> f m = Done r.

(** The byte [insert] stores for the key [ch]. *)
Definition stored (ch : Z) : Z := to_char (if ch =? ch_CR then ch_NL else ch).

(** The line of the cursor as the specification has it. *)
Definition newlines (l : list Z) : Z :=
  Z.of_nat (length (filter (fun c => c = ch_NL) l)).

Definition cursor_line (s : state) : Z :=
  1 + newlines (take (Z.to_nat (idx s)) (document s)).

(** The statics that neither [movegap] nor [insert] assigns. *)
Definition untouched (s : state) :=
  (buf s, ebuf s, filename s, screen s, (col s, row s, line s), (page s, epage s), dirty s).

(** ** States used as concrete inputs *)

(** The document "ab\ncd\n" with the gap after the first line and the
    cursor on 'd'. *)
Definition sample : state :=
  {| buf := 1000; ebuf := 1016; gap := 1003; egap := 1013;
     mem := write_bytes (write_bytes ∅ 1000 [97; 98; 10]) 1013 [99; 100; 10];
     filename := None; screen := ∅;
     col := 1; row := 1; line := 2; idx := 4; page := 0; epage := 6;
     dirty := 0 |}.

(** A buffer of four bytes that is full: "wxyz", the cursor after 'x'. *)
Definition full4 : state :=
  {| buf := 1000; ebuf := 1004; gap := 1004; egap := 1004;
     mem := write_bytes ∅ 1000 [119; 120; 121; 122];
     filename := None; screen := ∅;
     col := 2; row := 0; line := 1; idx := 2; page := 0; epage := 4;
     dirty := 0 |}.

(** ** What the further properties are stated with *)

(** The statics a frame leaves alone: the buffer, its contents, the
    cursor, the dirty flag and the file name. *)
Definition text (s : state) :=
  (buf s, ebuf s, gap s, egap s, mem s, idx s, dirty s, filename s).

(** The free bytes of the buffer, the size of the gap. *)
Definition room (s : state) : Z := egap s - gap s.

(** The display column behind a byte drawn at column [i]: the next
    multiple of 8 for a tab, the next column otherwise. *)
Definition advance (i c : Z) : Z :=
  if c =? ch_TAB then 8 * (i / 8 + 1) else i + 1.

(** The display width of a run of bytes that starts at column 0. *)
Definition width (l : list Z) : Z := foldl advance 0 l.

(** How many bytes of the line [l] are walked over from column [i]
    before the column [column] is reached, a newline is met or the line
    ends. *)
Fixpoint resolve (l : list Z) (column i : Z) : nat :=
  match l with
  | [] => O
  | c :: l' =>
      if negb (c =? ch_NL) && (i <? column)
      then S (resolve l' column (advance i c))
      else O
  end.

(** The bytes [main] takes from its file argument into a buffer of
    [BUF] bytes. *)
Definition loaded (BUF : Z) (arg : file_arg) : list Z :=
  match arg with
  | Contents _ data => take (Z.to_nat BUF) data
  | _ => []
  end.

(** ** Numbers for the status line: [putn] *)

(** [a[i] = v] and [a[i]] for an array of [length a] elements; an
    index outside the array stops with [Fault] and the index. *)
Definition array_write (a : list Z) (i v : Z) : outcome (list Z) :=
  if (0 <=? i) && (i <? Z.of_nat (length a))
  then Done (<[Z.to_nat i := v]> a) else Fault i.

Definition array_read (a : list Z) (i : Z) : outcome Z :=
  match (if 0 <=? i then a !! Z.to_nat i else None) with
  | Some v => Done v
  | None => Fault i
  end.

(** [do { tmp[i++] = n % 10 + '0'; } while ((n /= 10) > 0);] *)
Fixpoint putn_digits (fuel : nat) (n : Z) (tmp : list Z) (i : Z)
    : outcome (list Z * Z) :=
  match fuel with
  | O => OutOfFuel
  | S fuel' =>
      tmp' <- array_write tmp i (n `mod` 10 + 48) ;;
      let i := i + 1 in
      let n := n `div` 10 in
      if 0 <? n then putn_digits fuel' n tmp' i else Done (tmp', i)
  end.

(** [for (...; i >= 0; i--) num[j++] = tmp[i];] *)
Fixpoint putn_copy (fuel : nat) (tmp num : list Z) (i j : Z)
    : outcome (list Z * Z) :=
  match fuel with
  | O => OutOfFuel
  | S fuel' =>
      if 0 <=? i then
        c <- array_read tmp i ;;
        num' <- array_write num j c ;;
        putn_copy fuel' tmp num' (i - 1) (j + 1)
      else Done (num, j)
  end.

(** [putn]: [tmp] is the local array as it is found, [num] the static
    one as the last call left it; the result is [num]. *)
Definition putn (fuel : nat) (n : Z) (tmp num : list Z) : outcome (list Z) :=
  r <- putn_digits fuel n tmp 0 ;;
  let '(tmp, i) := r in
  r <- putn_copy fuel tmp num (i - 1) 0 ;;
  let '(num, j) := r in
  array_write num j 0.

(** The string a [char] array holds: its bytes before the first NUL. *)
Fixpoint cstring (a : list Z) : list Z :=
  match a with
  | [] => []
  | c :: a' => if c =? 0 then [] else c :: cstring a'
  end.

(** The number a string of decimal digits denotes. *)
Definition decimal (l : list Z) : Z := foldl (fun acc c => 10 * acc + (c - 48)) 0 l.

(** The [k] lowest decimal digits of [n] as characters, the lowest
    first. *)
Fixpoint low_digits (k : nat) (n : Z) : list Z :=
  match k with
  | O => []
  | S k' => (n `mod` 10 + 48) :: low_digits k' (n `div` 10)
  end.

(** ** Strings of the status line: [strdcpy] and [strdcat] *)

(** The loop that stores [*src++] in [*dst++] and counts until the NUL
    is stored, with [dst] at index [d]
    of its array and [src] at index [k] of its. *)
Fixpoint strdcpy_loop (fuel : nat) (dst src : list Z) (d k i : Z)
    : outcome (list Z * Z) :=
  match fuel with
  | O => OutOfFuel
  | S fuel' =>
      c <- array_read src k ;;
      dst' <- array_write dst d c ;;
      if negb (c =? 0) then strdcpy_loop fuel' dst' src (d + 1) (k + 1) (i + 1)
      else Done (dst', i)
  end.

(** [strdcpy]: the array [dst] after the call and the count returned. *)
Definition strdcpy (fuel : nat) (dst src : list Z) : outcome (list Z * Z) :=
  strdcpy_loop fuel dst src 0 0 0.

(** [for (; *dst; dst++) ;] *)
Fixpoint strdcat_end (fuel : nat) (dst : list Z) (d : Z) : outcome Z :=
  match fuel with
  | O => OutOfFuel
  | S fuel' =>
      c <- array_read dst d ;;
      if negb (c =? 0) then strdcat_end fuel' dst (d + 1) else Done d
  end.

(** The copy loop of [strdcat]; [len] is an [unsigned char]. *)
Fixpoint strdcat_loop (fuel : nat) (dst src : list Z) (d k i len : Z)
    : outcome (list Z * Z) :=
  match fuel with
  | O => OutOfFuel
  | S fuel' =>
      c <- array_read src k ;;
      dst' <- array_write dst d c ;;
      if negb (c =? 0) then
        let i := i + 1 in
        let len := (len - 1) `mod` 256 in
        if len =? 0 then Done (dst', i)
        else strdcat_loop fuel' dst' src (d + 1) (k + 1) i len
      else Done (dst', i)
  end.

Definition strdcat (fuel : nat) (dst src : list Z) (len : Z) : outcome (list Z * Z) :=
  d <- strdcat_end fuel dst 0 ;;
  strdcat_loop fuel dst src d 0 0 len.

(** ** The file name prompt: [get_name] *)

(** [isalnum] in the "C" locale, the one the program runs in. *)
Definition isalnum (ch : Z) : bool :=
  ((48 <=? ch) && (ch <=? 57)) || ((65 <=? ch) && (ch <=? 90))
  || ((97 <=? ch) && (ch <=? 122)).

(** The bytes [get_name] takes into the name: letters, digits, '.'
    and '_'. *)
Definition name_char (ch : Z) : bool :=
  isalnum ch || (ch =? 46) || (ch =? 95).

Section Prompt.

Variable COL_MAX : Z.

(** The input loop of [get_name] (compiled under [ANSI]); [input] is
    what [fgetc] delivers, [name] the static array and [j] the number
    of bytes typed into it.  The redrawing of the status line is left
    out.  When the input ends [fgetc] answers [EOF] for ever and the
    loop does not end: that is [OutOfFuel].  The result is the array,
    [j], and the input that is left. *)
Fixpoint get_name_loop (input : list Z) (name : list Z) (j : Z)
    : outcome (list Z * Z * list Z) :=
  match input with
  | [] => OutOfFuel
  | ch :: rest =>
      if (ch =? ch_NL) || (ch =? ch_CR) then Done (name, j, rest)
      else if (ch =? ch_BS) || (ch =? ch_DEL) then
        if j =? 0 then get_name_loop rest name j
        else
          name' <- array_write name (j - 1) 0 ;;
          get_name_loop rest name' (j - 1)
      else if j =? COL_MAX - 6 then get_name_loop rest name j
      else if negb (isalnum ch) && negb (ch =? 46) && negb (ch =? 95)
      then get_name_loop rest name j
      else
        name' <- array_write name j (to_char ch) ;;
        get_name_loop rest name' (j + 1)
  end.

(** [get_name]: the name typed, [None] for the null pointer, and the
    input that is left.  [name] has [COL_MAX - 5] elements and is
    cleared first. *)
Definition get_name (input : list Z) : outcome (option (list Z) * list Z) :=
  r <- get_name_loop input (replicate (Z.to_nat (COL_MAX - 5)) 0) 0 ;;
  let '(name, j, rest) := r in
  Done (if j =? 0 then None else Some (cstring name), rest).

(** What a key makes of the name typed so far. *)
Definition name_key (s : list Z) (ch : Z) : list Z :=
  if (ch =? ch_BS) || (ch =? ch_DEL) then removelast s
  else if Z.of_nat (length s) =? COL_MAX - 6 then s
  else if name_char ch then s ++ [ch]
  else s.

End Prompt.

(** The input up to its first line end, and what follows the line end. *)
Fixpoint first_line (input : list Z) : option (list Z * list Z) :=
  match input with
  | [] => None
  | ch :: rest =>
      if (ch =? ch_NL) || (ch =? ch_CR) then Some ([], rest)
      else match first_line rest with
           | Some (l, r) => Some (ch :: l, r)
           | None => None
           end
  end.

(** The empty buffer of sixteen bytes [main] starts with when it has no
    file argument. *)
Definition fresh : state := startup 1000 16 NoFile.

(** ** The status line: [update_modeline] and [message] *)

(** The string literals of the status line, without their NUL. *)
Definition str_vce : list Z := [86; 67; 69; 58; 32].           (* "VCE: "  *)
Definition str_l : list Z := [76; 58; 32].                     (* "L: "    *)
Definition str_c : list Z := [67; 58; 32].                     (* "C: "    *)
Definition str_rest : list Z := [82; 101; 115; 116; 58; 32].   (* "Rest: " *)

(** [strlen]: the index of the first NUL of the array. *)
Definition strlen (fuel : nat) (a : list Z) : outcome Z := strdcat_end fuel a 0.

(** The conversion of a value to [unsigned int]. *)
Definition to_uint (n : Z) : Z := n `mod` 2 ^ 32.

(** [i += strdcat(modeline, append, len)]: the array [modeline] and the
    counter [i] are the pair [st]; [len] is converted to
    [unsigned char]. *)
Definition cat (fuel : nat) (append : list Z) (len : Z) (st : list Z * Z)
    : outcome (list Z * Z) :=
  r <- strdcat fuel (fst st) append (to_char len) ;;
  Done (fst r, snd st + snd r).

(** [while (i < n) i += strdcat(modeline, " ", 1);] *)
Fixpoint pad (fuel steps : nat) (n : Z) (st : list Z * Z) : outcome (list Z * Z) :=
  match steps with
  | O => OutOfFuel
  | S steps' =>
      if snd st <? n then
        st' <- cat fuel [ch_SPACE; 0] 1 st ;;
        pad fuel steps' n st'
      else Done st
  end.

(** [if (b) i += strdcat(modeline, " ", 1);] *)
Definition pad_if (fuel : nat) (b : bool) (st : list Z * Z) : outcome (list Z * Z) :=
  if b then cat fuel [ch_SPACE; 0] 1 st else Done st.

(** [i += strdcat(modeline, putn(n), strlen(putn(n)));] with the static
    array [num] of [putn] beside [st].  [putn] runs twice on the same
    number; [tmp] is its local array as a call finds it. *)
Definition cat_number (fuel : nat) (n : Z) (tmp : list Z)
    (r : list Z * (list Z * Z)) : outcome (list Z * (list Z * Z)) :=
  let '(num, st) := r in
  num <- putn fuel (to_uint n) tmp num ;;
  num <- putn fuel (to_uint n) tmp num ;;
  len <- strlen fuel num ;;
  st <- cat fuel num len st ;;
  Done (num, st).

(** The loop of [message] that waits for the return key.  When the
    input ends [fgetc] answers [EOF] for ever: that is [OutOfFuel]. *)
Fixpoint wait_return (input : list Z) : outcome (list Z) :=
  match input with
  | [] => OutOfFuel
  | ch :: rest =>
      if (ch =? ch_NL) || (ch =? ch_CR) then Done rest else wait_return rest
  end.

Section StatusLine.

Variables COL_MAX BUF : Z.

(** [update_modeline], in the [__unix__] variant: the array [modeline]
    of [COL_MAX] bytes it leaves, and the array [num] of [putn]. *)
Definition update_modeline (fuel : nat) (tmp num : list Z) (s : state)
    : outcome (list Z * list Z) :=
  let modeline := replicate (Z.to_nat COL_MAX) 0 in
  st <- strdcpy fuel modeline (str_vce ++ [0]) ;;
  st <- match filename s with
        | Some name => cat fuel (name ++ [0]) (if 21 <? COL_MAX then 16 else 11) st
        | None => Done st
        end ;;
  r <- (if 34 <? COL_MAX then
          st <- pad fuel fuel 21 st ;;
          st <- cat fuel (str_l ++ [0]) 3 st ;;
          r <- cat_number fuel (line s) tmp (num, st) ;;
          if 48 <? COL_MAX then
            st <- pad fuel fuel 35 (snd r) ;;
            st <- cat fuel (str_c ++ [0]) 3 st ;;
            r <- cat_number fuel (col s) tmp (fst r, st) ;;
            if 64 <? COL_MAX then
              st <- pad fuel fuel (COL_MAX - 13) (snd r) ;;
              st <- cat fuel (str_rest ++ [0]) 6 st ;;
              let rest := to_uint (BUF - (ebuf s - egap s) - (gap s - buf s)) in
              st <- pad_if fuel (rest <? 1000000) st ;;
              st <- pad_if fuel (rest <? 100000) st ;;
              st <- pad_if fuel (rest <? 10000) st ;;
              st <- pad_if fuel (rest <? 1000) st ;;
              st <- pad_if fuel (rest <? 100) st ;;
              st <- pad_if fuel (rest <? 10) st ;;
              cat_number fuel rest tmp (fst r, st)
            else Done r
          else Done r
        else Done (num, st)) ;;
  st <- pad fuel fuel COL_MAX (snd r) ;;
  Done (fst st, fst r).

(** [message]: [msg] is the array of the message, [input] what [fgetc]
    delivers; the result is the array [modeline] that is written to the
    terminal and the input that is left. *)
Definition message (fuel : nat) (msg : list Z) (input : list Z)
    : outcome (list Z * list Z) :=
  let modeline := replicate (Z.to_nat COL_MAX) 0 in
  st <- strdcpy fuel modeline (str_vce ++ [0]) ;;
  len <- strlen fuel msg ;;
  st <- cat fuel msg len st ;;
  st <- pad fuel fuel COL_MAX st ;;
  input <- wait_return input ;;
  Done (fst st, input).

(** The array [modeline], all NUL but for the string [l] at its start,
    and the counter that is the length of [l]. *)
Definition partial_line (l : list Z) : list Z * Z :=
  (l ++ replicate (Z.to_nat COL_MAX - length l) 0, Z.of_nat (length l)).

End StatusLine.

(** *** The text of the status line *)

(** The number of decimal digits of [n]; [k] bounds the count. *)
Fixpoint digit_count (k : nat) (n : Z) : nat :=
  match k with
  | O => 1
  | S k' => if n <? 10 then 1 else S (digit_count k' (n `div` 10))
  end.

(** The decimal numeral of [n], the highest digit first. *)
Definition numeral (n : Z) : list Z :=
  rev (low_digits (digit_count (Z.to_nat (Z.log2 n)) n) n).

(** [l] filled with spaces to the width [n], on the right and on the
    left. *)
Definition pad_to (n : Z) (l : list Z) : list Z :=
  l ++ replicate (Z.to_nat n - length l) ch_SPACE.

Definition pad_left (n : Z) (l : list Z) : list Z :=
  replicate (Z.to_nat n - length l) ch_SPACE ++ l.

(** The status line: the name cut to sixteen bytes (eleven on a narrow
    terminal), the line at column 21, the column at column 35 and the
    free bytes, seven wide, at the right end, each field only when the
    terminal is wide enough for it. *)
Definition status_text (COL_MAX BUF : Z) (s : state) : list Z :=
  let name := match filename s with Some name => name | None => [] end in
  let l := str_vce ++ take (if 21 <? COL_MAX then 16%nat else 11%nat) name in
  let l :=
    if 34 <? COL_MAX then
      let l := pad_to 21 l ++ str_l ++ numeral (line s) in
      if 48 <? COL_MAX then
        let l := pad_to 35 l ++ str_c ++ numeral (col s) in
        if 64 <? COL_MAX then
          pad_to (COL_MAX - 13) l ++ str_rest ++ pad_left 7 (numeral (BUF - doclen s))
        else l
      else l
    else l in
  pad_to COL_MAX l.

(** The text [message] shows. *)
Definition message_text (COL_MAX : Z) (msg : list Z) : list Z :=
  pad_to COL_MAX (str_vce ++ msg).

(** The state at the label [out] when the file "f.c" holds "a\nb". *)
Definition named : state := startup 1000 16 (Contents [102; 46; 99] [97; 10; 98]).

(** ** The command loop of [main] on its input *)

(** [fgetc(stdin)]: the next byte and the input that is left; when the
    input has ended, [EOF], which is -1. *)
Definition fgetc (input : list Z) : Z * list Z :=
  match input with
  | [] => (-1, [])
  | ch :: rest => (ch, rest)
  end.

(** The texts handed to [message]. *)
Definition msg_version : list Z :=
  [86; 101; 114; 115; 105; 111; 110; 32; 48; 46; 56].       (* "Version 0.8" *)
Definition msg_no_filename : list Z :=
  [110; 111; 32; 102; 105; 108; 101; 110; 97; 109; 101].    (* "no filename" *)
Definition msg_failed_open : list Z :=
  [102; 97; 105; 108; 101; 100; 32; 111; 112; 101; 110].    (* "failed open" *)
Definition msg_save_ok : list Z :=
  [115; 97; 118; 101; 32; 111; 107].                        (* "save ok"     *)

Section MainLoop.

Variables COL_MAX ROW_MAX : Z.

(** Whether [open] succeeds in the save command number [k] of the run,
    when that command reaches it. *)
Variable open_ok : nat -> bool.

(** [save_file] with the two callees that read the input: [get_name],
    asked when there is no file name, and [message], called on each of
    the three ways out.  The result is the state and the input that is
    left. *)
Definition save_file_keys (fuel : nat) (k : nat) (input : list Z) (s : state)
    : outcome (state * list Z) :=
  r <- match filename s with
       | None => get_name COL_MAX input
       | Some _ => Done (None, input)
       end ;;
  let '(typed, input) := r in
  r <- save_file fuel typed (open_ok k) s ;;
  let '(s, out) := r in
  let text := match filename s, out with
              | None, _ => msg_no_filename
              | Some _, None => msg_failed_open
              | Some _, Some _ => msg_save_ok
              end in
  m <- message COL_MAX fuel (text ++ [0]) input ;;
  Done (s, snd m).

(** The [while (!done)] loop of [main]: a frame, then the bytes of one
    key.  [n] bounds the number of rounds and [k] counts the save
    commands.  The result is the state when ESC q is read, and the
    input behind it.  When the input has ended the loop does not: it
    inserts the byte of [EOF] round after round, or waits in
    [get_name] or [message]. *)
Fixpoint main_loop (fuel : nat) (n k : nat) (input : list Z) (s : state)
    : outcome (state * list Z) :=
  match n with
  | O => OutOfFuel
  | S n' =>
      s <- update_display COL_MAX ROW_MAX fuel s ;;
      let '(ch, input) := fgetc input in
      if ch =? 4 then main_loop fuel n' k input (right s)
      else if ch =? 5 then s <- up fuel s ;; main_loop fuel n' k input s
      else if ch =? 12 then
        s <- update_display COL_MAX ROW_MAX fuel s ;; main_loop fuel n' k input s
      else if ch =? 19 then main_loop fuel n' k input (left s)
      else if ch =? 24 then s <- down fuel s ;; main_loop fuel n' k input s
      else if ch =? 27 then
        let '(ch, input) := fgetc input in
        if ch =? 91 then                                   (* '[' *)
          let '(ch, input) := fgetc input in
          if ch =? 65 then s <- up fuel s ;; main_loop fuel n' k input s
          else if ch =? 66 then s <- down fuel s ;; main_loop fuel n' k input s
          else if ch =? 67 then main_loop fuel n' k input (right s)
          else if ch =? 68 then main_loop fuel n' k input (left s)
          else main_loop fuel n' k input s
        else if ch =? 113 then Done (s, input)             (* 'q' *)
        else if ch =? 115 then                             (* 's' *)
          r <- save_file_keys fuel k input s ;;
          main_loop fuel n' (S k) (snd r) (fst r)
        else if ch =? 118 then                             (* 'v' *)
          m <- message COL_MAX fuel (msg_version ++ [0]) input ;;
          main_loop fuel n' k (snd m) s
        else main_loop fuel n' k input s
      else s <- insert fuel ch s ;; main_loop fuel n' k input s
  end.

End MainLoop.

(** The bytes of a key and the command they select, for the keys that
    read no further input: the bytes that are a key by themselves, the
    four arrow sequences, and the sequences that are bound to
    nothing. *)
Inductive selects : list Z -> command -> Prop :=
| sel_byte (ch : Z) (c : command) : byte_command ch = Some c -> selects [ch] c
| sel_up : selects [27; 91; 65] Up
| sel_down : selects [27; 91; 66] Down
| sel_right : selects [27; 91; 67] Right
| sel_left : selects [27; 91; 68] Left
| sel_unbound (b : Z) :
    b <> 91 -> b <> 113 -> b <> 115 -> b <> 118 -> selects [27; b] Version
| sel_unbound_arrow (b : Z) :
    b <> 65 -> b <> 66 -> b <> 67 -> b <> 68 -> selects [27; 91; b] Version.

(** * Properties *)

(** ** Tactics and basic facts *)

(** Case analysis on every integer comparison in sight. *)
Ltac zcases :=
  repeat match goal with
    | |- context [?a <? ?b] => destruct (Z.ltb_spec a b)
    | |- context [?a <=? ?b] => destruct (Z.leb_spec a b)
    | |- context [?a =? ?b] => destruct (Z.eqb_spec a b)
    | H : context [?a <? ?b] |- _ => destruct (Z.ltb_spec a b)
    | H : context [?a <=? ?b] |- _ => destruct (Z.leb_spec a b)
    | H : context [?a =? ?b] |- _ => destruct (Z.eqb_spec a b)
    end.

Lemma load_in s p : buf s <= p < ebuf s -> load s p = Done (mem s !!! p).
Proof. intros H. unfold load, in_buffer. zcases; simpl; auto; lia. Qed.

Lemma store_in s p c :
  buf s <= p < ebuf s -> store s p c = Done (set_mem (<[p := c]> (mem s)) s).
Proof. intros H. unfold store, in_buffer. zcases; simpl; auto; lia. Qed.

Lemma load_done s p c : load s p = Done c -> buf s <= p < ebuf s /\ c = mem s !!! p.
Proof.
  unfold load, in_buffer. zcases; simpl; intros E; inversion E; split; auto; lia.
Qed.

Lemma load_fault s p a : load s p = Fault a -> a = p /\ ~ (buf s <= p < ebuf s).
Proof.
  unfold load, in_buffer. zcases; simpl; intros E; inversion E; split; auto; lia.
Qed.

Lemma load_fuel s p : load s p <> OutOfFuel.
Proof. unfold load. destruct (in_buffer s p); discriminate. Qed.

Lemma bytes_length m a n : length (bytes m a n) = Z.to_nat n.
Proof. unfold bytes. now rewrite length_fmap, length_seqZ. Qed.

Lemma bytes_lookup m a n (i : nat) :
  Z.of_nat i < n -> bytes m a n !! i = Some (m !!! (a + Z.of_nat i)).
Proof.
  intros H. unfold bytes. rewrite list_lookup_fmap, lookup_seqZ_lt by lia. reflexivity.
Qed.

Lemma bytes_insert_out m a n p c :
  p < a \/ a + n <= p -> bytes (<[p := c]> m) a n = bytes m a n.
Proof.
  intros H. apply list_eq. intros i.
  destruct (decide (Z.of_nat i < n)) as [Hi|Hi].
  - rewrite !bytes_lookup by lia. f_equal. apply lookup_total_insert_ne. lia.
  - rewrite !lookup_ge_None_2; auto; rewrite bytes_length; lia.
Qed.

Lemma bytes_snoc m a n : 0 <= n -> bytes m a (n + 1) = bytes m a n ++ [m !!! (a + n)].
Proof.
  intros H. unfold bytes. rewrite seqZ_app by lia. rewrite fmap_app. reflexivity.
Qed.

Lemma document_length s :
  buf s <= gap s -> egap s <= ebuf s -> length (document s) = Z.to_nat (doclen s).
Proof.
  intros H1 H2. unfold document, doclen. rewrite length_app, !bytes_length. lia.
Qed.

(** The document byte at a logical offset is the byte [ptr] addresses. *)
Lemma document_lookup s o :
  buf s <= gap s -> gap s <= egap s -> egap s <= ebuf s ->
  0 <= o < doclen s ->
  document s !! Z.to_nat o = Some (mem s !!! ptr s o).
Proof.
  intros H1 H2 H3 Ho. unfold document, doclen, ptr in *.
  destruct (Z.ltb_spec o 0); [lia|].
  destruct (Z.ltb_spec (buf s + o) (gap s)).
  - rewrite lookup_app_l by (rewrite bytes_length; lia).
    rewrite bytes_lookup by lia. do 2 f_equal. lia.
  - rewrite lookup_app_r by (rewrite bytes_length; lia).
    rewrite bytes_length, bytes_lookup by lia. do 2 f_equal. lia.
Qed.

(** Two buffers hold one document when [ptr] reads the same bytes. *)
Lemma document_ext s s' :
  buf s <= gap s -> gap s <= egap s -> egap s <= ebuf s ->
  buf s' <= gap s' -> gap s' <= egap s' -> egap s' <= ebuf s' ->
  doclen s' = doclen s ->
  (forall o, 0 <= o < doclen s -> mem s' !!! ptr s' o = mem s !!! ptr s o) ->
  document s' = document s.
Proof.
  intros H1 H2 H3 H1' H2' H3' Hlen Hb. apply list_eq. intros i.
  destruct (decide (Z.of_nat i < doclen s)) as [Hi|Hi].
  - rewrite <- (Nat2Z.id i).
    rewrite !document_lookup by lia. f_equal. apply Hb. lia.
  - rewrite !lookup_ge_None_2; auto; rewrite document_length by lia; lia.
Qed.

(** ** C1: the address inverse law *)

(** C1.  In a well-formed buffer, [pos (ptr o) = o] for every logical
    offset [o] of the document, its end included, and [ptr (pos a) = a]
    for every address [a] of the buffer, its end included, that does not
    lie in the gap [[gap, egap)]. *)
Theorem address_inverse (s : state) (o a : Z) :
  wf s ->
  0 <= o <= doclen s ->
  buf s <= a <= ebuf s ->
  ~ (gap s <= a < egap s) ->
  pos s (ptr s o) = o /\ ptr s (pos s a) = a.
Proof.
  intros [H1 H2 H3 _ _] Ho Ha Hgap. unfold doclen in Ho.
  unfold pos, ptr. split; zcases; lia.
Qed.

(** ** Gap relocation keeps the document *)

(** Equality of two states, field by field. *)
Ltac state_eq := 
  match goal with
  | |- @eq state _ _ => idtac
  | |- Done _ = Done _ => f_equal
  end;
  repeat match goal with s : state |- _ => destruct s end;
  cbv [set_gap set_egap set_mem set_filename set_screen set_col set_row
       set_line set_idx set_page set_epage set_dirty
       buf ebuf gap egap mem filename screen col row line idx page epage dirty] in *;
  f_equal; try lia; auto.

Lemma movegap_down_stay fuel p s :
  gap s <= p -> movegap_down (S fuel) p s = Done s.
Proof. intros H. simpl. zcases; auto; lia. Qed.

Lemma movegap_up_stay fuel p s :
  p <= egap s -> movegap_up (S fuel) p s = Done s.
Proof. intros H. simpl. zcases; auto; lia. Qed.

(** Moving the gap down to [p]: the bytes at [[p, gap)] are copied to
    the addresses below [egap], nothing else is written. *)
Lemma movegap_down_spec fuel : forall p s,
  buf s <= p -> p <= gap s -> gap s <= egap s -> egap s <= ebuf s ->
  (Z.to_nat (gap s - p) < fuel)%nat ->
  exists m,
    movegap_down fuel p s
      = Done (set_mem m (set_egap (egap s - (gap s - p)) (set_gap p s))) /\
    (forall a, a < egap s - (gap s - p) \/ egap s <= a -> m !!! a = mem s !!! a) /\
    (forall k, 0 <= k < gap s - p ->
               m !!! (egap s - (gap s - p) + k) = mem s !!! (p + k)).
Proof.
  induction fuel as [|fuel IH]; intros p s Hb Hp Hg He Hf; [lia|].
  simpl. destruct (Z.ltb_spec p (gap s)) as [Hlt|Hge].
  - rewrite load_in by (simpl; lia). simpl.
    rewrite store_in by (simpl; lia). simpl.
    set (s3 := set_mem _ _).
    destruct (IH p s3) as (m & Hrun & Hout & Hin); subst s3; simpl; try lia.
    simpl in *. exists m. split; [|split].
    + rewrite Hrun. state_eq.
    + intros a Ha. rewrite Hout by lia. apply lookup_total_insert_ne. lia.
    + intros k Hk. destruct (decide (k = gap s - 1 - p)) as [->|Hne].
      * rewrite Hout by lia.
        replace (egap s - (gap s - p) + (gap s - 1 - p)) with (egap s - 1) by lia.
        rewrite lookup_total_insert_eq. f_equal. lia.
      * replace (egap s - (gap s - p)) with (egap s - 1 - (gap s - 1 - p)) by lia.
        rewrite Hin by lia. apply lookup_total_insert_ne. lia.
  - exists (mem s). split; [|split]; auto.
    + state_eq.
    + intros k Hk. lia.
Qed.

(** Moving the gap up to [p]: the bytes at [[egap, p)] are copied to
    the addresses from [gap] on, nothing else is written. *)
Lemma movegap_up_spec fuel : forall p s,
  buf s <= gap s -> gap s <= egap s -> egap s <= p -> p <= ebuf s ->
  (Z.to_nat (p - egap s) < fuel)%nat ->
  exists m,
    movegap_up fuel p s
      = Done (set_mem m (set_egap p (set_gap (gap s + (p - egap s)) s))) /\
    (forall a, a < gap s \/ gap s + (p - egap s) <= a -> m !!! a = mem s !!! a) /\
    (forall k, 0 <= k < p - egap s -> m !!! (gap s + k) = mem s !!! (egap s + k)).
Proof.
  induction fuel as [|fuel IH]; intros p s Hb Hg Hp He Hf; [lia|].
  simpl. destruct (Z.ltb_spec (egap s) p) as [Hlt|Hge].
  - rewrite load_in by (simpl; lia). simpl.
    rewrite store_in by (simpl; lia). simpl.
    set (s3 := set_egap _ _).
    destruct (IH p s3) as (m & Hrun & Hout & Hin); subst s3; simpl; try lia.
    simpl in *. exists m. split; [|split].
    + rewrite Hrun. state_eq.
    + intros a Ha. rewrite Hout by lia. apply lookup_total_insert_ne. lia.
    + intros k Hk. destruct (decide (k = 0)) as [->|Hne].
      * rewrite Hout by lia. rewrite !Z.add_0_r. apply lookup_total_insert_eq.
      * replace (gap s + k) with (gap s + 1 + (k - 1)) by lia.
        rewrite Hin by lia.
        rewrite lookup_total_insert_ne by lia. f_equal. lia.
  - exists (mem s). split; [|split]; auto.
    + state_eq.
    + intros k Hk. lia.
Qed.

Lemma pos_egap s : pos s (egap s) = gap s - buf s.
Proof. unfold pos. rewrite Z.ltb_irrefl. lia. Qed.

(** A move to where the gap already is changes nothing. *)
Lemma movegap_stay fuel s :
  gap s <= egap s -> 0 <= idx s -> gap s = buf s + idx s ->
  movegap (S fuel) s = Done s.
Proof.
  intros Hg Hi Heq. unfold movegap.
  assert (Hp : ptr s (idx s) = egap s) by (unfold ptr; zcases; lia).
  rewrite Hp, movegap_down_stay by lia. cbn [bind].
  rewrite movegap_up_stay by lia. cbn [bind].
  rewrite pos_egap. state_eq.
Qed.

Lemma enough_pos s fuel : enough s fuel -> exists fuel', fuel = S fuel'.
Proof. unfold enough. destruct fuel; [lia|eauto]. Qed.

(** [movegap] on a well-formed state: the gap keeps its size and starts
    at the cursor, nothing but [gap], [egap] and the buffer contents
    changes, and the document is the same. *)
Lemma movegap_spec s fuel :
  wf s -> enough s fuel ->
  exists s',
    movegap fuel s = Done s' /\
    s' = set_mem (mem s') (set_egap (egap s') (set_gap (gap s') s)) /\
    gap s' = buf s + idx s /\
    egap s' - gap s' = egap s - gap s /\
    document s' = document s.
Proof.
  intros [H1 H2 H3 H4 H5] Hf. unfold doclen in H5. unfold enough in Hf.
  unfold movegap.
  destruct (Z.ltb_spec (buf s + idx s) (gap s)) as [Hlt|Hge].
  - assert (Hp : ptr s (idx s) = buf s + idx s) by (unfold ptr; zcases; lia).
    rewrite Hp.
    destruct (movegap_down_spec fuel (buf s + idx s) s) as (m & Hrun & Hout & Hin);
      try lia.
    rewrite Hrun. cbn [bind].
    destruct fuel as [|fuel]; [lia|].
    rewrite movegap_up_stay by (simpl; lia). cbn [bind].
    rewrite pos_egap.
    eexists. split; [reflexivity|]. simpl.
    split; [state_eq|]. split; [lia|]. split; [lia|].
    apply document_ext; simpl; try lia.
    + unfold doclen; simpl; lia.
    + intros o Ho. unfold doclen in Ho. unfold ptr; simpl.
      destruct (Z.ltb_spec o 0); [lia|].
      destruct (Z.ltb_spec (buf s + o) (buf s + idx s)).
      * rewrite Hout by lia. destruct (Z.ltb_spec (buf s + o) (gap s)); [f_equal|]; lia.
      * destruct (Z.ltb_spec (buf s + o) (gap s)).
        -- replace (buf s + o + (egap s - (gap s - (buf s + idx s)) - (buf s + idx s)))
             with (egap s - (gap s - (buf s + idx s)) + (o - idx s)) by lia.
           rewrite Hin by lia. f_equal. lia.
        -- rewrite Hout by lia. f_equal. lia.
  - assert (Hp : ptr s (idx s) = buf s + idx s + (egap s - gap s))
      by (unfold ptr; zcases; lia).
    rewrite Hp.
    destruct fuel as [|fuel]; [lia|].
    rewrite movegap_down_stay by lia. cbn [bind].
    destruct (movegap_up_spec (S fuel) (buf s + idx s + (egap s - gap s)) s)
      as (m & Hrun & Hout & Hin); try lia.
    rewrite Hrun. cbn [bind]. rewrite pos_egap.
    eexists. split; [reflexivity|]. simpl.
    split; [|split; [lia|split; [lia|]]].
    + state_eq.
    + apply document_ext; simpl; try lia.
      * unfold doclen; simpl; lia.
      * intros o Ho. unfold doclen in Ho. unfold ptr; simpl.
        destruct (Z.ltb_spec o 0); [lia|].
        destruct (Z.ltb_spec (buf s + o)
                    (gap s + (buf s + idx s + (egap s - gap s) - egap s))).
        -- destruct (Z.ltb_spec (buf s + o) (gap s)).
           ++ rewrite Hout by lia. f_equal; lia.
           ++ replace (buf s + o + 0) with (gap s + (buf s + o - gap s)) by lia.
              rewrite Hin by lia. f_equal. lia.
        -- destruct (Z.ltb_spec (buf s + o) (gap s)); [lia|].
           rewrite Hout by lia. f_equal. lia.
Qed.

(** What [movegap_spec] gives about the fields other than the gap. *)
Lemma movegap_frame s s' :
  s' = set_mem (mem s') (set_egap (egap s') (set_gap (gap s') s)) ->
  buf s' = buf s /\ ebuf s' = ebuf s /\ idx s' = idx s /\ dirty s' = dirty s /\
  col s' = col s /\ row s' = row s /\ page s' = page s /\ epage s' = epage s /\
  filename s' = filename s /\ screen s' = screen s /\ line s' = line s.
Proof. intros H. rewrite H. simpl. repeat split. Qed.

(** ** C2: [movegap] conserves the document *)

(** C2.  On a well-formed state, whose cursor [idx] is the target of the
    move, [movegap] returns, with the same document bytes and the same
    document length; when the gap already starts at the cursor the state
    is returned as it was. *)
Theorem movegap_conserves_document (s : state) (fuel : nat) :
  wf s -> enough s fuel ->
  exists s',
    movegap fuel s = Done s' /\
    document s' = document s /\
    doclen s' = doclen s /\
    (gap s = buf s + idx s -> s' = s).
Proof.
  intros Hwf Hf.
  destruct (movegap_spec s fuel Hwf Hf) as (s' & Hrun & Hfr & Hg & Hsz & Hdoc).
  exists s'. split; [exact Hrun|]. split; [exact Hdoc|].
  destruct (movegap_frame _ _ Hfr) as (Hb & He & _).
  split.
  - unfold doclen. lia.
  - intros Heq. destruct (enough_pos _ _ Hf) as [fuel' ->].
    destruct Hwf. rewrite movegap_stay in Hrun by lia. now inversion Hrun.
Qed.

(** ** The edit primitive *)

Lemma document_take s :
  buf s <= gap s ->
  take (Z.to_nat (gap s - buf s)) (document s) = bytes (mem s) (buf s) (gap s - buf s).
Proof.
  intros H. unfold document. apply take_app_length'. now rewrite bytes_length.
Qed.

Lemma document_drop s :
  buf s <= gap s ->
  drop (Z.to_nat (gap s - buf s)) (document s) = bytes (mem s) (egap s) (ebuf s - egap s).
Proof.
  intros H. unfold document. apply drop_app_length'. now rewrite bytes_length.
Qed.

Lemma enough_same s s' fuel :
  buf s' = buf s -> ebuf s' = ebuf s -> enough s fuel -> enough s' fuel.
Proof. unfold enough. intros -> ->. auto. Qed.

(** [insert] of a byte that is stored, with room in the gap. *)
Lemma insert_store s fuel ch :
  wf s -> enough s fuel ->
  ch <> ch_BS -> ch <> ch_DEL ->
  doclen s < ebuf s - buf s ->
  exists s',
    insert fuel ch s = Done s' /\ wf s' /\
    buf s' = buf s /\ ebuf s' = ebuf s /\ dirty s' = dirty s /\
    idx s' = idx s + 1 /\
    gap s' = buf s + idx s + 1 /\
    document s' = take (Z.to_nat (idx s)) (document s) ++ [stored ch]
                    ++ drop (Z.to_nat (idx s)) (document s).
Proof.
  intros Hwf Hf Hbs Hdel Hroom.
  destruct (movegap_spec s fuel Hwf Hf) as (s1 & Hrun & Hfr & Hg & Hsz & Hdoc).
  destruct (movegap_frame _ _ Hfr) as (Hb & He & Hi & Hd & _).
  destruct Hwf as [H1 H2 H3 H4 H5]. unfold doclen in *.
  unfold insert. rewrite Hrun. cbn [bind].
  destruct (Z.eqb_spec ch ch_BS); [contradiction|].
  destruct (Z.eqb_spec ch ch_DEL); [contradiction|]. cbn [orb].
  destruct (Z.ltb_spec (gap s1) (egap s1)); [|lia].
  rewrite store_in by lia. cbn [bind]. rewrite pos_egap.
  eexists. split; [reflexivity|]. simpl.
  split; [constructor; unfold doclen; simpl; lia|].
  repeat (split; [lia|]).
  rewrite <- Hdoc.
  replace (idx s) with (gap s1 - buf s1) by lia.
  rewrite document_take, document_drop by lia.
  unfold document; simpl.
  replace (gap s1 + 1 - buf s1) with (gap s1 - buf s1 + 1) by lia.
  rewrite bytes_snoc by lia.
  rewrite !bytes_insert_out by lia.
  replace (buf s1 + (gap s1 - buf s1)) with (gap s1) by lia.
  rewrite lookup_total_insert_eq. unfold stored.
  now rewrite <- app_assoc.
Qed.

(** [insert] of a byte that is stored, into a full buffer. *)
Lemma insert_full s fuel ch :
  wf s -> enough s fuel ->
  ch <> ch_BS -> ch <> ch_DEL ->
  doclen s = ebuf s - buf s ->
  exists s',
    insert fuel ch s = Done s' /\ wf s' /\
    buf s' = buf s /\ ebuf s' = ebuf s /\ dirty s' = dirty s /\
    idx s' = idx s /\
    gap s' = buf s + idx s /\
    document s' = document s.
Proof.
  intros Hwf Hf Hbs Hdel Hfull.
  destruct (movegap_spec s fuel Hwf Hf) as (s1 & Hrun & Hfr & Hg & Hsz & Hdoc).
  destruct (movegap_frame _ _ Hfr) as (Hb & He & Hi & Hd & _).
  destruct Hwf as [H1 H2 H3 H4 H5]. unfold doclen in *.
  unfold insert. rewrite Hrun. cbn [bind].
  destruct (Z.eqb_spec ch ch_BS); [contradiction|].
  destruct (Z.eqb_spec ch ch_DEL); [contradiction|]. cbn [orb].
  destruct (Z.ltb_spec (gap s1) (egap s1)); [lia|].
  cbn [bind]. rewrite pos_egap.
  eexists. split; [reflexivity|]. simpl.
  split; [constructor; unfold doclen; simpl; lia|].
  repeat (split; [lia|]). exact Hdoc.
Qed.

(** [insert] of backspace or DEL. *)
Lemma insert_delete s fuel ch :
  wf s -> enough s fuel ->
  ch = ch_BS \/ ch = ch_DEL ->
  exists s',
    insert fuel ch s = Done s' /\ wf s' /\
    buf s' = buf s /\ ebuf s' = ebuf s /\ dirty s' = dirty s /\
    idx s' = Z.max 0 (idx s - 1) /\
    gap s' = buf s + idx s' /\
    egap s' - gap s' = egap s - gap s + (idx s - idx s') /\
    document s' = take (Z.to_nat (idx s - 1)) (document s)
                    ++ drop (Z.to_nat (idx s)) (document s).
Proof.
  intros Hwf Hf Hch.
  destruct (movegap_spec s fuel Hwf Hf) as (s1 & Hrun & Hfr & Hg & Hsz & Hdoc).
  destruct (movegap_frame _ _ Hfr) as (Hb & He & Hi & Hd & _).
  destruct Hwf as [H1 H2 H3 H4 H5]. unfold doclen in *.
  unfold insert. rewrite Hrun. cbn [bind].
  assert (Hor : (ch =? ch_BS) || (ch =? ch_DEL) = true).
  { destruct Hch as [-> | ->]; reflexivity. }
  rewrite Hor. cbn [bind]. rewrite pos_egap.
  eexists. split; [reflexivity|].
  rewrite <- Hdoc.
  destruct (Z.ltb_spec (buf s1) (gap s1)) as [Hlt|Hge]; simpl.
  - split; [constructor; unfold doclen; simpl; lia|].
    repeat (split; [lia|]).
    replace (idx s) with (gap s1 - buf s1) by lia.
    rewrite document_drop by lia.
    replace (Z.to_nat (gap s1 - buf s1 - 1))
      with (Z.to_nat (gap s1 - 1 - buf s1) `min` Z.to_nat (gap s1 - buf s1))%nat by lia.
    rewrite <- take_take, document_take by lia.
    unfold document; simpl. f_equal.
    replace (gap s1 - buf s1) with (gap s1 - 1 - buf s1 + 1) at 1 by lia.
    rewrite bytes_snoc by lia.
    rewrite take_app_length'; [reflexivity|]. rewrite bytes_length. lia.
  - split; [constructor; unfold doclen; simpl; lia|].
    repeat (split; [lia|]).
    replace (idx s) with 0 by lia. simpl. reflexivity.
Qed.

(** ** C5: the capacity ceiling *)

(** C5.  When the document fills the buffer ([doclen = BUF], the gap is
    empty), [insert] of a byte it would store (any key but backspace and
    DEL, which delete) returns without a fault and leaves the document,
    its length and the cursor as they were. *)
Theorem insert_at_capacity_dropped (s : state) (fuel : nat) (ch : Z) :
  wf s -> enough s fuel ->
  ch <> ch_BS -> ch <> ch_DEL ->
  doclen s = ebuf s - buf s ->
  exists s',
    insert fuel ch s = Done s' /\
    document s' = document s /\
    doclen s' = doclen s /\
    idx s' = idx s.
Proof.
  intros Hwf Hf Hbs Hdel Hfull.
  destruct (insert_full s fuel ch Hwf Hf Hbs Hdel Hfull)
    as (s' & Hrun & Hwf' & Hb & He & _ & Hi & Hg & Hdoc).
  exists s'. repeat split; auto.
  apply (f_equal length) in Hdoc.
  destruct Hwf, Hwf'. rewrite !document_length in Hdoc by lia. lia.
Qed.

(** ** C10: backspace and DEL delete *)

(** C10.  [insert] of 0x08 or 0x7F returns on every well-formed state;
    with the cursor past offset 0 the document loses exactly the byte
    before the cursor, the live prefix [[buf, gap)] ends one byte
    earlier than the cursor was and the cursor moves back by one; with
    the cursor at offset 0 the document and the cursor stay.  No byte
    is added in either case. *)
Theorem insert_backspace_deletes (s : state) (fuel : nat) (ch : Z) :
  wf s -> enough s fuel ->
  ch = ch_BS \/ ch = ch_DEL ->
  exists s',
    insert fuel ch s = Done s' /\
    (0 < idx s ->
       document s' = take (Z.to_nat (idx s - 1)) (document s)
                       ++ drop (Z.to_nat (idx s)) (document s) /\
       doclen s' = doclen s - 1 /\
       gap s' - buf s' = idx s - 1 /\
       idx s' = idx s - 1) /\
    (idx s = 0 ->
       document s' = document s /\ doclen s' = doclen s /\
       gap s' - buf s' = 0 /\ idx s' = 0).
Proof.
  intros Hwf Hf Hch.
  destruct (insert_delete s fuel ch Hwf Hf Hch)
    as (s' & Hrun & Hwf' & Hb & He & _ & Hi & Hg & Hsz & Hdoc).
  exists s'. split; [exact Hrun|]. unfold doclen. split.
  - intros Hpos. repeat split; auto; lia.
  - intros H0. rewrite Hdoc, H0. simpl. rewrite drop_0. repeat split; lia.
Qed.

(** ** C6: insert, then delete backward *)

(** C6, as the code has it.  On a well-formed state whose document is
    shorter than the buffer, [insert] of a byte it stores (any key but
    backspace and DEL) moves the cursor from [o] to [o + 1], and a
    backward delete there gives back the document and the cursor. *)
Theorem insert_delete_roundtrip (s : state) (fuel : nat) (b : Z) :
  wf s -> enough s fuel ->
  b <> ch_BS -> b <> ch_DEL ->
  doclen s < ebuf s - buf s ->
  exists s1 s2,
    insert fuel b s = Done s1 /\ idx s1 = idx s + 1 /\
    insert fuel ch_BS s1 = Done s2 /\
    document s2 = document s /\ idx s2 = idx s.
Proof.
  intros Hwf Hf Hbs Hdel Hroom.
  destruct (insert_store s fuel b Hwf Hf Hbs Hdel Hroom)
    as (s1 & Hrun1 & Hwf1 & Hb1 & He1 & _ & Hi1 & Hg1 & Hdoc1).
  assert (Hf1 : enough s1 fuel) by (eapply enough_same; eauto).
  destruct (insert_delete s1 fuel ch_BS Hwf1 Hf1 (or_introl eq_refl))
    as (s2 & Hrun2 & Hwf2 & Hb2 & He2 & _ & Hi2 & Hg2 & _ & Hdoc2).
  exists s1, s2. repeat split; auto; [|destruct Hwf; lia].
  rewrite Hdoc2, Hdoc1, Hi1.
  assert (Hlen : length (take (Z.to_nat (idx s)) (document s)) = Z.to_nat (idx s)).
  { destruct Hwf. rewrite length_take, document_length by lia. lia. }
  replace (Z.to_nat (idx s + 1 - 1)) with (Z.to_nat (idx s)) by lia.
  rewrite take_app_length' by auto.
  replace (Z.to_nat (idx s + 1)) with (S (length (take (Z.to_nat (idx s)) (document s))))
    by (destruct Hwf; lia).
  rewrite app_assoc.
  rewrite (drop_app_length' (_ ++ [stored b])) by (rewrite length_app; simpl; lia).
  apply take_drop.
Qed.

(** Reading observations off a run that is computed. *)
Lemma outcome_view {A B : Type} (o : outcome A) (f : A -> B) (b : B) :
  match o with Done a => Some (f a) | _ => None end = Some b ->
  exists a, o = Done a /\ f a = b.
Proof. destruct o; intros H; inversion H. eauto. Qed.

Lemma bind_done {A B : Type} (m : outcome A) (k : A -> outcome B) (b : B) :
  (a <- m ;; k a) = Done b -> exists a, m = Done a /\ k a = Done b.
Proof. destruct m; intros H; inversion H. eauto. Qed.

(** C6 fails on a full buffer.  In a buffer of four bytes, after the
    keys w, x, y, z and two moves to the left, the document is "wxyz"
    and the cursor is after 'w', 'x': the insert of 'q' is dropped, the
    cursor stays at 2, and the backward delete that follows removes
    'x'. *)
Lemma roundtrip_fails_on_full_buffer :
  exists s s1 s2,
    rounds 80 24 10 [Insert 119; Insert 120; Insert 121; Insert 122; Left; Left]
           (startup 1000 4 NoFile) = Done s /\
    insert 10 113 s = Done s1 /\
    insert 10 ch_BS s1 = Done s2 /\
    (document s, idx s, doclen s) = ([119; 120; 121; 122], 2, 4) /\
    idx s1 = 2 /\
    document s2 = [119; 121; 122] /\
    document s2 <> document s.
Proof.
  assert (H :
    (s <- rounds 80 24 10 [Insert 119; Insert 120; Insert 121; Insert 122; Left; Left]
                 (startup 1000 4 NoFile) ;;
     s1 <- insert 10 113 s ;;
     s2 <- insert 10 ch_BS s1 ;;
     Done (document s, idx s, doclen s, idx s1, document s2))
    = Done ([119; 120; 121; 122], 2, 4, 2, [119; 121; 122])).
  { vm_compute. reflexivity. }
  apply bind_done in H as (s & Hs & H).
  apply bind_done in H as (s1 & Hs1 & H).
  apply bind_done in H as (s2 & Hs2 & H).
  injection H as Hd Hi Hl Hi1 Hd2.
  exists s, s1, s2.
  split; [exact Hs|]. split; [exact Hs1|]. split; [exact Hs2|].
  split; [now rewrite Hd, Hi, Hl|]. split; [exact Hi1|]. split; [exact Hd2|].
  rewrite Hd2, Hd. discriminate.
Qed.

(** ** C3: the dirty flag *)

(** No path of [insert] assigns [dirty]. *)
Lemma insert_keeps_dirty s fuel ch s' :
  wf s -> enough s fuel -> insert fuel ch s = Done s' -> dirty s' = dirty s.
Proof.
  intros Hwf Hf Hrun.
  destruct (decide (ch = ch_BS \/ ch = ch_DEL)) as [Hch|Hch].
  - destruct (insert_delete s fuel ch Hwf Hf Hch) as (s2 & Hrun2 & _ & _ & _ & Hd & _).
    congruence.
  - assert (ch <> ch_BS /\ ch <> ch_DEL) as [Hbs Hdel] by tauto.
    destruct (decide (doclen s < ebuf s - buf s)) as [Hroom|Hroom].
    + destruct (insert_store s fuel ch Hwf Hf Hbs Hdel Hroom)
        as (s2 & Hrun2 & _ & _ & _ & Hd & _). congruence.
    + assert (Hfull : doclen s = ebuf s - buf s) by (destruct Hwf; unfold doclen in *; lia).
      destruct (insert_full s fuel ch Hwf Hf Hbs Hdel Hfull)
        as (s2 & Hrun2 & _ & _ & _ & Hd & _). congruence.
Qed.

(** C3, on the code.  From the empty buffer the key 'x' is inserted and
    changes the document, and the dirty flag is 0 after it as before; a
    backward delete then changes the document again and leaves the flag
    at 0.  [save_file] stores 0 in the flag. *)
Theorem insert_leaves_dirty_clear :
  dirty (startup 1000 16 NoFile) = 0 /\
  document (startup 1000 16 NoFile) = [] /\
  (exists s, rounds 80 24 20 [Insert 120] (startup 1000 16 NoFile) = Done s /\
             (document s, dirty s) = ([120], 0)) /\
  (exists s, rounds 80 24 20 [Insert 120; Insert 121; Insert ch_BS]
                    (startup 1000 16 NoFile) = Done s /\
             (document s, dirty s) = ([120], 0)) /\
  (exists s, rounds 80 24 20 [Insert 120; Save (Some [102]) true]
                    (startup 1000 16 NoFile) = Done s /\
             (document s, dirty s) = ([120], 0)).
Proof.
  split; [reflexivity|]. split; [reflexivity|].
  repeat split; apply outcome_view with (f := fun s => (document s, dirty s));
    vm_compute; reflexivity.
Qed.

(** ** C4: the start of a line *)

(** C4, on the code.  After the keys Return, a, b the document is
    "\nab" with the gap behind it.  Offset 2 lies on the second line and
    the newest newline before it is at offset 0, yet [prevline] answers
    0: the scan stops at the first byte of the buffer without reading
    it.  After a save, which leaves the gap at the start of the buffer,
    the same document gives 1. *)
Theorem prevline_skips_first_byte :
  exists s s',
    rounds 80 24 30 [Insert ch_CR; Insert 97; Insert 98] (startup 1000 16 NoFile)
      = Done s /\
    dispatch 80 24 30 (Save (Some [102]) true) s = Done s' /\
    (document s, gap s - buf s) = ([10; 97; 98], 3) /\
    prevline 30 s 2 = Done 0 /\
    (document s', gap s' - buf s') = ([10; 97; 98], 0) /\
    prevline 30 s' 2 = Done 1.
Proof.
  assert (H :
    (s <- rounds 80 24 30 [Insert ch_CR; Insert 97; Insert 98] (startup 1000 16 NoFile) ;;
     s' <- dispatch 80 24 30 (Save (Some [102]) true) s ;;
     Done (document s, gap s - buf s, prevline 30 s 2,
           document s', gap s' - buf s', prevline 30 s' 2))
    = Done ([10; 97; 98], 3, Done 0, [10; 97; 98], 0, Done 1)).
  { vm_compute. reflexivity. }
  apply bind_done in H as (s & Hs & H).
  apply bind_done in H as (s' & Hs' & H).
  injection H as Hd Hg Hp Hd' Hg' Hp'.
  exists s, s'.
  split; [exact Hs|]. split; [exact Hs'|].
  split; [now rewrite Hd, Hg|]. split; [exact Hp|].
  split; [now rewrite Hd', Hg'|exact Hp'].
Qed.

(** ** C8: the line number *)

(** C8, on the code.  After the keys a, Return, b, three moves to the
    left, the key x and a move to the right, the document is "xa\nb"
    and the cursor is at offset 2, behind "xa", on line 1.  The frame
    reports line 2: [get_lineno] reads [buf[1]], a byte of the gap that
    still holds the newline moved away from there. *)
Theorem get_lineno_reads_the_gap :
  exists s,
    rounds 80 24 30 [Insert 97; Insert ch_CR; Insert 98; Left; Left; Left;
                     Insert 120; Right] (startup 1000 16 NoFile) = Done s /\
    (document s, idx s, gap s - buf s, cursor_line s, line s)
      = ([120; 97; 10; 98], 2, 1, 1, 2).
Proof.
  apply outcome_view with
    (f := fun s => (document s, idx s, gap s - buf s, cursor_line s, line s)).
  vm_compute. reflexivity.
Qed.

(** ** C7: the cursor cell *)

(** C7, on the code.  A file of 1840 bytes 'x' (23 rows of 80 columns)
    is loaded into the buffer of 8 MiB; after the first frame the key
    Down puts the cursor behind the last byte, and the next frame
    records it in row 23, below the 23 rows [0 .. 22] of the grid. *)
Lemma cursor_row_below_grid :
  exists s,
    rounds 80 24 2000 [Down]
           (startup 4096 (8 * 1024 * 1024) (Contents [102] (replicate 1840 120)))
      = Done s /\
    (idx s, row s, col s) = (1840, 23, 0) /\
    ~ (0 <= row s < 24 - 1 /\ 0 <= col s < 80).
Proof.
  destruct (outcome_view
              (rounds 80 24 2000 [Down]
                 (startup 4096 (8 * 1024 * 1024) (Contents [102] (replicate 1840 120))))
              (fun s => (idx s, row s, col s)) (1840, 23, 0)) as (s & Hrun & Hv).
  { vm_compute. reflexivity. }
  exists s. split; [exact Hrun|]. split; [exact Hv|].
  injection Hv as Hi Hr Hc. rewrite Hr. lia.
Qed.

(** C7, on the code, without a long line.  A file of 30 lines "a\n":
    22 times Down puts the cursor on the last row of the grid, row 22,
    and Return there opens a line below it.  The frame that follows
    does not page, because it compares the cursor with the [epage] of
    the frame before; it records the cursor in row 23, below the grid.
    One frame later the paging block scrolls and the cursor is in row
    22 again. *)
Lemma cursor_row_after_return :
  exists s s',
    rounds 80 24 200 (replicate 22 Down ++ [Insert ch_CR])
           (startup 4096 4096 (Contents [102] (concat (replicate 30 [97; 10]))))
      = Done s /\
    (idx s, row s, col s, page s) = (45, 23, 0, 0) /\
    update_display 80 24 200 s = Done s' /\
    (idx s', row s', col s', page s') = (45, 22, 0, 2).
Proof.
  assert (H :
    (s <- rounds 80 24 200 (replicate 22 Down ++ [Insert ch_CR])
            (startup 4096 4096 (Contents [102] (concat (replicate 30 [97; 10])))) ;;
     s' <- update_display 80 24 200 s ;;
     Done ((idx s, row s, col s, page s), (idx s', row s', col s', page s')))
    = Done ((45, 23, 0, 0), (45, 22, 0, 2))).
  { vm_compute. reflexivity. }
  apply bind_done in H as (s & Hs & H).
  apply bind_done in H as (s' & Hs' & H).
  exists s, s'. split; [exact Hs|].
  split; [exact (f_equal (fun o => match o with Done v => fst v | _ => (0, 0, 0, 0) end) H)|].
  split; [exact Hs'|].
  exact (f_equal (fun o => match o with Done v => snd v | _ => (0, 0, 0, 0) end) H).
Qed.

(** ** Navigation returns, inside the document *)

Lemma wf_layout s : wf s -> layout s.
Proof. intros []. unfold layout. auto. Qed.

Lemma ptr_lower s o : layout s -> buf s <= ptr s o.
Proof. intros (H1 & H2 & H3). unfold ptr. zcases; lia. Qed.

Lemma ptr_above_buf s o : buf s < ptr s o -> 0 <= o.
Proof. unfold ptr. zcases; lia. Qed.

Lemma ptr_inside s o :
  layout s -> 0 <= o -> (ptr s o < ebuf s <-> o < doclen s).
Proof. intros (H1 & H2 & H3) Ho. unfold ptr, doclen. zcases; lia. Qed.

Lemma pos_ebuf s : layout s -> pos s (ebuf s) = doclen s.
Proof. intros (H1 & H2 & H3). unfold pos, doclen. zcases; lia. Qed.

Lemma prevline_scan_total fuel : forall s offset,
  layout s -> offset <= doclen s -> (Z.to_nat offset < fuel)%nat ->
  exists o, prevline_scan fuel s offset = Done (o, ptr s o) /\ o < offset.
Proof.
  induction fuel as [|fuel IH]; intros s offset Hl Ho Hf; [lia|].
  simpl. destruct (Z.ltb_spec (buf s) (ptr s (offset - 1))) as [Hlt|Hge].
  - pose proof (ptr_above_buf _ _ Hlt) as H0.
    assert (Hin : ptr s (offset - 1) < ebuf s) by (apply ptr_inside; auto; lia).
    rewrite load_in by lia. cbn [bind].
    destruct (negb (mem s !!! ptr s (offset - 1) =? ch_NL)).
    + destruct (IH s (offset - 1)) as (o & Hrun & Hlo); auto; try lia.
      exists o. split; [exact Hrun|lia].
    + exists (offset - 1). split; [reflexivity|lia].
  - exists (offset - 1). split; [reflexivity|lia].
Qed.

(** [prevline] of an offset not beyond the document, negative ones
    included, returns an offset of the document. *)
Lemma prevline_total fuel s offset :
  layout s -> offset <= doclen s -> (Z.to_nat offset < fuel)%nat ->
  exists r, prevline fuel s offset = Done r /\ 0 <= r /\ (r <= offset \/ r = 0).
Proof.
  intros Hl Ho Hf.
  destruct (prevline_scan_total fuel s offset Hl Ho Hf) as (o & Hrun & Hlo).
  unfold prevline. rewrite Hrun. cbn [bind].
  eexists. split; [reflexivity|].
  destruct (Z.ltb_spec (buf s) (ptr s o)) as [Hlt|Hge]; [|lia].
  pose proof (ptr_above_buf _ _ Hlt). lia.
Qed.

(** The scan of [prevline] reads no byte at or below the start of the
    buffer, whatever the offset and the state: a fault is an address at
    or above [ebuf]. *)
Lemma prevline_scan_fault fuel : forall s offset a,
  prevline_scan fuel s offset = Fault a -> buf s < a /\ ebuf s <= a.
Proof.
  induction fuel as [|fuel IH]; intros s offset a; simpl; [discriminate|].
  destruct (Z.ltb_spec (buf s) (ptr s (offset - 1))) as [Hlt|Hge]; [|discriminate].
  destruct (load s (ptr s (offset - 1))) as [c| |] eqn:E; cbn [bind].
  - destruct (negb (c =? ch_NL)); [apply IH|discriminate].
  - intros H. inversion H; subst. apply load_fault in E as [-> Hout]. lia.
  - discriminate.
Qed.

Lemma prevline_fault fuel s offset a :
  prevline fuel s offset = Fault a -> buf s < a /\ ebuf s <= a.
Proof.
  unfold prevline.
  destruct (prevline_scan fuel s offset) as [[o p]| |] eqn:E; cbn [bind];
    intros H; inversion H; subst.
  eapply prevline_scan_fault; eauto.
Qed.

Lemma nextline_scan_total fuel : forall s offset,
  layout s -> 0 <= offset <= doclen s ->
  (Z.to_nat (doclen s - offset) < fuel)%nat ->
  exists o p, nextline_scan fuel s offset = Done (o, p) /\
              offset < o /\ (p < ebuf s -> o <= doclen s).
Proof.
  induction fuel as [|fuel IH]; intros s offset Hl Ho Hf; [lia|].
  simpl. destruct (Z.ltb_spec (ptr s offset) (ebuf s)) as [Hlt|Hge].
  - assert (Hin : offset < doclen s) by (apply ptr_inside; auto; lia).
    pose proof (ptr_lower s offset Hl).
    rewrite load_in by lia. cbn [bind].
    destruct (negb (mem s !!! ptr s offset =? ch_NL)).
    + destruct (IH s (offset + 1)) as (o & p & Hrun & Hlo & Hhi); auto; try lia.
      exists o, p. split; [exact Hrun|]. split; [lia|exact Hhi].
    + exists (offset + 1), (ptr s offset). split; [reflexivity|lia].
  - exists (offset + 1), (ptr s offset). split; [reflexivity|lia].
Qed.

Lemma nextline_total fuel s offset :
  layout s -> 0 <= offset <= doclen s ->
  (Z.to_nat (doclen s - offset) < fuel)%nat ->
  exists r, nextline fuel s offset = Done r /\ offset <= r <= doclen s.
Proof.
  intros Hl Ho Hf.
  destruct (nextline_scan_total fuel s offset Hl Ho Hf) as (o & p & Hrun & Hlo & Hhi).
  unfold nextline. rewrite Hrun. cbn [bind].
  eexists. split; [reflexivity|].
  destruct (Z.ltb_spec p (ebuf s)) as [Hlt|Hge]; [lia|].
  rewrite pos_ebuf by auto. lia.
Qed.

Lemma adjust_loop_total fuel : forall s column offset i,
  layout s -> 0 <= offset <= doclen s ->
  (Z.to_nat (doclen s - offset) < fuel)%nat ->
  exists r, adjust_loop fuel s column offset i = Done r /\ offset <= r <= doclen s.
Proof.
  induction fuel as [|fuel IH]; intros s column offset i Hl Ho Hf; [lia|].
  simpl. destruct (Z.ltb_spec (ptr s offset) (ebuf s)) as [Hlt|Hge].
  - assert (Hin : offset < doclen s) by (apply ptr_inside; auto; lia).
    pose proof (ptr_lower s offset Hl).
    rewrite load_in by lia. cbn [bind].
    destruct (negb (mem s !!! ptr s offset =? ch_NL) && (i <? column)).
    + destruct (IH s column (offset + 1)
                  (i + (if mem s !!! ptr s offset =? ch_TAB then 8 - Z.land i 7 else 1)))
        as (r & Hrun & Hr); auto; try lia.
      exists r. split; [exact Hrun|lia].
    + exists offset. split; [reflexivity|lia].
  - exists offset. split; [reflexivity|lia].
Qed.

Lemma adjust_total fuel s offset column :
  layout s -> 0 <= offset <= doclen s ->
  (Z.to_nat (doclen s - offset) < fuel)%nat ->
  exists r, adjust fuel s offset column = Done r /\ offset <= r <= doclen s.
Proof. intros. unfold adjust. now apply adjust_loop_total. Qed.

Lemma wf_set_idx s v : layout s -> 0 <= v <= doclen s -> wf (set_idx v s).
Proof. intros (H1 & H2 & H3) Hv. constructor; simpl; auto; unfold doclen in *; simpl; lia. Qed.

Lemma enough_offset s fuel o :
  layout s -> enough s fuel -> o <= doclen s -> (Z.to_nat o < fuel)%nat.
Proof. intros (H1 & H2 & H3). unfold enough, doclen. lia. Qed.

Lemma enough_rest s fuel o :
  layout s -> enough s fuel -> 0 <= o -> (Z.to_nat (doclen s - o) < fuel)%nat.
Proof. intros (H1 & H2 & H3). unfold enough, doclen. lia. Qed.

(** [up] returns and keeps the cursor in the document. *)
Lemma up_total fuel s :
  wf s -> enough s fuel ->
  exists a b c,
    prevline fuel s (idx s) = Done a /\
    prevline fuel s (a - 1) = Done b /\
    adjust fuel s b (col s) = Done c /\
    up fuel s = Done (set_idx c s) /\ 0 <= c <= doclen s.
Proof.
  intros Hwf Hf. pose proof (wf_layout s Hwf) as Hl. destruct Hwf as [_ _ _ H4 H5].
  destruct (prevline_total fuel s (idx s)) as (a & Ha & Ha0 & Ha1); auto.
  { eapply enough_offset; eauto. }
  destruct (prevline_total fuel s (a - 1)) as (b & Hb & Hb0 & Hb1); auto; try lia.
  { eapply enough_offset; eauto. lia. }
  destruct (adjust_total fuel s b (col s)) as (c & Hc & Hc0); auto; try lia.
  { eapply enough_rest; eauto. }
  exists a, b, c. unfold up. rewrite Ha. cbn [bind]. rewrite Hb. cbn [bind].
  rewrite Hc. cbn [bind]. repeat split; auto; lia.
Qed.

Lemma down_total fuel s :
  wf s -> enough s fuel ->
  exists c, down fuel s = Done (set_idx c s) /\ 0 <= c <= doclen s.
Proof.
  intros Hwf Hf. pose proof (wf_layout s Hwf) as Hl. destruct Hwf as [_ _ _ H4 H5].
  destruct (nextline_total fuel s (idx s)) as (a & Ha & Ha0); auto.
  { eapply enough_rest; eauto. }
  destruct (adjust_total fuel s a (col s)) as (c & Hc & Hc0); auto; try lia.
  { eapply enough_rest; eauto. lia. }
  exists c. unfold down. rewrite Ha. cbn [bind]. rewrite Hc. cbn [bind].
  split; auto; lia.
Qed.

(** ** C9: no read below the buffer *)

(** C9.  [ptr] answers every integer offset with an address at or above
    [buf], and [buf] itself for a negative one.  [prevline] reads only
    addresses above [buf]: for whatever offset, a faulting read is
    above the buffer, never below; and for every offset up to the
    document length, the negative ones included, it returns.  So
    [prevline (-1)] is 0 and [up] returns with the cursor in the
    document, also on the first line. *)
Theorem prevline_reads_above_buf (s : state) (fuel : nat) (offset : Z) :
  wf s -> enough s fuel ->
  buf s <= ptr s offset /\
  (offset < 0 -> ptr s offset = buf s) /\
  (forall a, prevline fuel s offset = Fault a -> buf s < a) /\
  (offset <= doclen s -> exists r, prevline fuel s offset = Done r /\ 0 <= r) /\
  prevline fuel s (-1) = Done 0 /\
  (exists a b c,
     prevline fuel s (idx s) = Done a /\
     prevline fuel s (a - 1) = Done b /\
     adjust fuel s b (col s) = Done c /\
     up fuel s = Done (set_idx c s) /\ wf (set_idx c s)).
Proof.
  intros Hwf Hf. pose proof (wf_layout s Hwf) as Hl.
  split; [now apply ptr_lower|].
  split; [intros Hneg; unfold ptr; zcases; lia|].
  split; [intros a Ha; now apply prevline_fault in Ha|].
  split; [|split].
  - intros Ho. destruct (prevline_total fuel s offset) as (r & Hr & Hr0 & _); eauto.
    eapply enough_offset; eauto.
  - destruct (prevline_total fuel s (-1)) as (r & Hr & Hr0 & Hr1); auto.
    + destruct Hwf. unfold doclen. lia.
    + destruct (enough_pos _ _ Hf) as [f ->]. simpl. lia.
    + rewrite Hr. f_equal. lia.
  - destruct (up_total fuel s Hwf Hf) as (a & b & c & Ha & Hb & Hc & Hup & Hr).
    exists a, b, c. repeat split; auto; try (simpl; destruct Hwf; auto; fail).
    all: try (apply wf_set_idx; auto).
Qed.

(** ** The frame: paging, render pass, line number *)

Lemma get_lineno_loop_total fuel : forall s i,
  buf s <= ebuf s -> 0 <= i -> idx s <= ebuf s - buf s ->
  (Z.to_nat (idx s - i) < fuel)%nat ->
  exists n, get_lineno_loop fuel s i = Done (set_line n s).
Proof.
  induction fuel as [|fuel IH]; intros s i Hb Hi Hx Hf; [lia|].
  simpl. destruct (Z.ltb_spec i (idx s)) as [Hlt|Hge].
  - rewrite load_in by lia. cbn [bind].
    destruct (mem s !!! (buf s + i) =? ch_NL).
    + destruct (IH (set_line (line s + 1) s) (i + 1)) as (n & Hn); simpl; try lia.
      exists n. rewrite Hn. state_eq.
    + destruct (IH s (i + 1)) as (n & Hn); try lia. eauto.
  - exists (line s). state_eq.
Qed.

Lemma get_lineno_total fuel s :
  wf s -> enough s fuel -> exists n, get_lineno fuel s = Done (set_line n s).
Proof.
  intros [H1 H2 H3 H4 H5] Hf. unfold doclen in H5. unfold enough in Hf.
  unfold get_lineno.
  destruct (get_lineno_loop_total fuel (set_line 1 s) 0) as (n & Hn); simpl; try lia.
  exists n. rewrite Hn. state_eq.
Qed.

Section Grid.

Variables COL_MAX ROW_MAX : Z.

(** A store inside the grid. *)
Lemma put_in scr i j c :
  0 <= i < ROW_MAX - 1 -> 0 <= j < COL_MAX ->
  put COL_MAX ROW_MAX scr i j c = Done (<[i * COL_MAX + j := c]> scr).
Proof.
  intros Hi Hj. unfold put.
  destruct (Z.leb_spec 0 i); [|lia]. destruct (Z.ltb_spec i (ROW_MAX - 1)); [|lia].
  destruct (Z.leb_spec 0 j); [|lia]. destruct (Z.ltb_spec j COL_MAX); [|lia].
  reflexivity.
Qed.

(** The spaces of a tab that end inside the row. *)
Lemma fill_in k : forall scr i j,
  0 <= i < ROW_MAX - 1 -> 0 <= j -> j + Z.of_nat k <= COL_MAX ->
  exists scr', fill COL_MAX ROW_MAX k scr i j = Done (scr', j + Z.of_nat k).
Proof.
  induction k as [|k IH]; intros scr i j Hi Hj Hk; cbn [fill].
  - exists scr. do 2 f_equal. lia.
  - rewrite put_in by lia. cbn [bind].
    destruct (IH (<[i * COL_MAX + j := ch_SPACE]> scr) i (j + 1)) as (scr' & Hrun);
      try lia.
    exists scr'. rewrite Hrun. do 2 f_equal. lia.
Qed.

(** The column behind the spaces of a tab. *)
Lemma fill_result k : forall scr i j scr' j',
  fill COL_MAX ROW_MAX k scr i j = Done (scr', j') -> j' = j + Z.of_nat k.
Proof.
  induction k as [|k IH]; intros scr i j scr' j' H; cbn [fill] in H.
  - injection H as _ <-. lia.
  - apply bind_done in H as (scr1 & _ & H). apply IH in H. lia.
Qed.

(** The blanking loops stay inside the grid. *)
Lemma clear_row_done i : forall (cols : list Z) scr,
  0 <= i < ROW_MAX - 1 -> Forall (fun j => 0 <= j < COL_MAX) cols ->
  for_each (fun scr j => put COL_MAX ROW_MAX scr i j ch_SPACE) scr cols
    = Done (foldl (fun scr j => <[i * COL_MAX + j := ch_SPACE]> scr) scr cols).
Proof.
  induction cols as [|j cols IH]; intros scr Hi Hcols; [reflexivity|].
  inversion Hcols as [|? ? Hj Hrest]; subst.
  cbn [for_each foldl]. rewrite put_in by lia. cbn [bind]. now apply IH.
Qed.

Lemma clear_screen_done scr :
  clear_screen COL_MAX ROW_MAX scr = Done (blank COL_MAX ROW_MAX scr).
Proof.
  unfold clear_screen, blank.
  assert (Hcols : Forall (fun j => 0 <= j < COL_MAX) (seqZ 0 COL_MAX))
    by (apply Forall_seqZ; intros; lia).
  assert (Hrows : Forall (fun i => 0 <= i < ROW_MAX - 1) (seqZ 0 (ROW_MAX - 1)))
    by (apply Forall_seqZ; intros; lia).
  revert scr. induction Hrows as [|i rows Hi _ IH]; intros scr; [reflexivity|].
  cbn [for_each foldl]. rewrite clear_row_done by auto. cbn [bind]. apply IH.
Qed.

End Grid.

Section Frame.

Variables COL_MAX ROW_MAX : Z.
Hypothesis Hcol : 16 <= COL_MAX.
Hypothesis Hrow : 2 <= ROW_MAX.
Hypothesis Hdiv : COL_MAX `mod` 8 = 0.

(** The column a tab reaches is inside a row whose width is a multiple
    of 8. *)
Lemma tab_inside j :
  0 <= j < COL_MAX -> j + Z.of_nat (Z.to_nat (8 - Z.land j 7)) <= COL_MAX.
Proof.
  intros Hj. change 7 with (Z.ones 3). rewrite Z.land_ones by lia.
  change (2 ^ 3) with 8.
  pose proof (Z.div_mod j 8 ltac:(lia)). pose proof (Z.mod_pos_bound j 8 ltac:(lia)).
  pose proof (Z.div_mod COL_MAX 8 ltac:(lia)). lia.
Qed.

(** The render pass from offset [epage s] on, the counters at [(i, j)].
    [E0] is the offset the pass started at. *)
Lemma render_spec (E0 : Z) fuel : forall s i j,
  layout s -> 0 <= epage s <= doclen s ->
  (Z.to_nat (doclen s - epage s) < fuel)%nat ->
  0 <= i <= ROW_MAX - 1 -> 0 <= j < COL_MAX ->
  0 <= row s <= ROW_MAX - 1 -> 0 <= col s < COL_MAX ->
  (E0 <= idx s < epage s -> row s < ROW_MAX - 1) ->
  exists e scr r c,
    render COL_MAX ROW_MAX fuel s i j
      = Done (set_epage e (set_screen scr (set_row r (set_col c s)))) /\
    epage s <= e <= doclen s /\
    0 <= r <= ROW_MAX - 1 /\ 0 <= c < COL_MAX /\
    (E0 <= idx s < e -> r < ROW_MAX - 1).
Proof.
  induction fuel as [|fuel IH]; intros s i j Hl He Hf Hi Hj Hr Hc HQ; [lia|].
  cbn [render].
  set (s1 := if idx s =? epage s then set_col j (set_row i s) else s).
  assert (Hs1 : exists r1 c1,
             s1 = set_row r1 (set_col c1 s) /\
             0 <= r1 <= ROW_MAX - 1 /\ 0 <= c1 < COL_MAX /\
             (idx s = epage s -> r1 = i) /\
             (E0 <= idx s < epage s -> r1 < ROW_MAX - 1)).
  { subst s1. destruct (Z.eqb_spec (idx s) (epage s)) as [Heq|Hne].
    - exists i, j. split; [reflexivity|]. repeat split; auto; lia.
    - exists (row s), (col s). split; [state_eq|]. repeat split; auto; lia. }
  destruct Hs1 as (r1 & c1 & -> & Hr1 & Hc1 & Hrec & HQ1). simpl.
  destruct (Z.leb_spec (ROW_MAX - 1) i) as [Hfull|Hroom]; cbn [orb].
  { exists (epage s), (screen s), r1, c1. split; [state_eq|]. repeat split; auto; lia. }
  assert (Hptr : ptr (set_row r1 (set_col c1 s)) (epage s) = ptr s (epage s))
    by reflexivity.
  rewrite Hptr.
  destruct (Z.leb_spec (ebuf s) (ptr s (epage s))) as [Hend|Hin].
  { exists (epage s), (screen s), r1, c1. split; [state_eq|]. repeat split; auto; lia. }
  assert (Hlt : epage s < doclen s) by (apply ptr_inside; auto; lia).
  pose proof (ptr_lower s (epage s) Hl) as Hlow.
  rewrite load_in by (simpl; lia). cbn [bind]. simpl mem.
  set (ch := mem s !!! ptr s (epage s)).
  set (cell := if negb (ch =? ch_CR) then _ else _).
  assert (Hcell : exists scr j1, cell = Done (scr, j1) /\ j <= j1).
  { subst cell. destruct (negb (ch =? ch_CR)); [|eexists _, _; split; [reflexivity|lia]].
    destruct (ch =? ch_NL).
    { rewrite put_in by lia. eexists _, _. split; [reflexivity|lia]. }
    destruct (ch =? ch_TAB).
    { destruct (fill_in COL_MAX ROW_MAX (Z.to_nat (8 - Z.land j 7)) (screen s) i j)
        as (scr' & Hrun);
        try lia.
      { apply tab_inside. lia. }
      eexists _, _. split; [exact Hrun|lia]. }
    rewrite put_in by lia. eexists _, _. split; [reflexivity|lia]. }
  destruct Hcell as (scr & j1 & -> & Hcell). cbn [bind].
  set (next := if (ch =? ch_NL) || (COL_MAX <=? j1) then _ else _).
  assert (Hnext : 0 <= fst next <= ROW_MAX - 1 /\ 0 <= snd next < COL_MAX).
  { subst next. destruct (ch =? ch_NL); simpl; [lia|].
    destruct (Z.leb_spec COL_MAX j1); simpl; lia. }
  destruct next as [i2 j2]. simpl in Hnext.
  assert (HQ2 : E0 <= idx s < epage s + 1 -> r1 < ROW_MAX - 1).
  { intros Hq. destruct (decide (idx s = epage s)) as [Heq|Hne].
    - rewrite Hrec by auto. lia.
    - apply HQ1. lia. }
  destruct (IH (set_epage (epage s + 1) (set_screen scr (set_row r1 (set_col c1 s))))
               i2 j2) as (e & scr' & r & c & Hrun & Hbe & Hbr & Hbc & HQ');
    try (simpl; unfold doclen in *; simpl; lia); auto.
  exists e, scr', r, c. split; [rewrite Hrun; state_eq|].
  simpl in *. unfold doclen in *. simpl in *. repeat split; auto; lia.
Qed.

Lemma page_back_total fuel s : forall n pg,
  layout s -> enough s fuel -> 0 <= pg <= doclen s ->
  exists r, page_back fuel s n pg = Done r /\ 0 <= r <= doclen s.
Proof.
  induction n as [|n IH]; intros pg Hl Hf Hp; simpl.
  - eauto.
  - destruct (prevline_total fuel s (pg - 1)) as (r & Hr & Hr0 & Hr1); auto; try lia.
    { eapply enough_offset; eauto. lia. }
    rewrite Hr. cbn [bind]. apply IH; auto. lia.
Qed.

(** [update_display] returns; it changes the screen, the page, the
    cursor cell and the line number only. *)
Lemma update_display_spec fuel s :
  wf s -> cell_ok COL_MAX ROW_MAX s -> enough s fuel ->
  exists pg e scr r c n,
    update_display COL_MAX ROW_MAX fuel s
      = Done (set_line n (set_epage e (set_screen scr
                (set_row r (set_col c (set_page pg s)))))) /\
    0 <= pg <= e /\ e <= doclen s /\
    0 <= r <= ROW_MAX - 1 /\ 0 <= c < COL_MAX /\
    (pg <= idx s < e -> r < ROW_MAX - 1).
Proof.
  intros Hwf (Hr & Hc & Hp) Hf. pose proof (wf_layout s Hwf) as Hl.
  pose proof Hwf as [_ _ _ Hi0 Hi1].
  unfold update_display. rewrite clear_screen_done. cbn [bind].
  set (s0 := set_screen (blank COL_MAX ROW_MAX (screen s)) s).
  assert (Hl0 : layout s0) by exact Hl.
  assert (Hf0 : enough s0 fuel) by exact Hf.
  assert (H1 : exists pg1,
    (if idx s0 <? page s0
     then pg <- prevline fuel s0 (idx s0) ;; Done (set_page pg s0)
     else Done s0) = Done (set_page pg1 s0) /\ 0 <= pg1 <= doclen s).
  { destruct (Z.ltb_spec (idx s0) (page s0)) as [Hlt|Hge].
    - destruct (prevline_total fuel s0 (idx s0)) as (r & Hrun & Hr0 & Hr1); auto.
      { eapply enough_offset; eauto. }
      rewrite Hrun. cbn [bind]. exists r. split; [reflexivity|].
      change (idx s0) with (idx s) in Hr1. lia.
    - exists (page s0). split; [state_eq|].
      change (page s0) with (page s) in *. change (idx s0) with (idx s) in *. lia. }
  destruct H1 as (pg1 & -> & Hpg1). cbn [bind].
  set (s1 := set_page pg1 s0).
  assert (Hl1 : layout s1) by exact Hl.
  assert (Hf1 : enough s1 fuel) by exact Hf.
  assert (H2 : exists pg2,
    (if epage s1 <=? idx s1
     then pg <- nextline fuel s1 (idx s1) ;;
          pg' <- page_back fuel s1
                   (Z.to_nat (if pg =? pos s1 (ebuf s1) then ROW_MAX - 3 else ROW_MAX - 1))
                   pg ;;
          Done (set_page pg' s1)
     else Done s1) = Done (set_page pg2 s1) /\ 0 <= pg2 <= doclen s).
  { destruct (Z.leb_spec (epage s1) (idx s1)) as [Hle|Hgt].
    - destruct (nextline_total fuel s1 (idx s1)) as (a & Hrun & Ha); auto.
      { eapply enough_rest; eauto. }
      rewrite Hrun. cbn [bind].
      destruct (page_back_total fuel s1
                  (Z.to_nat (if a =? pos s1 (ebuf s1) then ROW_MAX - 3 else ROW_MAX - 1))
                  a) as (b & Hb & Hb0); auto.
      { change (idx s1) with (idx s) in Ha. change (doclen s1) with (doclen s) in *. lia. }
      rewrite Hb. cbn [bind]. exists b. split; [reflexivity|exact Hb0].
    - exists pg1. split; [state_eq|exact Hpg1]. }
  destruct H2 as (pg2 & -> & Hpg2). cbn [bind].
  set (s2 := set_page pg2 s1).
  destruct (render_spec pg2 fuel (set_epage (page s2) s2) 0 0)
    as (e & scr & r & c & Hrun & He & Hr' & Hc' & HQ);
    try (simpl; unfold doclen in *; simpl; lia); auto.
  { simpl. eapply enough_rest; eauto. lia. }
  rewrite Hrun. cbn [bind].
  set (s3 := set_epage e _).
  destruct (get_lineno_total fuel s3) as (n & Hn); auto.
  { subst s3 s2 s1 s0. destruct Hwf. constructor; simpl; auto. }
  rewrite Hn. exists pg2, e, scr, r, c, n.
  split; [subst s3 s2 s1 s0; state_eq|].
  clear Hn Hrun. subst s3 s2 s1 s0. unfold doclen in *. simpl in *.
  repeat split; auto; lia.
Qed.

End Frame.

(** ** What the edit primitive leaves alone *)

Lemma store_untouched s p c s' : store s p c = Done s' -> untouched s' = untouched s.
Proof.
  unfold store. destruct (in_buffer s p); intros H; inversion H. reflexivity.
Qed.

Lemma movegap_down_untouched fuel : forall p s s',
  movegap_down fuel p s = Done s' -> untouched s' = untouched s.
Proof.
  induction fuel as [|fuel IH]; intros p s s'; simpl; [discriminate|].
  destruct (p <? gap s); [|intros H; now inversion H].
  intros H. apply bind_done in H as (c & _ & H).
  apply bind_done in H as (s3 & Hst & H).
  apply IH in H. apply store_untouched in Hst. rewrite H, Hst. reflexivity.
Qed.

Lemma movegap_up_untouched fuel : forall p s s',
  movegap_up fuel p s = Done s' -> untouched s' = untouched s.
Proof.
  induction fuel as [|fuel IH]; intros p s s'; simpl; [discriminate|].
  destruct (egap s <? p); [|intros H; now inversion H].
  intros H. apply bind_done in H as (c & _ & H).
  apply bind_done in H as (s3 & Hst & H).
  apply IH in H. apply store_untouched in Hst. rewrite H. simpl. exact Hst.
Qed.

Lemma movegap_untouched fuel s s' :
  movegap fuel s = Done s' -> untouched s' = untouched s.
Proof.
  unfold movegap. intros H.
  apply bind_done in H as (s1 & H1 & H).
  apply bind_done in H as (s2 & H2 & H).
  inversion H. apply movegap_down_untouched in H1. apply movegap_up_untouched in H2.
  transitivity (untouched s2); [reflexivity|]. congruence.
Qed.

(** [insert] assigns nothing but the gap, the buffer and the cursor:
    in particular it never assigns [dirty]. *)
Lemma insert_untouched fuel ch s s' :
  insert fuel ch s = Done s' -> untouched s' = untouched s.
Proof.
  unfold insert. intros H.
  apply bind_done in H as (s1 & H1 & H).
  apply bind_done in H as (s2 & H2 & H).
  inversion H. apply movegap_untouched in H1.
  assert (Hmid : untouched s2 = untouched s1).
  { destruct ((ch =? ch_BS) || (ch =? ch_DEL)).
    - inversion H2. destruct (buf s1 <? gap s1); reflexivity.
    - destruct (gap s1 <? egap s1).
      + apply bind_done in H2 as (s3 & Hst & H2). inversion H2.
        apply store_untouched in Hst. exact Hst.
      + now inversion H2. }
  transitivity (untouched s2); [reflexivity|]. congruence.
Qed.

(** ** Every command keeps the state well formed *)

Lemma insert_wf fuel ch s :
  wf s -> enough s fuel ->
  exists s', insert fuel ch s = Done s' /\ wf s' /\ untouched s' = untouched s.
Proof.
  intros Hwf Hf.
  assert (H : exists s', insert fuel ch s = Done s' /\ wf s').
  { destruct (decide (ch = ch_BS \/ ch = ch_DEL)) as [Hch|Hch].
    - destruct (insert_delete s fuel ch Hwf Hf Hch) as (s' & Hrun & Hwf' & _). eauto.
    - assert (ch <> ch_BS /\ ch <> ch_DEL) as [Hbs Hdel] by tauto.
      destruct (decide (doclen s < ebuf s - buf s)) as [Hroom|Hroom].
      + destruct (insert_store s fuel ch Hwf Hf Hbs Hdel Hroom) as (s' & Hrun & Hwf' & _).
        eauto.
      + assert (Hfull : doclen s = ebuf s - buf s)
          by (destruct Hwf; unfold doclen in *; lia).
        destruct (insert_full s fuel ch Hwf Hf Hbs Hdel Hfull) as (s' & Hrun & Hwf' & _).
        eauto. }
  destruct H as (s' & Hrun & Hwf'). exists s'. split; [exact Hrun|]. split; [exact Hwf'|].
  eapply insert_untouched; eauto.
Qed.

(** The path of [save_file] that writes: the gap goes to the start of
    the buffer, what is written is the document, the cursor is put
    back and [dirty] is cleared. *)
Lemma save_path fuel s :
  wf s -> enough s fuel ->
  exists s1,
    movegap fuel (set_idx 0 s) = Done s1 /\
    bytes (mem s1) (egap s1) (ebuf s1 - egap s1) = document s /\
    wf (set_dirty 0 (set_idx (idx s) s1)) /\
    document (set_dirty 0 (set_idx (idx s) s1)) = document s /\
    untouched s1 = untouched s.
Proof.
  intros Hwf Hf. pose proof (wf_layout s Hwf) as (H1 & H2 & H3).
  assert (Hwf0 : wf (set_idx 0 s)).
  { apply wf_set_idx; [split; auto|]. unfold doclen. lia. }
  destruct (movegap_spec (set_idx 0 s) fuel Hwf0 Hf) as (s1 & Hrun & Hfr & Hg & Hsz & Hdoc).
  destruct (movegap_frame _ _ Hfr) as (Hb & He & _).
  simpl in *. exists s1. split; [exact Hrun|].
  assert (Hd : document s1 = bytes (mem s1) (egap s1) (ebuf s1 - egap s1)).
  { unfold document. replace (gap s1 - buf s1) with 0 by lia. reflexivity. }
  split; [rewrite <- Hd; exact Hdoc|].
  split; [|split].
  - destruct Hwf. constructor; simpl; unfold doclen in *; simpl; lia.
  - exact Hdoc.
  - apply movegap_untouched in Hrun. exact Hrun.
Qed.

Lemma save_file_spec fuel typed ok s :
  wf s -> enough s fuel ->
  exists s' out,
    save_file fuel typed ok s = Done (s', out) /\
    wf s' /\ buf s' = buf s /\ ebuf s' = ebuf s /\
    (row s', col s', page s') = (row s, col s, page s) /\
    idx s' = idx s /\ document s' = document s /\
    match out with
    | Some l => l = document s /\ dirty s' = 0
    | None => dirty s' = dirty s
    end.
Proof.
  intros Hwf Hf. unfold save_file.
  assert (Hnamed : forall s0 : state,
            wf s0 -> enough s0 fuel -> ok = true ->
            exists s' out,
              (s1 <- movegap fuel (set_idx 0 s0) ;;
               Done (set_dirty 0 (set_idx (idx s0) s1),
                     Some (bytes (mem s1) (egap s1) (ebuf s1 - egap s1))))
                = Done (s', out) /\
              wf s' /\ buf s' = buf s0 /\ ebuf s' = ebuf s0 /\
              (row s', col s', page s') = (row s0, col s0, page s0) /\
              idx s' = idx s0 /\ document s' = document s0 /\
              match out with
              | Some l => l = document s0 /\ dirty s' = 0
              | None => dirty s' = dirty s0
              end).
  { intros s0 Hwf0 Hf0 Hok.
    destruct (save_path fuel s0 Hwf0 Hf0) as (s1 & Hrun & Hout & Hwf1 & Hdoc & Hun).
    rewrite Hrun. cbn [bind]. eexists _, _. split; [reflexivity|].
    unfold untouched in Hun. injection Hun as Hb He _ _ Hc Hr _ Hp _ _.
    split; [exact Hwf1|]. split; [exact Hb|]. split; [exact He|].
    split; [simpl; congruence|]. split; [reflexivity|]. split; [exact Hdoc|].
    split; [exact Hout|reflexivity]. }
  assert (Hquiet : forall s0 : state,
            wf s0 ->
            wf s0 /\ buf s0 = buf s0 /\ ebuf s0 = ebuf s0 /\
            (row s0, col s0, page s0) = (row s0, col s0, page s0) /\
            idx s0 = idx s0 /\ document s0 = document s0 /\ dirty s0 = dirty s0)
    by (intros; split; [assumption|repeat split]).
  assert (Hset : forall v, wf (set_filename v s))
    by (intros v; destruct Hwf; constructor; auto).
  destruct (filename s) as [nm|] eqn:Hname.
  - rewrite Hname. destruct ok; simpl negb; cbv iota.
    + apply Hnamed; auto.
    + exists s, None. split; [reflexivity|]. apply Hquiet, Hwf.
  - destruct typed as [nm|]; simpl filename; cbv iota.
    + destruct ok; simpl negb; cbv iota.
      * destruct (Hnamed (set_filename (Some nm) s)) as (s' & out & Hrun & Hrest); auto.
        exists s', out. split; [exact Hrun|exact Hrest].
      * exists (set_filename (Some nm) s), None. split; [reflexivity|].
        apply (Hquiet (set_filename (Some nm) s)), Hset.
    + exists (set_filename None s), None. split; [reflexivity|].
      apply (Hquiet (set_filename None s)), Hset.
Qed.

(** ** The states the program reaches *)

Section Reach.

Variables COL_MAX ROW_MAX : Z.
Hypothesis Hcol : 16 <= COL_MAX.
Hypothesis Hrow : 2 <= ROW_MAX.

Lemma startup_ok base BUF arg : 0 <= BUF -> steady COL_MAX ROW_MAX (startup base BUF arg).
Proof.
  intros HB. unfold steady, cell_ok, startup.
  pose proof (length_take (match arg with Contents _ data => data | _ => [] end)
                (Z.to_nat BUF)) as Hlen.
  destruct arg as [|nm|nm|nm data]; simpl in *;
    repeat match goal with
      | |- context [?a <? ?b] => destruct (Z.ltb_spec a b)
      end;
    (split; [constructor|]); cbv [doclen init_buf]; simpl; lia.
Qed.

(** What a render pass that returns has changed: the screen, [epage]
    and the cursor cell, which is in range. *)
Lemma render_kept fuel : forall s i j s',
  0 <= i <= ROW_MAX - 1 -> 0 <= j < COL_MAX ->
  0 <= row s <= ROW_MAX - 1 -> 0 <= col s < COL_MAX ->
  render COL_MAX ROW_MAX fuel s i j = Done s' ->
  text s' = text s /\ page s' = page s /\
  0 <= row s' <= ROW_MAX - 1 /\ 0 <= col s' < COL_MAX.
Proof.
  induction fuel as [|fuel IH]; intros s i j s' Hi Hj Hr Hc H; [discriminate|].
  cbn [render] in H.
  set (s1 := if idx s =? epage s then set_col j (set_row i s) else s) in *.
  assert (Hs1 : text s1 = text s /\ page s1 = page s /\
                0 <= row s1 <= ROW_MAX - 1 /\ 0 <= col s1 < COL_MAX).
  { subst s1. destruct (idx s =? epage s); simpl; auto. }
  destruct Hs1 as (Ht1 & Hp1 & Hr1 & Hc1).
  destruct (Z.leb_spec (ROW_MAX - 1) i) as [Hfull|Hroom]; cbn [orb] in H.
  { injection H as <-. auto. }
  destruct (ebuf s1 <=? ptr s1 (epage s1)).
  { injection H as <-. auto. }
  apply bind_done in H as (c & _ & H).
  apply bind_done in H as ([scr j1] & Hcell & H).
  assert (Hj1 : j <= j1).
  { destruct (negb (c =? ch_CR)); [|injection Hcell as _ <-; lia].
    destruct (c =? ch_NL).
    { apply bind_done in Hcell as (scr1 & _ & Hcell). injection Hcell as _ <-. lia. }
    destruct (c =? ch_TAB).
    { apply fill_result in Hcell. lia. }
    apply bind_done in Hcell as (scr1 & _ & Hcell). injection Hcell as _ <-. lia. }
  set (next := if (c =? ch_NL) || (COL_MAX <=? j1) then (i + 1, 0) else (i, j1)) in *.
  assert (Hnext : 0 <= fst next <= ROW_MAX - 1 /\ 0 <= snd next < COL_MAX).
  { subst next. destruct (c =? ch_NL); simpl; [lia|].
    destruct (Z.leb_spec COL_MAX j1); simpl; lia. }
  destruct next as [i2 j2]. simpl in Hnext.
  apply IH in H; try (simpl; lia).
  destruct H as (Ht & Hp & Hr' & Hc'). simpl in Ht, Hp.
  split; [now rewrite Ht|]. split; [now rewrite Hp|]. auto.
Qed.

(** A frame that returns leaves a state of a run, at every width. *)
Lemma update_display_ok fuel s s' :
  steady COL_MAX ROW_MAX s -> enough s fuel ->
  update_display COL_MAX ROW_MAX fuel s = Done s' ->
  steady COL_MAX ROW_MAX s' /\ buf s' = buf s /\ ebuf s' = ebuf s.
Proof.
  intros [Hwf (Hr & Hc & Hp)] Hf Hrun. pose proof (wf_layout s Hwf) as Hl.
  pose proof Hwf as [_ _ _ Hi0 Hi1].
  unfold update_display in Hrun.
  apply bind_done in Hrun as (scr0 & _ & Hrun).
  apply bind_done in Hrun as (s1 & H1 & Hrun).
  apply bind_done in Hrun as (s2 & H2 & Hrun).
  apply bind_done in Hrun as (s3 & H3 & Hrun).
  set (s0 := set_screen scr0 s) in *.
  assert (Hl0 : layout s0) by exact Hl.
  assert (Hf0 : enough s0 fuel) by exact Hf.
  assert (E1 : exists pg1, s1 = set_page pg1 s0 /\ 0 <= pg1).
  { destruct (Z.ltb_spec (idx s0) (page s0)) as [Hlt|Hge].
    - destruct (prevline_total fuel s0 (idx s0)) as (r & Hrun1 & Hr0 & Hr1); auto.
      { eapply enough_offset; eauto. }
      rewrite Hrun1 in H1. cbn [bind] in H1. injection H1 as <-. eauto.
    - injection H1 as <-. exists (page s0). split; [subst s0; destruct s; reflexivity|exact Hp]. }
  destruct E1 as (pg1 & -> & Hpg1).
  set (s1 := set_page pg1 s0) in *.
  assert (Hl1 : layout s1) by exact Hl.
  assert (Hf1 : enough s1 fuel) by exact Hf.
  assert (E2 : exists pg2, s2 = set_page pg2 s1 /\ 0 <= pg2).
  { destruct (Z.leb_spec (epage s1) (idx s1)) as [Hle|Hgt].
    - destruct (nextline_total fuel s1 (idx s1)) as (a & Hrun1 & Ha); auto.
      { eapply enough_rest; eauto. }
      rewrite Hrun1 in H2. cbn [bind] in H2.
      destruct (page_back_total fuel s1
                  (Z.to_nat (if a =? pos s1 (ebuf s1) then ROW_MAX - 3 else ROW_MAX - 1))
                  a) as (b & Hb & Hb0); auto.
      { change (idx s1) with (idx s) in Ha. change (doclen s1) with (doclen s) in *. lia. }
      rewrite Hb in H2. cbn [bind] in H2. injection H2 as <-.
      exists b. split; [reflexivity|lia].
    - injection H2 as <-. exists pg1. split; [reflexivity|exact Hpg1]. }
  destruct E2 as (pg2 & -> & Hpg2).
  apply render_kept in H3; try (simpl; lia).
  destruct H3 as (Ht & Hpage & Hrw & Hcolumn). simpl in Ht, Hpage.
  assert (Htx : text s3 = text s) by (rewrite Ht; reflexivity).
  unfold text in Htx. injection Htx as Tb Te Tg Teg _ Ti _ _.
  destruct (get_lineno_total fuel s3) as (n & Hn).
  { destruct Hwf. constructor; unfold doclen in *; lia. }
  { unfold enough in *. rewrite Te, Tb. exact Hf. }
  rewrite Hn in Hrun. injection Hrun as <-.
  split; [|simpl; auto]. split.
  - destruct Hwf. constructor; unfold doclen in *; simpl; lia.
  - unfold cell_ok. simpl. lia.
Qed.

Lemma dispatch_ok fuel c s s' :
  steady COL_MAX ROW_MAX s -> enough s fuel ->
  dispatch COL_MAX ROW_MAX fuel c s = Done s' ->
  steady COL_MAX ROW_MAX s' /\ buf s' = buf s /\ ebuf s' = ebuf s.
Proof.
  intros [Hwf Hcell] Hf. pose proof (wf_layout s Hwf) as Hl.
  pose proof Hwf as [_ _ _ Hi0 Hi1].
  assert (Hmove : forall v, 0 <= v <= doclen s ->
                    steady COL_MAX ROW_MAX (set_idx v s) /\ buf (set_idx v s) = buf s
                    /\ ebuf (set_idx v s) = ebuf s).
  { intros v Hv. split; [|auto]. split; [apply wf_set_idx; auto|exact Hcell]. }
  destruct c as [| | | | |typed open_ok| |ch]; simpl.
  - intros H. inversion H. unfold right. rewrite pos_ebuf by auto.
    destruct (Z.ltb_spec (idx s) (doclen s)); [apply Hmove; lia|now split].
  - destruct (up_total fuel s Hwf Hf) as (a & b & v & _ & _ & _ & Hup & Hv).
    rewrite Hup. intros H. inversion H. now apply Hmove.
  - apply update_display_ok; [split; auto|auto].
  - intros H. inversion H. unfold left.
    destruct (Z.ltb_spec 0 (idx s)); [apply Hmove; lia|now split].
  - destruct (down_total fuel s Hwf Hf) as (v & Hdown & Hv).
    rewrite Hdown. intros H. inversion H. now apply Hmove.
  - destruct (save_file_spec fuel typed open_ok s Hwf Hf)
      as (s1 & out & Hrun & Hwf1 & Hb & He & Hcell1 & _).
    rewrite Hrun. cbn [bind]. simpl. intros H. inversion H. subst s1.
    split; [|auto]. split; [exact Hwf1|].
    unfold cell_ok in *. injection Hcell1 as -> -> ->. exact Hcell.
  - intros H. inversion H. subst. now split.
  - destruct (insert_wf fuel ch s Hwf Hf) as (s1 & Hrun & Hwf1 & Hun).
    rewrite Hrun. intros H. inversion H. subst s1.
    unfold untouched in Hun. injection Hun as Hb He _ _ Hc Hr _ Hp _ _.
    split; [|auto]. split; [exact Hwf1|].
    unfold cell_ok in *. rewrite Hc, Hr, Hp. exact Hcell.
Qed.

(** Every state of a run is well formed, and its cursor cell and page
    start are those a frame may be entered with. *)
Lemma reachable_ok s : reachable COL_MAX ROW_MAX s -> steady COL_MAX ROW_MAX s.
Proof.
  induction 1 as [base BUF arg HB | s fuel s' _ IH Hf Hrun | s fuel c s' _ IH Hf Hrun].
  - now apply startup_ok.
  - eapply update_display_ok; eauto.
  - eapply dispatch_ok; eauto.
Qed.

Hypothesis Hdiv : COL_MAX `mod` 8 = 0.

(** X25.  The cell a frame records.  At a width that is a multiple of
    8, a frame entered with a well-formed state and a cell of an
    earlier frame (or the initial one) returns and leaves a cell with
    [0 <= row <= ROW_MAX - 1] and [0 <= col < COL_MAX]: the row may be
    the one below the [ROW_MAX - 1] rows of the grid.  It is a row of
    the grid, [row < ROW_MAX - 1], whenever the cursor's byte was drawn
    by the pass, that is when [page <= idx < epage] after it. *)
Theorem cursor_cell_after_frame (s : state) (fuel : nat) :
  wf s -> cell_ok COL_MAX ROW_MAX s -> enough s fuel ->
  exists s',
    update_display COL_MAX ROW_MAX fuel s = Done s' /\
    0 <= row s' <= ROW_MAX - 1 /\
    0 <= col s' < COL_MAX /\
    (page s' <= idx s' < epage s' -> row s' < ROW_MAX - 1).
Proof.
  intros Hwf Hcell Hf.
  destruct (update_display_spec COL_MAX ROW_MAX Hcol Hrow Hdiv fuel s Hwf Hcell Hf)
    as (pg & e & scr & r & c & n & Hrun & Hpg & He & Hr & Hc & HQ).
  eexists. split; [exact Hrun|]. simpl. auto.
Qed.

End Reach.

(** ** A result does not depend on the step budget *)

Lemma stable_const {A : Type} (o : outcome A) : stable (fun _ => o).
Proof. intros n m r H _. exact H. Qed.

Lemma stable_bind {A B : Type} (f : nat -> outcome A) (g : A -> nat -> outcome B) :
  stable f -> (forall a, stable (g a)) -> stable (fun n => x <- f n ;; g x n).
Proof.
  intros Hf Hg n m r H Hle. apply bind_done in H as (a & Ha & H).
  rewrite (Hf n m a Ha Hle). cbn [bind]. exact (Hg a n m r H Hle).
Qed.

Lemma movegap_down_stable p s : stable (fun n => movegap_down n p s).
Proof.
  intros n. revert s. induction n as [|n IH]; intros s m r H Hle; [discriminate|].
  destruct m as [|m]; [lia|]. simpl in *.
  destruct (p <? gap s); [|exact H].
  apply bind_done in H as (c & Hc & H). rewrite Hc. cbn [bind].
  apply bind_done in H as (s3 & Hs & H). rewrite Hs. cbn [bind].
  apply (IH _ m r H). lia.
Qed.

Lemma movegap_up_stable p s : stable (fun n => movegap_up n p s).
Proof.
  intros n. revert s. induction n as [|n IH]; intros s m r H Hle; [discriminate|].
  destruct m as [|m]; [lia|]. simpl in *.
  destruct (egap s <? p); [|exact H].
  apply bind_done in H as (c & Hc & H). rewrite Hc. cbn [bind].
  apply bind_done in H as (s3 & Hs & H). rewrite Hs. cbn [bind].
  apply (IH _ m r H). lia.
Qed.

Lemma movegap_stable s : stable (fun n => movegap n s).
Proof.
  unfold movegap. apply stable_bind; [apply movegap_down_stable|].
  intros s1. apply stable_bind; [apply movegap_up_stable|].
  intros s2. apply stable_const.
Qed.

Lemma prevline_scan_stable s offset : stable (fun n => prevline_scan n s offset).
Proof.
  intros n. revert offset. induction n as [|n IH]; intros offset m r H Hle; [discriminate|].
  destruct m as [|m]; [lia|]. simpl in *.
  destruct (buf s <? ptr s (offset - 1)); [|exact H].
  apply bind_done in H as (c & Hc & H). rewrite Hc. cbn [bind].
  destruct (negb (c =? ch_NL)); [|exact H].
  apply (IH _ m r H). lia.
Qed.

Lemma prevline_stable s offset : stable (fun n => prevline n s offset).
Proof.
  unfold prevline. apply stable_bind; [apply prevline_scan_stable|].
  intros [o p]. apply stable_const.
Qed.

Lemma nextline_scan_stable s offset : stable (fun n => nextline_scan n s offset).
Proof.
  intros n. revert offset. induction n as [|n IH]; intros offset m r H Hle; [discriminate|].
  destruct m as [|m]; [lia|]. simpl in *.
  destruct (ptr s offset <? ebuf s); [|exact H].
  apply bind_done in H as (c & Hc & H). rewrite Hc. cbn [bind].
  destruct (negb (c =? ch_NL)); [|exact H].
  apply (IH _ m r H). lia.
Qed.

Lemma nextline_stable s offset : stable (fun n => nextline n s offset).
Proof.
  unfold nextline. apply stable_bind; [apply nextline_scan_stable|].
  intros [o p]. apply stable_const.
Qed.

Lemma adjust_stable s offset column : stable (fun n => adjust n s offset column).
Proof.
  unfold adjust. generalize 0 as i.
  intros i n. revert offset i.
  induction n as [|n IH]; intros offset i m r H Hle; [discriminate|].
  destruct m as [|m]; [lia|]. simpl in *.
  destruct (ptr s offset <? ebuf s); [|exact H].
  apply bind_done in H as (c & Hc & H). rewrite Hc. cbn [bind].
  destruct (negb (c =? ch_NL) && (i <? column)); [|exact H].
  apply (IH _ _ m r H). lia.
Qed.

Lemma up_stable s : stable (fun n => up n s).
Proof.
  unfold up. apply stable_bind; [apply prevline_stable|].
  intros a. apply stable_bind; [apply prevline_stable|].
  intros b. apply stable_bind; [apply adjust_stable|].
  intros c. apply stable_const.
Qed.

Lemma down_stable s : stable (fun n => down n s).
Proof.
  unfold down. apply stable_bind; [apply nextline_stable|].
  intros a. apply stable_bind; [apply adjust_stable|].
  intros c. apply stable_const.
Qed.

Lemma insert_stable ch s : stable (fun n => insert n ch s).
Proof.
  unfold insert. apply stable_bind; [apply movegap_stable|].
  intros s1. apply stable_const.
Qed.

Lemma get_lineno_stable s : stable (fun n => get_lineno n s).
Proof.
  unfold get_lineno. generalize (set_line 1 s) as s0, 0 as i.
  intros s0 i n. revert s0 i.
  induction n as [|n IH]; intros s0 i m r H Hle; [discriminate|].
  destruct m as [|m]; [lia|]. simpl in *.
  destruct (i <? idx s0); [|exact H].
  apply bind_done in H as (c & Hc & H). rewrite Hc. cbn [bind].
  apply (IH _ _ m r H). lia.
Qed.

Lemma save_file_stable typed open_ok s : stable (fun n => save_file n typed open_ok s).
Proof.
  unfold save_file.
  destruct (filename (match filename s with
                      | Some _ => s
                      | None => set_filename typed s
                      end)); [|apply stable_const].
  destruct (negb open_ok); [apply stable_const|].
  apply stable_bind; [apply movegap_stable|].
  intros s1. apply stable_const.
Qed.

Section Budget.

Variables COL_MAX ROW_MAX : Z.

Lemma page_back_stable s k pg : stable (fun n => page_back n s k pg).
Proof.
  revert pg. induction k as [|k IH]; intros pg; simpl; [apply stable_const|].
  apply stable_bind; [apply prevline_stable|]. intros pg'. apply IH.
Qed.

Lemma render_stable s i j : stable (fun n => render COL_MAX ROW_MAX n s i j).
Proof.
  intros n. revert s i j.
  induction n as [|n IH]; intros s i j m r H Hle; [discriminate|].
  destruct m as [|m]; [lia|]. cbn [render] in *.
  set (s1 := if idx s =? epage s then set_col j (set_row i s) else s) in *.
  destruct ((ROW_MAX - 1 <=? i) || (ebuf s1 <=? ptr s1 (epage s1))); [exact H|].
  apply bind_done in H as (c & Hc & H). rewrite Hc. cbn [bind].
  apply bind_done in H as ([scr j1] & Hcell & H). rewrite Hcell. cbn [bind].
  destruct (if (c =? ch_NL) || (COL_MAX <=? j1) then (i + 1, 0) else (i, j1)) as [i2 j2].
  apply (IH _ _ _ m r H). lia.
Qed.

Lemma update_display_stable s : stable (fun n => update_display COL_MAX ROW_MAX n s).
Proof.
  unfold update_display.
  apply stable_bind; [apply stable_const|]. intros scr.
  set (s0 := set_screen scr s).
  apply stable_bind.
  { destruct (idx s0 <? page s0); [|apply stable_const].
    apply stable_bind; [apply prevline_stable|]. intros pg. apply stable_const. }
  intros s1. apply stable_bind.
  { destruct (epage s1 <=? idx s1); [|apply stable_const].
    apply stable_bind; [apply nextline_stable|]. intros pg.
    apply stable_bind; [apply page_back_stable|]. intros pg'. apply stable_const. }
  intros s2. apply stable_bind; [apply render_stable|].
  intros s3. apply get_lineno_stable.
Qed.

Lemma dispatch_stable c s : stable (fun n => dispatch COL_MAX ROW_MAX n c s).
Proof.
  destruct c; simpl; try apply stable_const.
  - apply up_stable.
  - apply update_display_stable.
  - apply down_stable.
  - apply stable_bind; [apply save_file_stable|]. intros r. apply stable_const.
  - apply insert_stable.
Qed.

(** A run of the command loop that is computed with some budget is the
    run for every larger budget. *)
Lemma rounds_stable cs s : stable (fun n => rounds COL_MAX ROW_MAX n cs s).
Proof.
  revert s. induction cs as [|c cs IH]; intros s; simpl.
  - apply update_display_stable.
  - apply stable_bind; [|intros s1; apply IH].
    unfold round. apply stable_bind; [apply update_display_stable|].
    intros s1. apply dispatch_stable.
Qed.

End Budget.

(** ** Where the line number and the line start are right *)

Lemma newlines_cons c l :
  newlines (c :: l) = (if c =? ch_NL then 1 else 0) + newlines l.
Proof.
  unfold newlines. rewrite filter_cons.
  destruct (Z.eqb_spec c ch_NL) as [->|Hne].
  - rewrite decide_True by reflexivity. simpl length. lia.
  - rewrite decide_False by exact Hne. lia.
Qed.

Lemma bytes_cons m a n : 0 < n -> bytes m a n = m !!! a :: bytes m (a + 1) (n - 1).
Proof.
  intros H. unfold bytes. rewrite seqZ_cons by lia. simpl.
  do 3 f_equal; lia.
Qed.

Lemma bytes_nil m a n : n <= 0 -> bytes m a n = [].
Proof. intros H. unfold bytes. now rewrite seqZ_nil. Qed.

(** The loop of [get_lineno] adds the newlines among the bytes at the
    addresses [buf + i .. buf + idx). *)
Lemma get_lineno_loop_counts fuel : forall s i,
  buf s <= ebuf s -> 0 <= i -> idx s <= ebuf s - buf s ->
  (Z.to_nat (idx s - i) < fuel)%nat ->
  get_lineno_loop fuel s i
    = Done (set_line (line s + newlines (bytes (mem s) (buf s + i) (idx s - i))) s).
Proof.
  induction fuel as [|fuel IH]; intros s i Hb Hi Hx Hf; [lia|].
  simpl. destruct (Z.ltb_spec i (idx s)) as [Hlt|Hge].
  - rewrite load_in by lia. cbn [bind].
    rewrite (bytes_cons _ _ (idx s - i)) by lia. rewrite newlines_cons.
    replace (buf s + i + 1) with (buf s + (i + 1)) by lia.
    replace (idx s - i - 1) with (idx s - (i + 1)) by lia.
    destruct (mem s !!! (buf s + i) =? ch_NL).
    + rewrite IH by (simpl; lia). simpl. state_eq.
    + rewrite IH by lia. state_eq.
  - rewrite bytes_nil by lia. state_eq. unfold newlines. simpl. lia.
Qed.

(** [get_lineno] counts the newlines of the first [idx] bytes of the
    buffer, whatever the gap. *)
Lemma get_lineno_counts_buffer fuel s :
  wf s -> enough s fuel ->
  get_lineno fuel s
    = Done (set_line (1 + newlines (bytes (mem s) (buf s) (idx s))) s).
Proof.
  intros [H1 H2 H3 H4 H5] Hf. unfold doclen in H5. unfold enough in Hf.
  unfold get_lineno. rewrite get_lineno_loop_counts by (simpl; lia). simpl.
  rewrite Z.add_0_r, Z.sub_0_r. state_eq.
Qed.

Lemma bytes_take m a n k :
  0 <= k <= n -> take (Z.to_nat k) (bytes m a n) = bytes m a k.
Proof.
  intros H. unfold bytes. rewrite <- fmap_take. f_equal.
  replace n with (k + (n - k)) by lia. rewrite seqZ_app by lia.
  apply take_app_length'. rewrite length_seqZ. lia.
Qed.

(** With the cursor in the live prefix, so also right after an edit,
    [get_lineno] gives the line of the cursor. *)
Lemma get_lineno_before_gap fuel s :
  wf s -> enough s fuel -> idx s <= gap s - buf s ->
  get_lineno fuel s = Done (set_line (cursor_line s) s).
Proof.
  intros Hwf Hf Hpre. rewrite get_lineno_counts_buffer by auto.
  destruct Hwf as [H1 H2 H3 H4 H5].
  unfold cursor_line, document.
  rewrite take_app_le by (rewrite bytes_length; lia).
  rewrite bytes_take by lia. reflexivity.
Qed.

Lemma prevline_scan_spec fuel : forall s offset,
  layout s -> offset <= doclen s -> (Z.to_nat offset < fuel)%nat ->
  exists o,
    prevline_scan fuel s offset = Done (o, ptr s o) /\ o < offset /\
    (forall k, o < k < offset -> buf s < ptr s k /\ mem s !!! ptr s k <> ch_NL) /\
    (buf s < ptr s o -> mem s !!! ptr s o = ch_NL).
Proof.
  induction fuel as [|fuel IH]; intros s offset Hl Ho Hf; [lia|].
  simpl. destruct (Z.ltb_spec (buf s) (ptr s (offset - 1))) as [Hlt|Hge].
  - pose proof (ptr_above_buf _ _ Hlt) as H0.
    assert (Hin : ptr s (offset - 1) < ebuf s) by (apply ptr_inside; auto; lia).
    rewrite load_in by lia. cbn [bind].
    destruct (Z.eqb_spec (mem s !!! ptr s (offset - 1)) ch_NL) as [Heq|Hne]; simpl negb;
      cbv iota.
    + exists (offset - 1). split; [reflexivity|]. split; [lia|]. split; [|auto].
      intros k Hk. lia.
    + destruct (IH s (offset - 1)) as (o & Hrun & Hlo & Hbetween & Hat); auto; try lia.
      exists o. split; [exact Hrun|]. split; [lia|]. split; [|exact Hat].
      intros k Hk. destruct (decide (k = offset - 1)) as [->|Hk'].
      * split; auto.
      * apply Hbetween. lia.
  - exists (offset - 1). split; [reflexivity|]. split; [lia|]. split.
    + intros k Hk. lia.
    + intros Hc. lia.
Qed.

(** X22.  [prevline] is the line start of the specification whenever
    the scan cannot run into the first byte of the buffer holding a
    newline: when the document does not begin with a newline, or when
    its first byte is not stored at [buf] (the gap is at the start of
    the buffer and not empty). *)
Lemma prevline_line_start fuel s offset :
  wf s -> enough s fuel -> 0 <= offset <= doclen s ->
  document s !! 0%nat <> Some ch_NL \/ ptr s 0 <> buf s ->
  exists r,
    prevline fuel s offset = Done r /\ 0 <= r <= offset /\
    (r = 0 \/ document s !! Z.to_nat (r - 1) = Some ch_NL) /\
    (forall k, r <= k < offset -> document s !! Z.to_nat k <> Some ch_NL).
Proof.
  intros Hwf Hf Ho Hfirst. pose proof (wf_layout s Hwf) as Hl.
  pose proof Hl as (H1 & H2 & H3).
  destruct (prevline_scan_spec fuel s offset) as (o & Hrun & Hlo & Hbetween & Hat); auto;
    try lia.
  { eapply enough_offset; eauto. lia. }
  unfold prevline. rewrite Hrun. cbn [bind].
  assert (Hdoc : forall k, 0 <= k < offset ->
                   document s !! Z.to_nat k = Some (mem s !!! ptr s k))
    by (intros k Hk; apply document_lookup; auto; lia).
  destruct (Z.ltb_spec (buf s) (ptr s o)) as [Hlt|Hge].
  - pose proof (ptr_above_buf _ _ Hlt) as Ho0.
    exists (o + 1). split; [reflexivity|]. split; [lia|]. split.
    + right. replace (o + 1 - 1) with o by lia. rewrite Hdoc by lia.
      f_equal. auto.
    + intros k Hk. rewrite Hdoc by lia. intros E. inversion E as [E'].
      destruct (Hbetween k) as [_ Hne]; [lia|]. contradiction.
  - exists 0. split; [reflexivity|]. split; [lia|]. split; [left; reflexivity|].
    intros k Hk. rewrite Hdoc by lia. intros E. inversion E as [E'].
    destruct (decide (o < k)) as [Hok|Hok].
    + destruct (Hbetween k) as [_ Hne]; [lia|]. contradiction.
    + assert (Hk0 : k = 0 /\ ptr s 0 = buf s).
      { pose proof (ptr_lower s o Hl). unfold ptr in *.
        repeat match goal with
          | H : context [?a <? ?b] |- _ => destruct (Z.ltb_spec a b)
          | |- context [?a <? ?b] => destruct (Z.ltb_spec a b)
          end; lia. }
      destruct Hk0 as [-> Hp0]. destruct Hfirst as [Hfirst|Hfirst]; [|contradiction].
      apply Hfirst. change 0%nat with (Z.to_nat 0).
      rewrite Hdoc by lia. f_equal. exact E'.
Qed.

(** ** The theorems at concrete states *)

(** C1 on "ab\ncd\n" with the gap after the first line: the offset of
    'd' and the address of 'c'. *)
Lemma address_inverse_witness :
  pos sample (ptr sample 4) = 4 /\ ptr sample (pos sample 1013) = 1013.
Proof.
  apply (address_inverse sample 4 1013).
  - constructor; vm_compute; discriminate.
  - vm_compute. split; discriminate.
  - vm_compute. split; discriminate.
  - vm_compute. intros [_ H]. discriminate H.
Defined.

(** C2 on the same state: the gap moves from offset 3 to the cursor at
    offset 4. *)
Lemma movegap_conserves_document_witness :
  exists s',
    movegap 20 sample = Done s' /\
    document s' = document sample /\
    doclen s' = doclen sample /\
    (gap sample = buf sample + idx sample -> s' = sample).
Proof.
  apply (movegap_conserves_document sample 20).
  - constructor; vm_compute; discriminate.
  - vm_compute. lia.
Defined.

(** C5 on the full buffer "wxyz" and the key 'x'. *)
Lemma insert_at_capacity_dropped_witness :
  exists s',
    insert 10 120 full4 = Done s' /\
    document s' = document full4 /\
    doclen s' = doclen full4 /\
    idx s' = idx full4.
Proof.
  apply (insert_at_capacity_dropped full4 10 120).
  - constructor; vm_compute; discriminate.
  - vm_compute. lia.
  - discriminate.
  - discriminate.
  - reflexivity.
Defined.

(** C6 on "ab\ncd\n", the cursor on 'd', and the key 'x'. *)
Lemma insert_delete_roundtrip_witness :
  exists s1 s2,
    insert 20 120 sample = Done s1 /\ idx s1 = idx sample + 1 /\
    insert 20 ch_BS s1 = Done s2 /\
    document s2 = document sample /\ idx s2 = idx sample.
Proof.
  apply (insert_delete_roundtrip sample 20 120).
  - constructor; vm_compute; discriminate.
  - vm_compute. lia.
  - discriminate.
  - discriminate.
  - vm_compute. reflexivity.
Defined.

(** X25 on the same state, for 24 rows of 80 columns. *)
Lemma cursor_cell_after_frame_witness :
  exists s',
    update_display 80 24 20 sample = Done s' /\
    0 <= row s' <= 24 - 1 /\
    0 <= col s' < 80 /\
    (page s' <= idx s' < epage s' -> row s' < 24 - 1).
Proof.
  apply (cursor_cell_after_frame 80 24).
  - lia.
  - lia.
  - reflexivity.
  - constructor; vm_compute; discriminate.
  - unfold cell_ok. simpl. lia.
  - vm_compute. lia.
Defined.

(** C9 on the same state and the offset -1. *)
Lemma prevline_reads_above_buf_witness :
  buf sample <= ptr sample (-1) /\
  (-1 < 0 -> ptr sample (-1) = buf sample) /\
  (forall a, prevline 20 sample (-1) = Fault a -> buf sample < a) /\
  (-1 <= doclen sample -> exists r, prevline 20 sample (-1) = Done r /\ 0 <= r) /\
  prevline 20 sample (-1) = Done 0 /\
  (exists a b c,
     prevline 20 sample (idx sample) = Done a /\
     prevline 20 sample (a - 1) = Done b /\
     adjust 20 sample b (col sample) = Done c /\
     up 20 sample = Done (set_idx c sample) /\ wf (set_idx c sample)).
Proof.
  apply (prevline_reads_above_buf sample 20 (-1)).
  - constructor; vm_compute; discriminate.
  - vm_compute. lia.
Defined.

(** C10 on the same state and the key backspace. *)
Lemma insert_backspace_deletes_witness :
  exists s',
    insert 20 ch_BS sample = Done s' /\
    (0 < idx sample ->
       document s' = take (Z.to_nat (idx sample - 1)) (document sample)
                       ++ drop (Z.to_nat (idx sample)) (document sample) /\
       doclen s' = doclen sample - 1 /\
       gap s' - buf s' = idx sample - 1 /\
       idx s' = idx sample - 1) /\
    (idx sample = 0 ->
       document s' = document sample /\ doclen s' = doclen sample /\
       gap s' - buf s' = 0 /\ idx s' = 0).
Proof.
  apply (insert_backspace_deletes sample 20 ch_BS).
  - constructor; vm_compute; discriminate.
  - vm_compute. lia.
  - left. reflexivity.
Defined.

(** * Further properties of the code *)

(** ** Gap relocation and the edit primitive *)

Lemma text_document s s' : text s' = text s -> document s' = document s.
Proof. unfold text, document. intros H. injection H as -> -> -> -> -> _ _ _. reflexivity. Qed.

Lemma text_doclen s s' : text s' = text s -> doclen s' = doclen s.
Proof. unfold text, doclen. intros H. injection H as -> -> -> -> _ _ _ _. reflexivity. Qed.

Lemma text_wf s s' : text s' = text s -> wf s -> wf s'.
Proof.
  intros H Hwf. pose proof (text_doclen _ _ H) as Hd.
  unfold text in H. injection H as Hb He Hg Heg _ Hi _ _.
  destruct Hwf. constructor; congruence.
Qed.

Lemma text_enough s s' fuel : text s' = text s -> enough s fuel -> enough s' fuel.
Proof.
  unfold text, enough. intros H. injection H as -> -> _ _ _ _ _ _. auto.
Qed.

(** X1.  [movegap] on a well-formed state puts the gap at the cursor:
    afterwards [gap = buf + idx], the gap has the size it had, the
    cursor is where it was, and nothing but [gap], [egap] and the
    buffer contents has changed. *)
Theorem movegap_puts_gap_at_cursor (s : state) (fuel : nat) :
  wf s -> enough s fuel ->
  exists s',
    movegap fuel s = Done s' /\
    gap s' = buf s' + idx s' /\
    room s' = room s /\
    idx s' = idx s /\
    untouched s' = untouched s /\
    wf s'.
Proof.
  intros Hwf Hf.
  destruct (movegap_spec s fuel Hwf Hf) as (s' & Hrun & Hfr & Hg & Hsz & Hdoc).
  destruct (movegap_frame _ _ Hfr) as (Hb & He & Hi & _).
  exists s'. split; [exact Hrun|]. unfold room.
  split; [lia|]. split; [lia|]. split; [exact Hi|].
  split; [eapply movegap_untouched; eauto|].
  destruct Hwf. constructor; unfold doclen in *; lia.
Qed.

(** X2.  With room in the buffer, [insert] of a key other than
    backspace and DEL puts one byte into the document at the cursor and
    moves the cursor behind it: the bytes before and after the cursor
    stay, the document grows by one.  The byte is the key reduced to a
    [char], and a carriage return is stored as a newline. *)
Theorem insert_places_byte (s : state) (fuel : nat) (ch : Z) :
  wf s -> enough s fuel ->
  ch <> ch_BS -> ch <> ch_DEL ->
  0 < room s ->
  exists s',
    insert fuel ch s = Done s' /\
    document s' = take (Z.to_nat (idx s)) (document s) ++ [stored ch]
                    ++ drop (Z.to_nat (idx s)) (document s) /\
    idx s' = idx s + 1 /\
    doclen s' = doclen s + 1 /\
    room s' = room s - 1 /\
    0 <= stored ch < 256 /\
    (ch = ch_CR -> stored ch = ch_NL).
Proof.
  intros Hwf Hf Hbs Hdel Hroom.
  assert (Hlt : doclen s < ebuf s - buf s) by (unfold doclen, room in *; lia).
  destruct (insert_store s fuel ch Hwf Hf Hbs Hdel Hlt)
    as (s' & Hrun & Hwf' & Hb & He & _ & Hi & Hg & Hdoc).
  exists s'. split; [exact Hrun|]. split; [exact Hdoc|]. split; [exact Hi|].
  assert (Hlen : doclen s' = doclen s + 1).
  { apply (f_equal length) in Hdoc.
    destruct Hwf, Hwf'. rewrite !length_app, length_take, length_drop in Hdoc.
    rewrite !document_length in Hdoc by lia. simpl in Hdoc. lia. }
  split; [exact Hlen|].
  split; [unfold doclen, room in *; lia|].
  split.
  - unfold stored, to_char. apply Z.mod_pos_bound. lia.
  - intros ->. reflexivity.
Qed.

(** ** Frames and keys in sequence *)

Section Typing.

Variables COL_MAX ROW_MAX : Z.
Hypothesis Hcol : 16 <= COL_MAX.
Hypothesis Hrow : 2 <= ROW_MAX.
Hypothesis Hdiv : COL_MAX `mod` 8 = 0.

(** A frame returns and touches nothing of the text. *)
Lemma update_display_keeps fuel s :
  steady COL_MAX ROW_MAX s -> enough s fuel ->
  exists s',
    update_display COL_MAX ROW_MAX fuel s = Done s' /\
    steady COL_MAX ROW_MAX s' /\ text s' = text s.
Proof.
  intros [Hwf Hcell] Hf.
  destruct (update_display_spec COL_MAX ROW_MAX Hcol Hrow Hdiv fuel s Hwf Hcell Hf)
    as (pg & e & scr & r & c & n & Hrun & Hpg & He & Hr & Hc & _).
  eexists. split; [exact Hrun|]. split; [|reflexivity].
  split.
  - destruct Hwf. constructor; auto.
  - unfold cell_ok. simpl. lia.
Qed.

(** X3.  Bytes typed one after the other, each round of the loop
    drawing its frame first, at a width that is a multiple of 8.  The
    bytes are those the switch of [main] hands to [insert] (none of
    ^D, ^E, ^L, ^S, ^X, ESC) and neither backspace nor DEL: as many of
    them as the gap has room for are stored at the cursor, in order,
    and the rest is dropped; the cursor ends behind the last byte
    stored. *)
Theorem typed_keys_fill_the_gap (keys : list Z) : forall (s : state) (fuel : nat),
  steady COL_MAX ROW_MAX s -> enough s fuel ->
  Forall (fun ch => byte_command ch = Some (Insert ch) /\
                    ch <> ch_BS /\ ch <> ch_DEL) keys ->
  exists s',
    rounds COL_MAX ROW_MAX fuel (Insert <$> keys) s = Done s' /\
    document s' = take (Z.to_nat (idx s)) (document s)
                    ++ take (Z.to_nat (room s)) (stored <$> keys)
                    ++ drop (Z.to_nat (idx s)) (document s) /\
    idx s' = idx s + Z.min (Z.of_nat (length keys)) (room s).
Proof.
  induction keys as [|ch keys IH]; intros s fuel Hst Hf Hkeys.
  - destruct (update_display_keeps fuel s Hst Hf) as (s' & Hrun & Hst' & Htx).
    exists s'. split; [exact Hrun|].
    rewrite (text_document _ _ Htx).
    assert (Hi : idx s' = idx s) by (unfold text in Htx; congruence).
    destruct Hst as [[] _]. simpl. rewrite take_nil. simpl.
    rewrite take_drop. split; [reflexivity|]. unfold room. lia.
  - inversion Hkeys as [|? ? (_ & Hbs & Hdel) Hrest]; subst.
    destruct (update_display_keeps fuel s Hst Hf) as (sa & Hrun & Hsta & Htx).
    pose proof (text_enough _ _ fuel Htx Hf) as Hfa.
    pose proof (text_document _ _ Htx) as Hda.
    assert (Htx' : idx sa = idx s /\ room sa = room s /\ buf sa = buf s /\ ebuf sa = ebuf s).
    { unfold text, room in *. injection Htx as -> -> -> -> _ -> _ _. auto. }
    destruct Htx' as (Hia & Hra & Hba & Hea).
    pose proof Hsta as [Hwfa Hcella].
    cbn [fmap list_fmap rounds]. unfold round. rewrite Hrun. cbn [bind dispatch].
    destruct (decide (0 < room sa)) as [Hroom|Hroom].
    + assert (Hlt : doclen sa < ebuf sa - buf sa) by (unfold doclen, room in *; lia).
      destruct (insert_store sa fuel ch Hwfa Hfa Hbs Hdel Hlt)
        as (s1 & Hrun1 & Hwf1 & Hb & He & _ & Hi & Hg & Hdoc).
      destruct (dispatch_ok COL_MAX ROW_MAX Hcol Hrow fuel (Insert ch) sa s1)
        as (Hst1 & _); auto.
      rewrite Hrun1. cbn [bind].
      assert (Hf1 : enough s1 fuel) by (eapply enough_same; eauto).
      destruct (IH s1 fuel Hst1 Hf1 Hrest) as (s' & Hrun' & Hdoc' & Hi').
      exists s'. split; [exact Hrun'|].
      assert (Hroom1 : room s1 = room sa - 1).
      { apply (f_equal length) in Hdoc.
        destruct Hwfa, Hwf1. rewrite !length_app, length_take, length_drop in Hdoc.
        rewrite !document_length in Hdoc by lia. simpl in Hdoc.
        unfold room, doclen in *. lia. }
      assert (Hlen : length (take (Z.to_nat (idx sa)) (document sa)) = Z.to_nat (idx sa)).
      { destruct Hwfa. rewrite length_take, document_length by lia. lia. }
      split.
      * rewrite Hdoc', Hdoc, Hi, Hroom1, <- Hda, <- Hia, <- Hra.
        replace (Z.to_nat (idx sa + 1)) with (S (Z.to_nat (idx sa))) by (destruct Hwfa; lia).
        replace (Z.to_nat (room sa)) with (S (Z.to_nat (room sa - 1))) by lia.
        cbn [take].
        rewrite (app_assoc (take _ (document sa)) [stored ch]).
        rewrite take_app_length' by (rewrite length_app; simpl; lia).
        rewrite drop_app_length' by (rewrite length_app; simpl; lia).
        rewrite <- !app_assoc. reflexivity.
      * rewrite Hi', Hi, Hroom1. simpl length. lia.
    + assert (Hfull : doclen sa = ebuf sa - buf sa).
      { destruct Hwfa. unfold doclen, room in *. lia. }
      destruct (insert_full sa fuel ch Hwfa Hfa Hbs Hdel Hfull)
        as (s1 & Hrun1 & Hwf1 & Hb & He & _ & Hi & Hg & Hdoc).
      destruct (dispatch_ok COL_MAX ROW_MAX Hcol Hrow fuel (Insert ch) sa s1)
        as (Hst1 & _); auto.
      rewrite Hrun1. cbn [bind].
      assert (Hf1 : enough s1 fuel) by (eapply enough_same; eauto).
      destruct (IH s1 fuel Hst1 Hf1 Hrest) as (s' & Hrun' & Hdoc' & Hi').
      exists s'. split; [exact Hrun'|].
      assert (Hroom1 : room s1 = room sa).
      { apply (f_equal length) in Hdoc.
        destruct Hwfa, Hwf1. rewrite !document_length in Hdoc by lia.
        unfold room, doclen in *. lia. }
      split.
      * rewrite Hdoc', Hdoc, Hi, Hroom1, <- Hda, <- Hia, <- Hra.
        replace (Z.to_nat (room sa)) with 0%nat by lia. reflexivity.
      * rewrite Hi', Hi, Hroom1. simpl length. lia.
Qed.

End Typing.

(** ** Moving the cursor *)

Lemma left_eq s : 0 <= idx s -> left s = set_idx (Z.max 0 (idx s - 1)) s.
Proof.
  intros H0. unfold left. destruct (Z.ltb_spec 0 (idx s)); [f_equal; lia|state_eq].
Qed.

Lemma right_eq s :
  layout s -> idx s <= doclen s ->
  right s = set_idx (Z.min (doclen s) (idx s + 1)) s.
Proof.
  intros Hl Hhi. unfold right. rewrite pos_ebuf by auto.
  destruct (Z.ltb_spec (idx s) (doclen s)); [f_equal; lia|].
  unfold doclen in *. state_eq.
Qed.

(** X4.  [left] and [right] move the cursor by one and stop at the ends
    of the document; they change nothing else, keep the state well
    formed, and undo each other wherever the first one moved. *)
Theorem left_right_clamp (s : state) :
  wf s ->
  left s = set_idx (Z.max 0 (idx s - 1)) s /\
  right s = set_idx (Z.min (doclen s) (idx s + 1)) s /\
  wf (left s) /\ wf (right s) /\
  (0 < idx s -> right (left s) = s) /\
  (idx s < doclen s -> left (right s) = s).
Proof.
  intros Hwf. pose proof (wf_layout s Hwf) as Hl. pose proof Hwf as [_ _ _ H4 H5].
  split; [apply left_eq, H4|]. split; [apply right_eq; auto|].
  rewrite left_eq, (right_eq s Hl) by auto.
  split; [apply wf_set_idx; auto; lia|]. split; [apply wf_set_idx; auto; lia|].
  split.
  - intros Hpos. rewrite right_eq by (auto; simpl; unfold doclen in *; simpl; lia).
    change (doclen (set_idx (Z.max 0 (idx s - 1)) s)) with (doclen s).
    unfold doclen in *. simpl. state_eq.
  - intros Hlt. rewrite left_eq by (simpl; lia). unfold doclen in *. simpl. state_eq.
Qed.

Lemma nextline_scan_spec fuel : forall s offset,
  layout s -> 0 <= offset <= doclen s ->
  (Z.to_nat (doclen s - offset) < fuel)%nat ->
  exists o,
    nextline_scan fuel s offset = Done (o + 1, ptr s o) /\
    offset <= o <= doclen s /\
    (forall k, offset <= k < o -> mem s !!! ptr s k <> ch_NL) /\
    (o < doclen s -> mem s !!! ptr s o = ch_NL).
Proof.
  induction fuel as [|fuel IH]; intros s offset Hl Ho Hf; [lia|].
  simpl. destruct (Z.ltb_spec (ptr s offset) (ebuf s)) as [Hlt|Hge].
  - assert (Hin : offset < doclen s) by (apply ptr_inside; auto; lia).
    pose proof (ptr_lower s offset Hl).
    rewrite load_in by lia. cbn [bind].
    destruct (Z.eqb_spec (mem s !!! ptr s offset) ch_NL) as [Heq|Hne]; simpl negb;
      cbv iota.
    + exists offset. split; [reflexivity|]. split; [lia|]. split; [|auto].
      intros k Hk. lia.
    + destruct (IH s (offset + 1)) as (o & Hrun & Hlo & Hbetween & Hat); auto; try lia.
      exists o. split; [exact Hrun|]. split; [lia|]. split; [|exact Hat].
      intros k Hk. destruct (decide (k = offset)) as [->|Hk']; [exact Hne|].
      apply Hbetween. lia.
  - assert (Hend : ~ offset < doclen s) by (rewrite <- ptr_inside; auto; lia).
    exists offset. split; [reflexivity|]. split; [lia|]. split.
    + intros k Hk. lia.
    + intros Hc. lia.
Qed.

(** X5.  [nextline] of an offset of the document returns the offset
    behind the first newline at or after it, or the document length
    when no newline follows; the result does not depend on where the
    gap is. *)
Theorem nextline_finds_next_line (s : state) (fuel : nat) (offset : Z) :
  wf s -> enough s fuel -> 0 <= offset <= doclen s ->
  exists r,
    nextline fuel s offset = Done r /\ offset <= r <= doclen s /\
    ((offset < r /\ document s !! Z.to_nat (r - 1) = Some ch_NL /\
      forall k, offset <= k < r - 1 -> document s !! Z.to_nat k <> Some ch_NL)
     \/
     (r = doclen s /\
      forall k, offset <= k < doclen s -> document s !! Z.to_nat k <> Some ch_NL)).
Proof.
  intros Hwf Hf Ho. pose proof (wf_layout s Hwf) as Hl.
  pose proof Hl as (H1 & H2 & H3).
  destruct (nextline_scan_spec fuel s offset) as (o & Hrun & Hlo & Hbetween & Hat); auto.
  { eapply enough_rest; eauto. lia. }
  unfold nextline. rewrite Hrun. cbn [bind].
  assert (Hdoc : forall k, 0 <= k < doclen s ->
                   document s !! Z.to_nat k = Some (mem s !!! ptr s k))
    by (intros k Hk; apply document_lookup; auto).
  destruct (Z.ltb_spec (ptr s o) (ebuf s)) as [Hlt|Hge].
  - assert (Hin : o < doclen s) by (apply ptr_inside; auto; lia).
    exists (o + 1). split; [reflexivity|]. split; [lia|]. left.
    split; [lia|]. replace (o + 1 - 1) with o by lia. split.
    + rewrite Hdoc by lia. f_equal. auto.
    + intros k Hk. rewrite Hdoc by lia. intros E. inversion E as [E'].
      apply (Hbetween k); [lia|exact E'].
  - assert (Hend : ~ o < doclen s) by (rewrite <- ptr_inside; auto; lia).
    rewrite pos_ebuf by auto.
    exists (doclen s). split; [reflexivity|]. split; [lia|]. right.
    split; [reflexivity|].
    intros k Hk. rewrite Hdoc by lia. intros E. inversion E as [E'].
    apply (Hbetween k); [lia|exact E'].
Qed.

(** ** Columns and lines *)

Lemma tab_stop i : i + (8 - Z.land i 7) = 8 * (i / 8 + 1).
Proof.
  change 7 with (Z.ones 3). rewrite Z.land_ones by lia.
  change (2 ^ 3) with 8. pose proof (Z.div_mod i 8). lia.
Qed.

(** The walk of [adjust] over the buffer is the walk over the document
    line, wherever the gap is. *)
Lemma adjust_refines fuel : forall s column offset i,
  layout s -> 0 <= offset <= doclen s ->
  (Z.to_nat (doclen s - offset) < fuel)%nat ->
  adjust_loop fuel s column offset i
    = Done (offset + Z.of_nat (resolve (drop (Z.to_nat offset) (document s)) column i)).
Proof.
  induction fuel as [|fuel IH]; intros s column offset i Hl Ho Hf; [lia|].
  pose proof Hl as (H1 & H2 & H3).
  simpl. destruct (Z.ltb_spec (ptr s offset) (ebuf s)) as [Hlt|Hge].
  - assert (Hin : offset < doclen s) by (apply ptr_inside; auto; lia).
    pose proof (ptr_lower s offset Hl).
    rewrite load_in by lia. cbn [bind].
    assert (Hd : document s !! Z.to_nat offset = Some (mem s !!! ptr s offset))
      by (apply document_lookup; auto; lia).
    rewrite (drop_S _ _ _ Hd). cbn [resolve].
    destruct (negb (mem s !!! ptr s offset =? ch_NL) && (i <? column)).
    + rewrite IH by (auto; lia).
      replace (S (Z.to_nat offset)) with (Z.to_nat (offset + 1)) by lia.
      assert (Hadv : i + (if mem s !!! ptr s offset =? ch_TAB then 8 - Z.land i 7 else 1)
                     = advance i (mem s !!! ptr s offset)).
      { unfold advance. destruct (_ =? ch_TAB); [apply tab_stop|reflexivity]. }
      rewrite Hadv. f_equal. lia.
    + f_equal. lia.
  - assert (Hend : ~ offset < doclen s) by (rewrite <- ptr_inside; auto; lia).
    rewrite drop_ge by (rewrite document_length by lia; lia).
    simpl. f_equal. lia.
Qed.

Lemma resolve_spec l : forall column i,
  (resolve l column i <= length l)%nat /\
  (forall m, (m < resolve l column i)%nat ->
     exists c, l !! m = Some c /\ c <> ch_NL /\ foldl advance i (take m l) < column) /\
  (resolve l column i = length l \/
   l !! resolve l column i = Some ch_NL \/
   column <= foldl advance i (take (resolve l column i) l)).
Proof.
  induction l as [|c l IH]; intros column i; simpl.
  - split; [lia|]. split; [intros m Hm; lia|]. left. reflexivity.
  - destruct (Z.eqb_spec c ch_NL) as [->|Hne]; simpl.
    { split; [lia|]. split; [intros m Hm; lia|]. right. left. reflexivity. }
    destruct (Z.ltb_spec i column) as [Hlt|Hge]; simpl.
    + destruct (IH column (advance i c)) as (Hlen & Hwalk & Hstop).
      split; [lia|]. split.
      * intros [|m] Hm; simpl.
        -- exists c. repeat split; auto.
        -- destruct (Hwalk m) as (c' & Hc' & Hn & Hw); [lia|]. eauto.
      * destruct Hstop as [Hs|[Hs|Hs]]; [left; lia|right; left; exact Hs|].
        right. right. exact Hs.
    + split; [lia|]. split; [intros m Hm; lia|]. right. right. simpl. lia.
Qed.

Lemma resolve_zero l column i : column <= i -> resolve l column i = O.
Proof.
  intros H. destruct l as [|c l]; simpl; [reflexivity|].
  destruct (Z.ltb_spec i column); [lia|]. now rewrite andb_false_r.
Qed.

(** X6.  [adjust] walks from an offset over the bytes of its line and
    returns where it stops.  Every byte walked over is not a newline
    and starts left of the wanted column, the columns counted from 0
    at the offset with a tab reaching to the next multiple of 8; the
    walk stops at the end of the document, at a newline, or where the
    column reached is the wanted one or beyond it. *)
Theorem adjust_resolves_column (s : state) (fuel : nat) (offset column : Z) :
  wf s -> enough s fuel -> 0 <= offset <= doclen s ->
  exists r,
    adjust fuel s offset column = Done r /\ offset <= r <= doclen s /\
    (forall k, offset <= k < r ->
       exists c, document s !! Z.to_nat k = Some c /\ c <> ch_NL /\
                 width (take (Z.to_nat (k - offset))
                          (drop (Z.to_nat offset) (document s))) < column) /\
    (r = doclen s \/
     document s !! Z.to_nat r = Some ch_NL \/
     column <= width (take (Z.to_nat (r - offset))
                        (drop (Z.to_nat offset) (document s)))).
Proof.
  intros Hwf Hf Ho. pose proof (wf_layout s Hwf) as Hl.
  pose proof Hl as (H1 & H2 & H3).
  unfold adjust. rewrite adjust_refines by (auto; eapply enough_rest; eauto; lia).
  set (l := drop (Z.to_nat offset) (document s)).
  destruct (resolve_spec l column 0) as (Hlen & Hwalk & Hstop).
  assert (Hll : length l = Z.to_nat (doclen s - offset)).
  { subst l. rewrite length_drop, document_length by lia. lia. }
  eexists. split; [reflexivity|]. split; [lia|]. split.
  - intros k Hk. destruct (Hwalk (Z.to_nat (k - offset))) as (c & Hc & Hn & Hw); [lia|].
    exists c. split; [|split; auto].
    subst l. rewrite lookup_drop in Hc. rewrite <- Hc. f_equal. lia.
  - replace (Z.to_nat (offset + Z.of_nat (resolve l column 0) - offset))
      with (resolve l column 0) by lia.
    destruct Hstop as [Hs|[Hs|Hs]].
    + left. lia.
    + right. left. subst l. rewrite lookup_drop in Hs. rewrite <- Hs. f_equal. lia.
    + right. right. exact Hs.
Qed.

(** What [up] and [down] use of [adjust]. *)
Lemma adjust_walk fuel s offset column :
  wf s -> enough s fuel -> 0 <= offset <= doclen s ->
  exists r,
    adjust fuel s offset column = Done r /\ offset <= r <= doclen s /\
    (forall k, offset <= k < r -> document s !! Z.to_nat k <> Some ch_NL) /\
    (column <= 0 -> r = offset).
Proof.
  intros Hwf Hf Ho. pose proof (wf_layout s Hwf) as Hl.
  pose proof Hl as (H1 & H2 & H3).
  unfold adjust. rewrite adjust_refines by (auto; eapply enough_rest; eauto; lia).
  set (l := drop (Z.to_nat offset) (document s)).
  destruct (resolve_spec l column 0) as (Hlen & Hwalk & _).
  assert (Hll : length l = Z.to_nat (doclen s - offset)).
  { subst l. rewrite length_drop, document_length by lia. lia. }
  eexists. split; [reflexivity|]. split; [lia|]. split.
  - intros k Hk. destruct (Hwalk (Z.to_nat (k - offset))) as (c & Hc & Hn & _); [lia|].
    subst l. rewrite lookup_drop in Hc.
    replace (Z.to_nat offset + Z.to_nat (k - offset))%nat with (Z.to_nat k) in Hc by lia.
    rewrite Hc. intros E. inversion E. contradiction.
  - intros Hc. rewrite resolve_zero by exact Hc. lia.
Qed.

(** X7.  [down] puts the cursor on the line [nextline] finds: at or
    behind its start [r], with no newline between [r] and the cursor,
    never before the old cursor and never outside the document; with
    the column 0 it is the start [r] itself.  Nothing but the cursor
    changes. *)
Theorem down_lands_on_next_line (s : state) (fuel : nat) :
  wf s -> enough s fuel ->
  exists r c,
    nextline fuel s (idx s) = Done r /\
    down fuel s = Done (set_idx c s) /\
    idx s <= r /\ r <= c /\ c <= doclen s /\
    (forall k, r <= k < c -> document s !! Z.to_nat k <> Some ch_NL) /\
    (col s <= 0 -> c = r).
Proof.
  intros Hwf Hf. pose proof (wf_layout s Hwf) as Hl. pose proof Hwf as [_ _ _ H4 H5].
  destruct (nextline_total fuel s (idx s)) as (r & Hr & Hr0); auto.
  { eapply enough_rest; eauto. }
  destruct (adjust_walk fuel s r (col s) Hwf Hf) as (c & Hc & Hc0 & Hline & Hzero); [lia|].
  exists r, c. unfold down. rewrite Hr. cbn [bind]. rewrite Hc. cbn [bind].
  repeat split; auto; lia.
Qed.

(** X8.  [up] puts the cursor on the line that starts at
    [b = prevline (prevline idx - 1)], which is not behind the old
    cursor: at or behind [b], with no newline between [b] and the
    cursor, inside the document; with the column 0 it is [b] itself, so
    the cursor does not move forward.  Nothing but the cursor
    changes. *)
Theorem up_lands_on_previous_line (s : state) (fuel : nat) :
  wf s -> enough s fuel ->
  exists a b c,
    prevline fuel s (idx s) = Done a /\
    prevline fuel s (a - 1) = Done b /\
    up fuel s = Done (set_idx c s) /\
    0 <= b /\ b <= a /\ a <= idx s /\ b <= c /\ c <= doclen s /\
    (forall k, b <= k < c -> document s !! Z.to_nat k <> Some ch_NL) /\
    (col s <= 0 -> c = b).
Proof.
  intros Hwf Hf. pose proof (wf_layout s Hwf) as Hl. pose proof Hwf as [_ _ _ H4 H5].
  destruct (prevline_total fuel s (idx s)) as (a & Ha & Ha0 & Ha1); auto.
  { eapply enough_offset; eauto. }
  destruct (prevline_total fuel s (a - 1)) as (b & Hb & Hb0 & Hb1); auto; try lia.
  { eapply enough_offset; eauto. lia. }
  destruct (adjust_walk fuel s b (col s) Hwf Hf) as (c & Hc & Hc0 & Hline & Hzero); [lia|].
  exists a, b, c. unfold up. rewrite Ha. cbn [bind]. rewrite Hb. cbn [bind].
  rewrite Hc. cbn [bind]. repeat split; auto; lia.
Qed.

(** ** Loading and saving *)

Lemma write_bytes_below l : forall m a x,
  x < a -> write_bytes m a l !!! x = m !!! x.
Proof.
  induction l as [|c l IH]; intros m a x Hx; simpl; [reflexivity|].
  rewrite IH by lia. apply lookup_total_insert_ne. lia.
Qed.

Lemma bytes_write_bytes l : forall m a,
  bytes (write_bytes m a l) a (Z.of_nat (length l)) = l.
Proof.
  induction l as [|c l IH]; intros m a; [reflexivity|].
  cbn [length write_bytes]. rewrite bytes_cons by lia.
  rewrite write_bytes_below by lia. rewrite lookup_total_insert_eq. f_equal.
  replace (Z.of_nat (S (length l)) - 1) with (Z.of_nat (length l)) by lia.
  apply IH.
Qed.

Lemma startup_document base BUF arg :
  0 <= BUF ->
  document (startup base BUF arg) = loaded BUF arg /\
  gap (startup base BUF arg) = base + Z.of_nat (length (loaded BUF arg)) /\
  egap (startup base BUF arg) = base + BUF /\
  buf (startup base BUF arg) = base /\
  ebuf (startup base BUF arg) = base + BUF.
Proof.
  intros HB. unfold startup, document.
  destruct arg as [|nm|nm|nm data]; simpl.
  - rewrite !bytes_nil by lia. repeat split; lia.
  - rewrite !bytes_nil by lia. repeat split; lia.
  - destruct (Z.ltb_spec (base + -1) base); [|lia]. simpl.
    rewrite !bytes_nil by lia. repeat split; lia.
  - destruct (Z.ltb_spec (base + Z.of_nat (length (take (Z.to_nat BUF) data))) base);
      [lia|]. simpl.
    replace (base + Z.of_nat (length (take (Z.to_nat BUF) data)) - base)
      with (Z.of_nat (length (take (Z.to_nat BUF) data))) by lia.
    rewrite bytes_write_bytes, bytes_nil by lia. rewrite app_nil_r.
    repeat split; lia.
Qed.

Lemma startup_flags base BUF arg :
  idx (startup base BUF arg) = 0 /\ dirty (startup base BUF arg) = 0.
Proof.
  unfold startup. split; [reflexivity|].
  destruct arg; simpl;
    repeat match goal with
      | |- context [?a <? ?b] => destruct (Z.ltb_spec a b)
      end; reflexivity.
Qed.

(** X9.  At the label [out] of [main] the document is what was read of
    the file: its first [BUF] bytes, or nothing where there is no file
    argument or [open] or [read] fails.  The gap follows the document
    and takes the rest of the buffer, the cursor is at offset 0, the
    dirty flag is 0 and the state is well formed. *)
Theorem startup_holds_the_file (base BUF : Z) (arg : file_arg) :
  0 <= BUF ->
  document (startup base BUF arg) = loaded BUF arg /\
  doclen (startup base BUF arg) = Z.of_nat (length (loaded BUF arg)) /\
  room (startup base BUF arg) = BUF - Z.of_nat (length (loaded BUF arg)) /\
  gap (startup base BUF arg) = buf (startup base BUF arg) + doclen (startup base BUF arg) /\
  idx (startup base BUF arg) = 0 /\
  dirty (startup base BUF arg) = 0 /\
  wf (startup base BUF arg).
Proof.
  intros HB.
  destruct (startup_document base BUF arg HB) as (Hd & Hg & He & Hb & Heb).
  destruct (startup_ok 16 2 ltac:(lia) ltac:(lia) base BUF arg HB) as [Hwf _].
  destruct (startup_flags base BUF arg) as [Hi Hdirty].
  unfold doclen, room. rewrite Hd, Hg, He, Hb, Heb.
  split; [reflexivity|]. split; [lia|]. split; [lia|]. split; [lia|].
  split; [exact Hi|]. split; [exact Hdirty|exact Hwf].
Qed.

(** X10.  [save_file] on a well-formed state returns.  With a file
    name, kept or typed, and a successful [open] it writes exactly the
    document, clears the dirty flag, and leaves the document and the
    cursor as they were; without a name or when [open] fails it writes
    nothing and leaves the dirty flag alone.  Without a name and
    without a typed one the state is returned unchanged. *)
Theorem save_file_writes_document (s : state) (fuel : nat)
    (typed : option (list Z)) (open_ok : bool) :
  wf s -> enough s fuel ->
  exists s' out,
    save_file fuel typed open_ok s = Done (s', out) /\
    wf s' /\ document s' = document s /\ idx s' = idx s /\
    (out = None <-> open_ok = false \/ (filename s = None /\ typed = None)) /\
    (forall l, out = Some l -> l = document s /\ dirty s' = 0) /\
    (out = None -> dirty s' = dirty s) /\
    (filename s = None -> typed = None -> s' = s).
Proof.
  intros Hwf Hf.
  assert (Hset : forall v, wf (set_filename v s))
    by (intros v; destruct Hwf; constructor; auto).
  unfold save_file.
  destruct (filename s) as [nm|] eqn:Hname; [rewrite Hname|destruct typed as [nm|]];
    simpl filename; cbv iota; destruct open_ok; simpl negb; cbv iota.
  - destruct (save_path fuel s Hwf Hf) as (s1 & Hrun & Hout & Hwf1 & Hdoc & Hun).
    rewrite Hrun. cbn [bind]. eexists _, _. split; [reflexivity|].
    split; [exact Hwf1|]. split; [exact Hdoc|]. split; [reflexivity|].
    split; [split; [discriminate|intros [H|[H _]]; discriminate]|].
    split; [intros l E; inversion E; subst; split; [exact Hout|reflexivity]|].
    split; [discriminate|discriminate].
  - exists s, None. split; [reflexivity|]. split; [exact Hwf|].
    split; [reflexivity|]. split; [reflexivity|].
    split; [split; auto|]. split; [discriminate|]. split; [reflexivity|discriminate].
  - destruct (save_path fuel (set_filename (Some nm) s) (Hset _) Hf)
      as (s1 & Hrun & Hout & Hwf1 & Hdoc & Hun).
    simpl idx in *. rewrite Hrun. cbn [bind]. eexists _, _. split; [reflexivity|].
    split; [exact Hwf1|]. split; [exact Hdoc|]. split; [reflexivity|].
    split; [split; [discriminate|intros [H|[_ H]]; discriminate]|].
    split; [intros l E; inversion E; subst; split; [exact Hout|reflexivity]|].
    split; [discriminate|discriminate].
  - exists (set_filename (Some nm) s), None. split; [reflexivity|].
    split; [apply Hset|]. split; [reflexivity|]. split; [reflexivity|].
    split; [split; auto|]. split; [discriminate|]. split; [reflexivity|discriminate].
  - exists (set_filename None s), None. split; [reflexivity|].
    split; [apply Hset|]. split; [reflexivity|]. split; [reflexivity|].
    split; [split; auto|]. split; [discriminate|]. split; [reflexivity|].
    intros _ _. rewrite <- Hname. state_eq.
  - exists (set_filename None s), None. split; [reflexivity|].
    split; [apply Hset|]. split; [reflexivity|]. split; [reflexivity|].
    split; [split; auto|]. split; [discriminate|]. split; [reflexivity|].
    intros _ _. rewrite <- Hname. state_eq.
Qed.

(** X11.  A file that is loaded and saved at once is written back as
    it was read: the first [BUF] bytes of the file. *)
Theorem load_then_save_round_trip (base BUF : Z) (nm data : list Z)
    (fuel : nat) (typed : option (list Z)) :
  0 <= BUF -> (Z.to_nat BUF + 2 < fuel)%nat ->
  exists s',
    save_file fuel typed true (startup base BUF (Contents nm data))
      = Done (s', Some (take (Z.to_nat BUF) data)) /\
    document s' = take (Z.to_nat BUF) data /\ idx s' = 0 /\ dirty s' = 0.
Proof.
  intros HB Hfuel.
  destruct (startup_document base BUF (Contents nm data) HB) as (Hd & Hg & He & Hb & Heb).
  destruct (startup_ok 16 2 ltac:(lia) ltac:(lia) base BUF (Contents nm data) HB)
    as [Hwf _].
  assert (Hf : enough (startup base BUF (Contents nm data)) fuel).
  { unfold enough. rewrite Hb, Heb. replace (base + BUF - base) with BUF by lia. exact Hfuel. }
  destruct (save_path fuel _ Hwf Hf) as (s1 & Hrun & Hout & Hwf1 & Hdoc & Hun).
  assert (Hname : filename (startup base BUF (Contents nm data)) = Some nm).
  { unfold startup. simpl.
    destruct (_ <? _); reflexivity. }
  unfold save_file. cbv zeta. rewrite Hname. cbv beta iota. rewrite Hname.
  simpl negb. cbv iota.
  rewrite Hrun. cbn [bind]. rewrite Hout, Hd. simpl loaded.
  eexists. split; [reflexivity|].
  split; [rewrite Hdoc, Hd; reflexivity|]. split; [|reflexivity].
  apply startup_flags.
Qed.

(** ** What a frame shows *)

Lemma insert_gap_at_cursor fuel ch s :
  wf s -> enough s fuel ->
  exists s',
    insert fuel ch s = Done s' /\ wf s' /\ gap s' = buf s' + idx s' /\
    buf s' = buf s /\ ebuf s' = ebuf s.
Proof.
  intros Hwf Hf.
  destruct (decide (ch = ch_BS \/ ch = ch_DEL)) as [Hch|Hch].
  - destruct (insert_delete s fuel ch Hwf Hf Hch)
      as (s' & Hrun & Hwf' & Hb & He & _ & Hi & Hg & _).
    exists s'. repeat split; auto; try apply Hwf'. lia.
  - assert (ch <> ch_BS /\ ch <> ch_DEL) as [Hbs Hdel] by tauto.
    destruct (decide (doclen s < ebuf s - buf s)) as [Hroom|Hroom].
    + destruct (insert_store s fuel ch Hwf Hf Hbs Hdel Hroom)
        as (s' & Hrun & Hwf' & Hb & He & _ & Hi & Hg & _).
      exists s'. repeat split; auto; try apply Hwf'. lia.
    + assert (Hfull : doclen s = ebuf s - buf s)
        by (destruct Hwf; unfold doclen in *; lia).
      destruct (insert_full s fuel ch Hwf Hf Hbs Hdel Hfull)
        as (s' & Hrun & Hwf' & Hb & He & _ & Hi & Hg & _).
      exists s'. repeat split; auto; try apply Hwf'. lia.
Qed.

Section Shown.

Variables COL_MAX ROW_MAX : Z.
Hypothesis Hcol : 16 <= COL_MAX.
Hypothesis Hrow : 2 <= ROW_MAX.
Hypothesis Hdiv : COL_MAX `mod` 8 = 0.

Lemma render_text fuel : forall s i j s',
  render COL_MAX ROW_MAX fuel s i j = Done s' -> text s' = text s.
Proof.
  induction fuel as [|fuel IH]; intros s i j s' H; [discriminate|].
  cbn [render] in H.
  set (s1 := if idx s =? epage s then set_col j (set_row i s) else s) in *.
  assert (Hs1 : text s1 = text s) by (subst s1; destruct (idx s =? epage s); reflexivity).
  destruct ((ROW_MAX - 1 <=? i) || (ebuf s1 <=? ptr s1 (epage s1))).
  - inversion H. subst. exact Hs1.
  - apply bind_done in H as (c & Hc & H).
    apply bind_done in H as ([scr j1] & _ & H).
    destruct (if (c =? ch_NL) || (COL_MAX <=? j1) then (i + 1, 0) else (i, j1)) as [i2 j2].
    apply IH in H. rewrite H. exact Hs1.
Qed.

(** A frame returns; it keeps the text, and the line number it leaves
    counts the newlines among the first [idx] bytes of the buffer. *)
Lemma update_display_result fuel s :
  steady COL_MAX ROW_MAX s -> enough s fuel ->
  exists s',
    update_display COL_MAX ROW_MAX fuel s = Done s' /\
    steady COL_MAX ROW_MAX s' /\ text s' = text s /\
    0 <= page s' <= epage s' /\ epage s' <= doclen s /\
    line s' = 1 + newlines (bytes (mem s) (buf s) (idx s)).
Proof.
  intros [Hwf Hcell] Hf.
  destruct (update_display_spec COL_MAX ROW_MAX Hcol Hrow Hdiv fuel s Hwf Hcell Hf)
    as (pg & e & scr & r & c & n & Hrun & Hpg & He & Hr & Hc & _).
  eexists. split; [exact Hrun|].
  split; [split; [destruct Hwf; constructor; auto|unfold cell_ok; simpl; lia]|].
  split; [reflexivity|]. split; [simpl; lia|]. split; [exact He|].
  simpl line.
  unfold update_display in Hrun.
  apply bind_done in Hrun as (scr0 & _ & Hrun).
  apply bind_done in Hrun as (s1 & H1 & Hrun).
  apply bind_done in Hrun as (s2 & H2 & Hrun).
  apply bind_done in Hrun as (s3 & H3 & Hrun).
  set (s0 := set_screen scr0 s) in *.
  assert (T1 : text s1 = text s).
  { destruct (idx s0 <? page s0).
    - apply bind_done in H1 as (p1 & _ & H1). inversion H1. reflexivity.
    - inversion H1. reflexivity. }
  assert (T2 : text s2 = text s1).
  { destruct (epage s1 <=? idx s1).
    - apply bind_done in H2 as (p1 & _ & H2).
      apply bind_done in H2 as (p2 & _ & H2). inversion H2. reflexivity.
    - inversion H2. reflexivity. }
  apply render_text in H3. simpl in H3.
  assert (T3 : text s3 = text s).
  { rewrite H3. transitivity (text s2); [reflexivity|]. congruence. }
  rewrite get_lineno_counts_buffer in Hrun
    by (eauto using text_wf, text_enough).
  apply (f_equal (fun o => match o with Done x => line x | _ => 0 end)) in Hrun.
  simpl in Hrun. rename Hrun into E.
  unfold text in T3. injection T3 as Tb _ _ _ Tm Ti _ _.
  rewrite <- E, Tb, Tm, Ti. reflexivity.
Qed.

(** X12.  At a width that is a multiple of 8, a frame on a state of a
    run returns, with every store inside the screen array.  It changes
    the screen, the page, the cursor cell and the line number only: the
    buffer, the document, the cursor, the dirty flag and the file name
    are as before; the page it leaves is a range of the document,
    [0 <= page <= epage <= doclen]. *)
Theorem frame_leaves_text_alone (s : state) (fuel : nat) :
  steady COL_MAX ROW_MAX s -> enough s fuel ->
  exists s',
    update_display COL_MAX ROW_MAX fuel s = Done s' /\
    text s' = text s /\
    document s' = document s /\
    0 <= page s' /\ page s' <= epage s' /\ epage s' <= doclen s' /\
    steady COL_MAX ROW_MAX s'.
Proof.
  intros Hst Hf.
  destruct (update_display_result fuel s Hst Hf)
    as (s' & Hrun & Hst' & Htx & Hpg & He & _).
  exists s'. split; [exact Hrun|]. split; [exact Htx|].
  split; [apply text_document, Htx|].
  rewrite (text_doclen _ _ Htx). repeat split; auto; try lia; apply Hst'.
Qed.


(** X14.  At a width that is a multiple of 8, the frame that follows
    a key handled by [insert], whatever the key, reports the line of
    the cursor. *)
Theorem line_number_after_edit (s : state) (fuel : nat) (ch : Z) :
  steady COL_MAX ROW_MAX s -> enough s fuel ->
  exists s1 s2,
    insert fuel ch s = Done s1 /\
    update_display COL_MAX ROW_MAX fuel s1 = Done s2 /\
    line s2 = cursor_line s2.
Proof.
  intros Hst Hf. pose proof Hst as [Hwf Hcell].
  destruct (insert_gap_at_cursor fuel ch s Hwf Hf) as (s1 & Hrun & Hwf1 & Hg & Hb & He).
  destruct (dispatch_ok COL_MAX ROW_MAX Hcol Hrow fuel (Insert ch) s s1) as (Hst1 & _);
    auto.
  assert (Hf1 : enough s1 fuel) by (eapply enough_same; eauto).
  destruct (update_display_result fuel s1 Hst1 Hf1)
    as (s2 & Hrun2 & Hst2 & Htx & _ & _ & Hline).
  exists s1, s2. split; [exact Hrun|]. split; [exact Hrun2|].
  rewrite Hline. unfold cursor_line. rewrite (text_document _ _ Htx).
  unfold text in Htx. injection Htx as _ _ _ _ _ -> _ _.
  destruct Hwf1 as [H1 H2 H3 H4 H5].
  unfold document.
  rewrite take_app_le by (rewrite bytes_length; lia).
  rewrite bytes_take by lia. reflexivity.
Qed.

End Shown.

(** ** The frame of an empty document *)

Section Blank.

Variables COL_MAX ROW_MAX : Z.

Lemma fold_put_keeps i k l : forall scr : gmap Z Z,
  scr !! k = Some ch_SPACE ->
  foldl (fun scr j => <[i * COL_MAX + j := ch_SPACE]> scr) scr l !! k = Some ch_SPACE.
Proof.
  induction l as [|j l IH]; intros scr H; simpl; [exact H|].
  apply IH. destruct (decide (i * COL_MAX + j = k)) as [->|Hne].
  - apply lookup_insert_eq.
  - rewrite lookup_insert_ne by exact Hne. exact H.
Qed.

Lemma fold_put_hits i j l : forall scr : gmap Z Z,
  j ∈ l ->
  foldl (fun scr j => <[i * COL_MAX + j := ch_SPACE]> scr) scr l !! (i * COL_MAX + j)
    = Some ch_SPACE.
Proof.
  induction l as [|j' l IH]; intros scr Hj; [inversion Hj|].
  simpl. apply elem_of_cons in Hj as [->|Hj].
  - apply fold_put_keeps. apply lookup_insert_eq.
  - apply IH, Hj.
Qed.

Lemma fold_rows_keeps k cols rows : forall scr : gmap Z Z,
  scr !! k = Some ch_SPACE ->
  foldl (fun scr i =>
           foldl (fun scr j => <[i * COL_MAX + j := ch_SPACE]> scr) scr cols)
        scr rows !! k = Some ch_SPACE.
Proof.
  induction rows as [|i rows IH]; intros scr H; simpl; [exact H|].
  apply IH, fold_put_keeps, H.
Qed.

(** The blanking loops leave a space in every cell of the grid. *)
Lemma blank_cell scr i j :
  0 <= i < ROW_MAX - 1 -> 0 <= j < COL_MAX ->
  blank COL_MAX ROW_MAX scr !! (i * COL_MAX + j) = Some ch_SPACE.
Proof.
  intros Hi Hj. unfold blank.
  assert (Hin : i ∈ seqZ 0 (ROW_MAX - 1)) by (apply elem_of_seqZ; lia).
  revert scr. induction (seqZ 0 (ROW_MAX - 1)) as [|i' rows IH]; intros scr;
    [inversion Hin|].
  simpl. apply elem_of_cons in Hin as [<-|Hin].
  - apply fold_rows_keeps, fold_put_hits, elem_of_seqZ. lia.
  - apply IH, Hin.
Qed.

Lemma page_back_zero fuel s n :
  layout s -> enough s fuel -> page_back fuel s n 0 = Done 0.
Proof.
  intros Hl Hf. induction n as [|n IH]; simpl; [reflexivity|].
  destruct (prevline_total fuel s (0 - 1)) as (r & Hr & Hr0 & Hr1); auto.
  { destruct Hl as (H1 & H2 & H3). unfold doclen. lia. }
  { destruct (enough_pos _ _ Hf) as [f ->]. simpl. lia. }
  rewrite Hr. cbn [bind]. replace r with 0 by lia. exact IH.
Qed.

(** X15.  The frame of an empty document: every cell of the grid is a
    space, the cursor cell is row 0, column 0, the page is the empty
    range at offset 0 and the line number is 1, whatever the page and
    the cell of the frame before. *)
Theorem empty_document_frame (s : state) (fuel : nat) :
  steady COL_MAX ROW_MAX s -> enough s fuel ->
  doclen s = 0 ->
  exists s',
    update_display COL_MAX ROW_MAX fuel s = Done s' /\
    (row s', col s') = (0, 0) /\
    (page s', epage s') = (0, 0) /\
    line s' = 1 /\
    (forall i j, 0 <= i < ROW_MAX - 1 -> 0 <= j < COL_MAX ->
                 screen s' !! (i * COL_MAX + j) = Some ch_SPACE).
Proof.
  intros [Hwf Hcell] Hf Hempty. pose proof (wf_layout s Hwf) as Hl.
  pose proof Hl as (L1 & L2 & L3). pose proof Hwf as [_ _ _ Hi0 Hi1].
  destruct Hcell as (Hr & Hc & Hp).
  assert (Hidx : idx s = 0) by lia.
  assert (Hptr : ptr s 0 = ebuf s) by (unfold ptr, doclen in *; zcases; lia).
  destruct (enough_pos _ _ Hf) as [fuel' ->].
  unfold update_display. rewrite clear_screen_done. cbn [bind].
  set (s0 := set_screen (blank COL_MAX ROW_MAX (screen s)) s).
  assert (Hl0 : layout s0) by exact Hl.
  assert (H1 : (if idx s0 <? page s0
                then pg <- prevline (S fuel') s0 (idx s0) ;; Done (set_page pg s0)
                else Done s0) = Done (set_page 0 s0)).
  { change (idx s0) with (idx s). change (page s0) with (page s). rewrite Hidx.
    destruct (Z.ltb_spec 0 (page s)) as [Hlt|Hge].
    - destruct (prevline_total (S fuel') s0 0) as (r & Hrun & Hr0 & Hr1); auto.
      { change (doclen s0) with (doclen s). lia. }
      { simpl. lia. }
      rewrite Hrun. cbn [bind]. do 2 f_equal. lia.
    - subst s0. state_eq. }
  rewrite H1. cbn [bind].
  set (s1 := set_page 0 s0).
  assert (Hl1 : layout s1) by exact Hl.
  assert (H2 : (if epage s1 <=? idx s1
                then pg <- nextline (S fuel') s1 (idx s1) ;;
                     pg' <- page_back (S fuel') s1
                              (Z.to_nat (if pg =? pos s1 (ebuf s1)
                                         then ROW_MAX - 3 else ROW_MAX - 1)) pg ;;
                     Done (set_page pg' s1)
                else Done s1) = Done s1).
  { destruct (epage s1 <=? idx s1); [|reflexivity].
    assert (Hfuel : (Z.to_nat (doclen s1 - idx s1) < S fuel')%nat).
    { change (idx s1) with (idx s). change (doclen s1) with (doclen s).
      rewrite Hidx, Hempty. simpl. lia. }
    assert (Hrange : 0 <= idx s1 <= doclen s1).
    { change (idx s1) with (idx s). change (doclen s1) with (doclen s). lia. }
    destruct (nextline_total (S fuel') s1 (idx s1) Hl1 Hrange Hfuel) as (a & Hrun & Ha).
    change (idx s1) with (idx s) in *. change (doclen s1) with (doclen s) in Ha.
    assert (a = 0) by lia. subst a.
    rewrite Hrun. cbn [bind].
    rewrite page_back_zero by (auto; exact Hf). cbn [bind].
    subst s1. state_eq. }
  rewrite H2. cbn [bind].
  cbn [render].
  change (idx (set_epage (page s1) s1)) with (idx s).
  change (epage (set_epage (page s1) s1)) with 0.
  rewrite Hidx. simpl (0 =? 0). cbv iota.
  set (s3 := set_col 0 (set_row 0 (set_epage (page s1) s1))).
  change (ptr s3 (epage s3)) with (ptr s 0). change (ebuf s3) with (ebuf s).
  rewrite Hptr. rewrite Z.leb_refl, orb_true_r.
  cbn [bind].
  destruct (get_lineno_total (S fuel') s3) as (n & Hn); auto.
  { destruct Hwf. constructor; auto. }
  assert (Hone : n = 1).
  { rewrite get_lineno_counts_buffer in Hn by (auto; destruct Hwf; constructor; auto).
    apply (f_equal (fun o => match o with Done x => line x | _ => 0 end)) in Hn.
    simpl in Hn. rewrite Hidx in Hn. rewrite bytes_nil in Hn by lia.
    unfold newlines in Hn. simpl in Hn. lia. }
  rewrite Hn. eexists. split; [reflexivity|]. simpl.
  split; [reflexivity|]. split; [reflexivity|]. split; [exact Hone|].
  intros i j Hi Hj. apply blank_cell; auto.
Qed.

End Blank.

(** ** [putn] *)

Lemma array_write_in a i v :
  0 <= i < Z.of_nat (length a) -> array_write a i v = Done (<[Z.to_nat i := v]> a).
Proof. intros H. unfold array_write. zcases; simpl; auto; lia. Qed.

Lemma array_write_out a i v :
  Z.of_nat (length a) <= i -> array_write a i v = Fault i.
Proof. intros H. unfold array_write. zcases; simpl; auto; lia. Qed.

Lemma array_read_in a i v :
  0 <= i -> a !! Z.to_nat i = Some v -> array_read a i = Done v.
Proof. intros H E. unfold array_read. destruct (Z.leb_spec 0 i); [|lia]. now rewrite E. Qed.

Lemma low_digits_length k n : length (low_digits k n) = k.
Proof. revert n. induction k as [|k IH]; intros n; simpl; auto. Qed.

Lemma low_digits_range k : forall n, Forall (fun c => 48 <= c <= 57) (low_digits k n).
Proof.
  induction k as [|k IH]; intros n; simpl; constructor; auto.
  pose proof (Z.mod_pos_bound n 10). lia.
Qed.

(** The digits loop for a number below [10 ^ k] with room for [k]
    digits from index [i] on. *)
Lemma putn_digits_spec (k : nat) : forall fuel n tmp i,
  0 <= n < 10 ^ Z.of_nat k -> (0 < k)%nat ->
  0 <= i -> i + Z.of_nat k <= Z.of_nat (length tmp) ->
  (k <= fuel)%nat ->
  exists d : nat,
    (0 < d <= k)%nat /\
    putn_digits fuel n tmp i
      = Done (take (Z.to_nat i) tmp ++ low_digits d n
                ++ drop (Z.to_nat i + d) tmp, i + Z.of_nat d) /\
    n < 10 ^ Z.of_nat d /\
    (n <> 0 -> 10 ^ (Z.of_nat d - 1) <= n).
Proof.
  induction k as [|k IH]; intros fuel n tmp i Hn Hk Hi Hroom Hfuel; [lia|].
  destruct fuel as [|fuel]; [lia|].
  cbn [putn_digits]. rewrite array_write_in by lia. cbn [bind].
  assert (Hupd : <[Z.to_nat i := n `mod` 10 + 48]> tmp
                 = take (Z.to_nat i) tmp ++ [n `mod` 10 + 48]
                     ++ drop (Z.to_nat i + 1) tmp).
  { rewrite insert_take_drop by lia.
    replace (Z.to_nat i + 1)%nat with (S (Z.to_nat i)) by lia. reflexivity. }
  destruct (Z.ltb_spec 0 (n `div` 10)) as [Hmore|Hlast].
  - assert (Hk1 : (0 < k)%nat).
    { destruct k; [|lia]. simpl in Hn. assert (n `div` 10 = 0) by (apply Z.div_small; lia).
      lia. }
    assert (Hdiv : 0 <= n `div` 10 < 10 ^ Z.of_nat k).
    { split; [lia|]. apply Z.div_lt_upper_bound; [lia|].
      replace (10 * 10 ^ Z.of_nat k) with (10 ^ Z.of_nat (S k)); [lia|].
      rewrite Nat2Z.inj_succ, Z.pow_succ_r by lia. reflexivity. }
    destruct (IH fuel (n `div` 10) (<[Z.to_nat i := n `mod` 10 + 48]> tmp) (i + 1))
      as (d & Hd & Hrun & Hlt & Hge); auto; try lia.
    { rewrite length_insert. lia. }
    exists (S d). split; [lia|]. split.
    + rewrite Hrun. f_equal. f_equal; [|lia].
      rewrite Hupd. cbn [low_digits].
      replace (Z.to_nat (i + 1)) with (Z.to_nat i + 1)%nat by lia.
      assert (Hlen : length (take (Z.to_nat i) tmp) = Z.to_nat i)
        by (rewrite length_take; lia).
      rewrite take_app_ge by lia. rewrite Hlen.
      replace (Z.to_nat i + 1 - Z.to_nat i)%nat with 1%nat by lia.
      rewrite drop_app_ge by lia. rewrite Hlen.
      replace (Z.to_nat i + 1 + d - Z.to_nat i)%nat with (S d) by lia.
      cbn [app take drop]. rewrite take_0, drop_drop. cbn [app].
      rewrite <- !app_assoc. cbn [app].
      do 3 f_equal. f_equal. lia.
    + rewrite Nat2Z.inj_succ, Z.pow_succ_r by lia.
      replace (Z.succ (Z.of_nat d) - 1) with (Z.of_nat d) by lia.
      pose proof (Z.div_mod n 10 ltac:(lia)). pose proof (Z.mod_pos_bound n 10 ltac:(lia)).
      split; [lia|]. intros _.
      destruct (decide (n `div` 10 = 0)) as [E|E]; [lia|].
      specialize (Hge E).
      replace (Z.of_nat d) with (Z.succ (Z.of_nat d - 1)) by lia.
      rewrite Z.pow_succ_r by lia. lia.
  - assert (Hsmall : n < 10).
    { pose proof (Z.div_mod n 10 ltac:(lia)). pose proof (Z.mod_pos_bound n 10 ltac:(lia)).
      assert (0 <= n `div` 10) by (apply Z.div_pos; lia). lia. }
    exists 1%nat. split; [lia|]. split.
    + rewrite Hupd. cbn [low_digits]. reflexivity.
    + split; [simpl; lia|]. intros Hn0. simpl. lia.
Qed.

(** The copy loop reverses the first [i + 1] elements of [tmp] into
    [num] from index [j] on. *)
Lemma putn_copy_spec fuel : forall tmp num i j,
  -1 <= i < Z.of_nat (length tmp) -> 0 <= j ->
  j + i + 1 <= Z.of_nat (length num) ->
  (Z.to_nat (i + 1) < fuel)%nat ->
  putn_copy fuel tmp num i j
    = Done (take (Z.to_nat j) num ++ rev (take (Z.to_nat (i + 1)) tmp)
              ++ drop (Z.to_nat (j + i + 1)) num, j + i + 1).
Proof.
  induction fuel as [|fuel IH]; intros tmp num i j Hi Hj Hroom Hf; [lia|].
  cbn [putn_copy]. destruct (Z.leb_spec 0 i) as [Hge|Hneg].
  - destruct (tmp !! Z.to_nat i) as [c|] eqn:Hc.
    2:{ apply lookup_ge_None in Hc. lia. }
    rewrite (array_read_in _ _ _ Hge Hc). cbn [bind].
    rewrite array_write_in by lia. cbn [bind].
    rewrite IH by (rewrite ?length_insert; lia).
    f_equal. f_equal; [|lia].
    replace (Z.to_nat (i + 1)) with (S (Z.to_nat i)) by lia.
    rewrite (take_S_r _ _ _ Hc), rev_app_distr. cbn [rev app].
    replace (Z.to_nat (i - 1 + 1)) with (Z.to_nat i) by lia.
    replace (Z.to_nat (j + 1)) with (S (Z.to_nat j)) by lia.
    assert (Hjl : (Z.to_nat j < length num)%nat) by lia.
    destruct (lookup_lt_is_Some_2 num _ Hjl) as [x Hx].
    rewrite (take_S_r (<[Z.to_nat j := c]> num) (Z.to_nat j) c)
      by (apply list_lookup_insert_eq; lia).
    rewrite take_insert_ge by lia.
    replace (Z.to_nat (j + 1 + (i - 1) + 1)) with (Z.to_nat (j + i + 1)) by lia.
    rewrite drop_insert_lt by lia.
    rewrite <- !app_assoc. reflexivity.
  - replace (Z.to_nat (i + 1)) with O by lia.
    replace (j + i + 1) with j by lia. simpl. now rewrite take_drop.
Qed.

(** ** What [putn] returns *)

Lemma decimal_snoc l c : decimal (l ++ [c]) = 10 * decimal l + (c - 48).
Proof. unfold decimal. now rewrite foldl_app. Qed.

Lemma decimal_low_digits d : forall n,
  0 <= n -> decimal (rev (low_digits d n)) = n `mod` 10 ^ Z.of_nat d.
Proof.
  induction d as [|d IH]; intros n Hn.
  - simpl. now rewrite Z.mod_1_r.
  - cbn [low_digits rev]. rewrite decimal_snoc, IH by (apply Z.div_pos; lia).
    rewrite Nat2Z.inj_succ, Z.pow_succ_r by lia.
    rewrite (Z.rem_mul_r n 10 (10 ^ Z.of_nat d)) by lia. lia.
Qed.

Lemma cstring_terminated l r :
  Forall (fun c => c <> 0) l -> cstring (l ++ 0 :: r) = l.
Proof.
  induction 1 as [|c l Hc _ IH]; simpl; [reflexivity|].
  destruct (Z.eqb_spec c 0); [contradiction|]. now rewrite IH.
Qed.

(** X16.  For a number below 10,000,000, [putn] fills neither of its
    two arrays beyond its end and returns the decimal numeral of the
    number: between one and seven digit characters, ended by a NUL,
    that denote the number, with no leading zero. *)
Theorem putn_writes_decimal (fuel : nat) (n : Z) (tmp num : list Z) :
  length tmp = 7%nat -> length num = 8%nat ->
  0 <= n < 10 ^ 7 -> (8 <= fuel)%nat ->
  exists num',
    putn fuel n tmp num = Done num' /\
    length num' = 8%nat /\
    decimal (cstring num') = n /\
    Forall (fun c => 48 <= c <= 57) (cstring num') /\
    (1 <= length (cstring num') <= 7)%nat /\
    n < 10 ^ Z.of_nat (length (cstring num')) /\
    (n <> 0 -> 10 ^ (Z.of_nat (length (cstring num')) - 1) <= n).
Proof.
  intros Ht Hnum Hn Hfuel.
  destruct (putn_digits_spec 7 fuel n tmp 0) as (d & Hd & Hrun & Hlt & Hge);
    try lia.
  unfold putn. rewrite Hrun. cbn [bind].
  change (Z.to_nat 0) with O. rewrite take_0. cbn [app]. simpl (0 + d)%nat.
  assert (Hlen' : length (low_digits d n ++ drop d tmp) = 7%nat).
  { rewrite length_app, low_digits_length, length_drop. lia. }
  rewrite putn_copy_spec by lia.
  cbn [bind]. change (Z.to_nat 0) with O. rewrite take_0. cbn [app].
  replace (Z.to_nat (0 + Z.of_nat d - 1 + 1)) with d by lia.
  replace (0 + (0 + Z.of_nat d - 1) + 1) with (Z.of_nat d) by lia.
  rewrite take_app_length' by (now rewrite low_digits_length).
  rewrite Nat2Z.id.
  set (digits := rev (low_digits d n)).
  assert (Hdl : length digits = d) by (subst digits; now rewrite length_rev, low_digits_length).
  rewrite array_write_in by (rewrite length_app, length_drop; lia).
  rewrite Nat2Z.id.
  destruct (drop d num) as [|x rest] eqn:Hrest.
  { apply (f_equal length) in Hrest. rewrite length_drop in Hrest. simpl in Hrest. lia. }
  assert (Hins : <[d := 0]> (digits ++ x :: rest) = digits ++ 0 :: rest).
  { rewrite insert_app_r_alt by lia. rewrite Hdl, Nat.sub_diag. reflexivity. }
  rewrite Hins.
  assert (Hrange : Forall (fun c => 48 <= c <= 57) digits).
  { subst digits. apply Forall_rev, low_digits_range. }
  assert (Hstr : cstring (digits ++ 0 :: rest) = digits).
  { apply cstring_terminated. eapply Forall_impl; [|exact Hrange]. simpl. intros c Hc. lia. }
  eexists. split; [reflexivity|]. rewrite Hstr, Hdl.
  split.
  { apply (f_equal length) in Hrest. rewrite length_drop in Hrest.
    rewrite length_app. simpl in *. lia. }
  split.
  { subst digits. rewrite decimal_low_digits by lia. apply Z.mod_small. lia. }
  split; [exact Hrange|]. split; [lia|]. split; [exact Hlt|exact Hge].
Qed.

Lemma putn_digits_overflow (k : nat) : forall fuel n tmp i,
  10 ^ Z.of_nat k <= n -> 0 <= i -> i + Z.of_nat k = Z.of_nat (length tmp) ->
  (k < fuel)%nat ->
  putn_digits fuel n tmp i = Fault (Z.of_nat (length tmp)).
Proof.
  induction k as [|k IH]; intros fuel n tmp i Hn Hi Hlen Hfuel;
    (destruct fuel as [|fuel]; [lia|]); cbn [putn_digits].
  - rewrite array_write_out by lia. cbn [bind]. f_equal. lia.
  - rewrite array_write_in by lia. cbn [bind].
    assert (Hdiv : 10 ^ Z.of_nat k <= n `div` 10).
    { apply Z.div_le_lower_bound; [lia|].
      rewrite Nat2Z.inj_succ, Z.pow_succ_r in Hn by lia. lia. }
    assert (0 < 10 ^ Z.of_nat k) by (apply Z.pow_pos_nonneg; lia).
    destruct (Z.ltb_spec 0 (n `div` 10)); [|lia].
    rewrite IH by (rewrite ?length_insert; lia).
    now rewrite length_insert.
Qed.

(** X17.  For a number of 10,000,000 or more [putn] writes an eighth
    digit behind the seven elements of its local array [tmp]. *)
Theorem putn_overflows_from_eight_digits (fuel : nat) (n : Z) (tmp num : list Z) :
  length tmp = 7%nat -> 10 ^ 7 <= n -> (8 <= fuel)%nat ->
  putn fuel n tmp num = Fault 7.
Proof.
  intros Ht Hn Hfuel. unfold putn.
  rewrite (putn_digits_overflow 7) by (rewrite ?Ht; lia).
  rewrite Ht. reflexivity.
Qed.

(** ** [strdcpy] and [strdcat] *)

Lemma array_read_app_r pre c r :
  array_read (pre ++ c :: r) (Z.of_nat (length pre)) = Done c.
Proof.
  apply array_read_in; [lia|]. rewrite Nat2Z.id.
  rewrite lookup_app_r by lia. now rewrite Nat.sub_diag.
Qed.

Lemma write_at_prefix (pre : list Z) (old c : Z) (r : list Z) :
  array_write (pre ++ old :: r) (Z.of_nat (length pre)) c = Done (pre ++ c :: r).
Proof.
  rewrite array_write_in by (rewrite length_app; simpl; lia).
  rewrite Nat2Z.id, insert_app_r_alt by lia. now rewrite Nat.sub_diag.
Qed.

(** The scan for the end of the string in [dst]. *)
Lemma strdcat_end_spec (s : list Z) : forall fuel pre rest,
  Forall (fun c => c <> 0) s -> (length s < fuel)%nat ->
  strdcat_end fuel (pre ++ s ++ 0 :: rest) (Z.of_nat (length pre))
    = Done (Z.of_nat (length pre + length s)).
Proof.
  induction s as [|c s IH]; intros fuel pre rest Hs Hf;
    (destruct fuel as [|fuel]; [simpl in Hf; lia|]); cbn [strdcat_end].
  - cbn [app]. rewrite array_read_app_r. cbn [bind]. simpl. do 2 f_equal. lia.
  - inversion Hs as [|? ? Hc Hs']; subst.
    cbn [app]. rewrite array_read_app_r. cbn [bind].
    destruct (Z.eqb_spec c 0); [contradiction|]. cbn [negb].
    replace (pre ++ c :: s ++ 0 :: rest) with ((pre ++ [c]) ++ s ++ 0 :: rest)
      by (now rewrite <- app_assoc).
    replace (Z.of_nat (length pre) + 1) with (Z.of_nat (length (pre ++ [c])))
      by (rewrite length_app; simpl; lia).
    rewrite IH by (auto; simpl in Hf; lia).
    rewrite length_app. simpl. do 2 f_equal. lia.
Qed.

(** The copy loop of [strdcpy] over a string [a] and its NUL. *)
Lemma strdcpy_loop_spec (a : list Z) : forall fuel pre old rest spre r i,
  Forall (fun c => c <> 0) a -> length old = S (length a) ->
  (length a < fuel)%nat ->
  strdcpy_loop fuel (pre ++ old ++ rest) (spre ++ a ++ 0 :: r)
               (Z.of_nat (length pre)) (Z.of_nat (length spre)) i
    = Done (pre ++ a ++ 0 :: rest, i + Z.of_nat (length a)).
Proof.
  induction a as [|c a IH]; intros fuel pre old rest spre r i Ha Hold Hf;
    (destruct fuel as [|fuel]; [simpl in Hf; lia|]); cbn [strdcpy_loop].
  - destruct old as [|o [|? ?]]; try discriminate.
    cbn [app]. rewrite array_read_app_r. cbn [bind].
    rewrite write_at_prefix. cbn [bind]. simpl. do 2 f_equal. lia.
  - inversion Ha as [|? ? Hc Ha']; subst.
    destruct old as [|o old]; [discriminate|]. simpl in Hold.
    cbn [app]. rewrite array_read_app_r. cbn [bind].
    rewrite write_at_prefix. cbn [bind].
    destruct (Z.eqb_spec c 0); [contradiction|]. cbn [negb].
    replace (pre ++ c :: old ++ rest) with ((pre ++ [c]) ++ old ++ rest)
      by (now rewrite <- app_assoc).
    replace (spre ++ c :: a ++ 0 :: r) with ((spre ++ [c]) ++ a ++ 0 :: r)
      by (now rewrite <- app_assoc).
    replace (Z.of_nat (length pre) + 1) with (Z.of_nat (length (pre ++ [c])))
      by (rewrite length_app; simpl; lia).
    replace (Z.of_nat (length spre) + 1) with (Z.of_nat (length (spre ++ [c])))
      by (rewrite length_app; simpl; lia).
    rewrite IH by (auto; simpl in Hf; lia).
    rewrite <- app_assoc. simpl. do 2 f_equal. lia.
Qed.

(** X18.  [strdcpy] of a string that fits, its NUL included, puts the
    string and the NUL at the start of [dst], leaves the rest of the
    array as it was and returns the length of the string. *)
Theorem strdcpy_copies_string (fuel : nat) (dst a r : list Z) :
  Forall (fun c => c <> 0) a ->
  (length a < length dst)%nat -> (length a < fuel)%nat ->
  strdcpy fuel dst (a ++ 0 :: r)
    = Done (a ++ 0 :: drop (S (length a)) dst, Z.of_nat (length a)) /\
  cstring (a ++ 0 :: drop (S (length a)) dst) = a.
Proof.
  intros Ha Hroom Hf. split; [|now apply cstring_terminated].
  unfold strdcpy.
  rewrite <- (take_drop (S (length a)) dst) at 1.
  apply (strdcpy_loop_spec a fuel [] (take (S (length a)) dst)
           (drop (S (length a)) dst) [] r 0 Ha); [|exact Hf].
  rewrite length_take. lia.
Qed.

(** ** What [strdcat] appends *)

Lemma unsigned_char_dec L : 1 <= L <= 256 -> (L `mod` 256 - 1) `mod` 256 = L - 1.
Proof.
  intros H. destruct (decide (L = 256)) as [->|Hne]; [reflexivity|].
  rewrite (Z.mod_small L) by lia. apply Z.mod_small. lia.
Qed.

(** The copy loop when the string ends before the count does. *)
Lemma strdcat_loop_whole (a : list Z) : forall fuel pre old rest spre r i L,
  Forall (fun c => c <> 0) a -> Z.of_nat (length a) < L <= 256 ->
  length old = S (length a) -> (length a < fuel)%nat ->
  strdcat_loop fuel (pre ++ old ++ rest) (spre ++ a ++ 0 :: r)
               (Z.of_nat (length pre)) (Z.of_nat (length spre)) i (L `mod` 256)
    = Done (pre ++ a ++ 0 :: rest, i + Z.of_nat (length a)).
Proof.
  induction a as [|c a IH]; intros fuel pre old rest spre r i L Ha HL Hold Hf;
    (destruct fuel as [|fuel]; [simpl in Hf; lia|]); cbn [strdcat_loop].
  - destruct old as [|o [|? ?]]; try discriminate.
    cbn [app]. rewrite array_read_app_r. cbn [bind].
    rewrite write_at_prefix. cbn [bind]. simpl. do 2 f_equal. lia.
  - inversion Ha as [|? ? Hc Ha']; subst.
    destruct old as [|o old]; [discriminate|]. simpl in Hold. simpl length in HL.
    cbn [app]. rewrite array_read_app_r. cbn [bind].
    rewrite write_at_prefix. cbn [bind].
    destruct (Z.eqb_spec c 0); [contradiction|]. cbn [negb].
    rewrite unsigned_char_dec by lia.
    destruct (Z.eqb_spec (L - 1) 0); [lia|].
    replace (pre ++ c :: old ++ rest) with ((pre ++ [c]) ++ old ++ rest)
      by (now rewrite <- app_assoc).
    replace (spre ++ c :: a ++ 0 :: r) with ((spre ++ [c]) ++ a ++ 0 :: r)
      by (now rewrite <- app_assoc).
    replace (Z.of_nat (length pre) + 1) with (Z.of_nat (length (pre ++ [c])))
      by (rewrite length_app; simpl; lia).
    replace (Z.of_nat (length spre) + 1) with (Z.of_nat (length (spre ++ [c])))
      by (rewrite length_app; simpl; lia).
    rewrite <- (Z.mod_small (L - 1) 256) at 1 by lia.
    rewrite IH by (auto; simpl in Hf; lia).
    rewrite <- app_assoc. simpl. do 2 f_equal. lia.
Qed.

(** The copy loop when the count ends first: no NUL is stored. *)
Lemma strdcat_loop_cut (a : list Z) : forall fuel pre old rest spre r i L,
  Forall (fun c => c <> 0) a -> 1 <= L <= Z.of_nat (length a) -> L <= 256 ->
  length old = Z.to_nat L -> (Z.to_nat L <= fuel)%nat ->
  strdcat_loop fuel (pre ++ old ++ rest) (spre ++ a ++ 0 :: r)
               (Z.of_nat (length pre)) (Z.of_nat (length spre)) i (L `mod` 256)
    = Done (pre ++ take (Z.to_nat L) a ++ rest, i + L).
Proof.
  induction a as [|c a IH]; intros fuel pre old rest spre r i L Ha HL HL' Hold Hf;
    [simpl in HL; lia|].
  destruct fuel as [|fuel]; [lia|]. cbn [strdcat_loop].
  inversion Ha as [|? ? Hc Ha']; subst.
  destruct old as [|o old]; [simpl in Hold; lia|]. simpl in Hold. simpl length in HL.
  cbn [app]. rewrite array_read_app_r. cbn [bind].
  rewrite write_at_prefix. cbn [bind].
  destruct (Z.eqb_spec c 0); [contradiction|]. cbn [negb].
  rewrite unsigned_char_dec by lia.
  destruct (Z.eqb_spec (L - 1) 0) as [E|E].
  - assert (L = 1) by lia. subst L. destruct old; [|simpl in Hold; lia].
    simpl. reflexivity.
  - replace (pre ++ c :: old ++ rest) with ((pre ++ [c]) ++ old ++ rest)
      by (now rewrite <- app_assoc).
    replace (spre ++ c :: a ++ 0 :: r) with ((spre ++ [c]) ++ a ++ 0 :: r)
      by (now rewrite <- app_assoc).
    replace (Z.of_nat (length pre) + 1) with (Z.of_nat (length (pre ++ [c])))
      by (rewrite length_app; simpl; lia).
    replace (Z.of_nat (length spre) + 1) with (Z.of_nat (length (spre ++ [c])))
      by (rewrite length_app; simpl; lia).
    rewrite <- (Z.mod_small (L - 1) 256) at 1 by lia.
    rewrite IH by (auto; lia).
    rewrite <- app_assoc.
    replace (Z.to_nat L) with (S (Z.to_nat (L - 1))) by lia.
    simpl. do 2 f_equal. lia.
Qed.

(** X19.  [strdcat] appends to the string in [dst] the string
    [append], cut after [len] bytes.  When [append] is shorter than
    [len] and fits with its NUL, it is stored whole with the NUL and
    its length is returned.  When [append] has [len] bytes or more and
    [len] bytes fit, exactly [len] bytes are stored, [len] is returned,
    and no NUL is stored behind them: the bytes that follow in [dst]
    stay as they were. *)
Theorem strdcat_appends_counted (fuel : nat) (s rest a r : list Z) (len : Z) :
  Forall (fun c => c <> 0) s -> Forall (fun c => c <> 0) a ->
  1 <= len <= 255 ->
  (length s + length a + 1 < fuel)%nat ->
  (Z.of_nat (length a) < len -> (length a <= length rest)%nat ->
   strdcat fuel (s ++ 0 :: rest) (a ++ 0 :: r) len
     = Done (s ++ a ++ 0 :: drop (length a) rest, Z.of_nat (length a))) /\
  (len <= Z.of_nat (length a) -> len <= Z.of_nat (length rest) + 1 ->
   strdcat fuel (s ++ 0 :: rest) (a ++ 0 :: r) len
     = Done (s ++ take (Z.to_nat len) a ++ drop (Z.to_nat len - 1) rest, len)).
Proof.
  intros Hs Ha Hlen Hf.
  assert (Hend : strdcat_end fuel (s ++ 0 :: rest) 0 = Done (Z.of_nat (length s))).
  { apply (strdcat_end_spec s fuel [] rest Hs). lia. }
  unfold strdcat. rewrite Hend. cbn [bind].
  split.
  - intros Hshort Hroom.
    pose proof (strdcat_loop_whole a fuel s (take (S (length a)) (0 :: rest))
                  (drop (S (length a)) (0 :: rest)) [] r 0 len Ha) as H.
    rewrite take_drop, Z.mod_small in H by lia.
    cbn [app length] in H. change (Z.of_nat 0) with 0 in H.
    rewrite H; try lia; [reflexivity|].
    rewrite length_take. simpl. lia.
  - intros Hlong Hroom.
    pose proof (strdcat_loop_cut a fuel s (take (Z.to_nat len) (0 :: rest))
                  (drop (Z.to_nat len) (0 :: rest)) [] r 0 len Ha) as H.
    rewrite take_drop, Z.mod_small in H by lia.
    cbn [app length] in H. change (Z.of_nat 0) with 0 in H.
    rewrite H; try lia.
    + replace (Z.to_nat len) with (S (Z.to_nat len - 1)) at 2 by lia.
      reflexivity.
    + rewrite length_take. simpl. lia.
Qed.

(** ** The name [get_name] returns *)

Section PromptFacts.

Variable COL_MAX : Z.
Hypothesis Hcol : 16 <= COL_MAX.

Lemma name_key_ok s ch :
  Forall (fun c => name_char c = true) s -> Z.of_nat (length s) <= COL_MAX - 6 ->
  Forall (fun c => name_char c = true) (name_key COL_MAX s ch) /\
  Z.of_nat (length (name_key COL_MAX s ch)) <= COL_MAX - 6.
Proof.
  intros Hs Hlen. unfold name_key.
  destruct ((ch =? ch_BS) || (ch =? ch_DEL)).
  - destruct s as [|c s] using rev_ind; [simpl; auto|].
    rewrite removelast_last. rewrite length_app in Hlen. simpl in Hlen.
    apply Forall_app in Hs as [Hs _]. split; [exact Hs|lia].
  - destruct (Z.eqb_spec (Z.of_nat (length s)) (COL_MAX - 6)); [auto|].
    destruct (name_char ch) eqn:E; [|auto].
    split; [apply Forall_app; auto|]. rewrite length_app. simpl. lia.
Qed.

Lemma name_char_nonzero c : name_char c = true -> c <> 0 /\ to_char c = c.
Proof.
  unfold name_char, isalnum, to_char. intros H.
  assert (46 <= c <= 122).
  { repeat match goal with
      | H : context [?a <=? ?b] |- _ => destruct (Z.leb_spec a b)
      | H : context [?a =? ?b] |- _ => destruct (Z.eqb_spec a b)
      end; simpl in H; try discriminate; lia. }
  split; [lia|]. apply Z.mod_small. lia.
Qed.

(** The loop keeps, in the array, the name typed so far and NULs
    behind it. *)
Lemma get_name_loop_spec (input : list Z) : forall line rest s,
  first_line input = Some (line, rest) ->
  Forall (fun c => name_char c = true) s -> Z.of_nat (length s) <= COL_MAX - 6 ->
  exists s',
    s' = foldl (name_key COL_MAX) s line /\
    get_name_loop COL_MAX input
        (s ++ replicate (Z.to_nat (COL_MAX - 5) - length s) 0) (Z.of_nat (length s))
      = Done (s' ++ replicate (Z.to_nat (COL_MAX - 5) - length s') 0,
              Z.of_nat (length s'), rest).
Proof.
  induction input as [|ch input IH]; intros line rest s Hline Hs Hlen; [discriminate|].
  cbn [first_line get_name_loop] in *.
  destruct ((ch =? ch_NL) || (ch =? ch_CR)).
  { inversion Hline; subst. exists s. split; reflexivity. }
  destruct (first_line input) as [[l r]|] eqn:Hrest; [|discriminate].
  inversion Hline; subst. cbn [foldl].
  destruct (name_key_ok s ch Hs Hlen) as [Hs' Hlen'].
  unfold name_key in *.
  destruct ((ch =? ch_BS) || (ch =? ch_DEL)) eqn:Hbs.
  - destruct s as [|c s _] using rev_ind.
    + simpl. apply (IH l rest []); auto.
    + rewrite removelast_last in *. rewrite length_app in *. simpl length in *.
      destruct (Z.eqb_spec (Z.of_nat (length s + 1)) 0); [lia|].
      replace (Z.of_nat (length s + 1) - 1) with (Z.of_nat (length s)) by lia.
      rewrite <- app_assoc. cbn [app].
      rewrite write_at_prefix. cbn [bind].
      replace (0 :: replicate (Z.to_nat (COL_MAX - 5) - (length s + 1)) 0)
        with (replicate (Z.to_nat (COL_MAX - 5) - length s) 0).
      2:{ replace (Z.to_nat (COL_MAX - 5) - length s)%nat
            with (S (Z.to_nat (COL_MAX - 5) - (length s + 1))) by lia.
          reflexivity. }
      apply (IH l rest s); auto.
  - destruct (Z.eqb_spec (Z.of_nat (length s)) (COL_MAX - 6)) as [E|E].
    { apply (IH l rest s); auto. }
    assert (Hnc : negb (isalnum ch) && negb (ch =? 46) && negb (ch =? 95)
                  = negb (name_char ch)).
    { unfold name_char. destruct (isalnum ch), (ch =? 46), (ch =? 95); reflexivity. }
    rewrite Hnc. destruct (name_char ch) eqn:Hch; cbn [negb].
    + destruct (name_char_nonzero ch Hch) as [_ Hto]. rewrite Hto.
      replace (replicate (Z.to_nat (COL_MAX - 5) - length s) 0)
        with (0 :: replicate (Z.to_nat (COL_MAX - 5) - length (s ++ [ch])) 0).
      2:{ rewrite length_app. simpl length.
          replace (Z.to_nat (COL_MAX - 5) - length s)%nat
            with (S (Z.to_nat (COL_MAX - 5) - (length s + 1))) by lia.
          reflexivity. }
      rewrite write_at_prefix. cbn [bind].
      replace (s ++ ch :: replicate (Z.to_nat (COL_MAX - 5) - length (s ++ [ch])) 0)
        with ((s ++ [ch]) ++ replicate (Z.to_nat (COL_MAX - 5) - length (s ++ [ch])) 0)
        by (now rewrite <- app_assoc).
      replace (Z.of_nat (length s) + 1) with (Z.of_nat (length (s ++ [ch])))
        by (rewrite length_app; simpl; lia).
      apply (IH l rest (s ++ [ch])); auto.
    + apply (IH l rest s); auto.
Qed.

(** X20.  When the input holds a line end, [get_name] returns without
    writing outside the array [name].  The name is what the keys before
    the line end make of the empty name, a backspace or DEL removing
    the last byte and any other key adding itself when it is a letter,
    a digit, '.' or '_' and fewer than [COL_MAX - 6] bytes are typed.
    So the name has only those bytes and at most [COL_MAX - 6] of
    them; the null pointer is returned exactly when it is empty.  The
    input behind the line end is left unread. *)
Theorem get_name_returns_clean_name (input line rest : list Z) :
  first_line input = Some (line, rest) ->
  exists nm,
    nm = foldl (name_key COL_MAX) [] line /\
    get_name COL_MAX input = Done (if decide (nm = []) then None else Some nm, rest) /\
    Forall (fun c => name_char c = true) nm /\
    Z.of_nat (length nm) <= COL_MAX - 6.
Proof.
  intros Hline.
  destruct (get_name_loop_spec input line rest [] Hline) as (nm & Hnm & Hrun);
    [constructor|simpl; lia|].
  assert (Hok : Forall (fun c => name_char c = true) nm /\
                Z.of_nat (length nm) <= COL_MAX - 6).
  { subst nm. clear Hrun Hline.
    assert (H0 : Forall (fun c => name_char c = true) (@nil Z) /\
                 Z.of_nat (length (@nil Z)) <= COL_MAX - 6) by (split; [constructor|simpl; lia]).
    revert H0. generalize (@nil Z) as s.
    induction line as [|ch line IH]; intros s [Hs Hl]; simpl; [auto|].
    apply IH. apply name_key_ok; auto. }
  destruct Hok as [Hchars Hlen].
  exists nm. split; [exact Hnm|]. split; [|auto].
  unfold get_name. cbn [app length] in Hrun. change (Z.of_nat 0) with 0 in Hrun.
  rewrite Nat.sub_0_r in Hrun. rewrite Hrun. cbn [bind].
  f_equal. f_equal.
  destruct nm as [|c nm'].
  - simpl. reflexivity.
  - destruct (Z.eqb_spec (Z.of_nat (length (c :: nm'))) 0); [simpl in *; lia|].
    rewrite decide_False by discriminate. f_equal.
    set (pad := (Z.to_nat (COL_MAX - 5) - length (c :: nm'))%nat).
    assert (Hpad : (0 < pad)%nat) by (subst pad; lia).
    destruct pad as [|pad]; [lia|]. simpl replicate.
    apply cstring_terminated.
    eapply Forall_impl; [|exact Hchars]. intros x Hx. now apply name_char_nonzero.
Qed.

End PromptFacts.

(** ** No key makes the editor fault *)

Section Safe.

Variables COL_MAX ROW_MAX : Z.
Hypothesis Hcol : 16 <= COL_MAX.
Hypothesis Hrow : 2 <= ROW_MAX.
Hypothesis Hdiv : COL_MAX `mod` 8 = 0.

Lemma dispatch_total fuel c s :
  steady COL_MAX ROW_MAX s -> enough s fuel ->
  exists s',
    dispatch COL_MAX ROW_MAX fuel c s = Done s' /\
    steady COL_MAX ROW_MAX s' /\ buf s' = buf s /\ ebuf s' = ebuf s.
Proof.
  intros Hst Hf. pose proof Hst as [Hwf Hcell].
  assert (Hrun : exists s', dispatch COL_MAX ROW_MAX fuel c s = Done s').
  { destruct c as [| | | | |typed open_ok| |ch]; simpl; eauto.
    - destruct (up_total fuel s Hwf Hf) as (a & b & v & _ & _ & _ & Hup & _). eauto.
    - destruct (update_display_keeps COL_MAX ROW_MAX Hcol Hrow Hdiv fuel s Hst Hf)
        as (s' & Hrun & _). eauto.
    - destruct (down_total fuel s Hwf Hf) as (v & Hdown & _). eauto.
    - destruct (save_file_spec fuel typed open_ok s Hwf Hf) as (s' & out & Hrun & _).
      rewrite Hrun. cbn [bind]. eauto.
    - destruct (insert_wf fuel ch s Hwf Hf) as (s' & Hrun & _). eauto. }
  destruct Hrun as (s' & Hrun). exists s'. split; [exact Hrun|].
  eapply dispatch_ok; eauto.
Qed.

(** X21.  From a state of a run, at a width that is a multiple of 8,
    whatever commands follow, no frame and no command reads or writes
    a byte outside the buffer or a cell outside the screen array, and
    each of their loops over the buffer and the grid ends: the rounds
    for the commands return a state, which is again well formed with
    its cursor inside the document, in the same buffer.  A command is
    a case of the switch of [main] after its bytes are read; the waits
    for input of [get_name] and [message] are no part of it. *)
Theorem every_key_sequence_returns (cs : list command) : forall (s : state) (fuel : nat),
  steady COL_MAX ROW_MAX s -> enough s fuel ->
  exists s',
    rounds COL_MAX ROW_MAX fuel cs s = Done s' /\
    steady COL_MAX ROW_MAX s' /\ buf s' = buf s /\ ebuf s' = ebuf s.
Proof.
  induction cs as [|c cs IH]; intros s fuel Hst Hf; cbn [rounds].
  - destruct (update_display_keeps COL_MAX ROW_MAX Hcol Hrow Hdiv fuel s Hst Hf)
      as (s' & Hrun & Hst' & Htx).
    exists s'. split; [exact Hrun|]. split; [exact Hst'|].
    unfold text in Htx. injection Htx as -> -> _ _ _ _ _ _. auto.
  - destruct (update_display_keeps COL_MAX ROW_MAX Hcol Hrow Hdiv fuel s Hst Hf)
      as (sa & Hrun & Hsta & Htx).
    pose proof (text_enough _ _ fuel Htx Hf) as Hfa.
    destruct (dispatch_total fuel c sa Hsta Hfa) as (s1 & Hrun1 & Hst1 & Hb1 & He1).
    assert (Hf1 : enough s1 fuel) by (eapply enough_same; eauto).
    destruct (IH s1 fuel Hst1 Hf1) as (s' & Hrun' & Hst' & Hb' & He').
    exists s'. unfold round. rewrite Hrun. cbn [bind]. rewrite Hrun1. cbn [bind].
    split; [exact Hrun'|]. split; [exact Hst'|].
    unfold text in Htx. injection Htx as Hb He _ _ _ _ _ _. split; congruence.
Qed.

End Safe.

(** ** The status line *)

Lemma zeros_split (k m : nat) :
  (k <= m)%nat -> replicate m 0 = replicate k 0 ++ replicate (m - k) 0.
Proof.
  intros H. rewrite <- replicate_add. f_equal. lia.
Qed.

Lemma strlen_spec fuel (a r : list Z) :
  Forall (fun c => c <> 0) a -> (length a < fuel)%nat ->
  strlen fuel (a ++ 0 :: r) = Done (Z.of_nat (length a)).
Proof.
  intros Ha Hf. unfold strlen.
  apply (strdcat_end_spec a fuel [] r Ha Hf).
Qed.

Section StatusLineFacts.

Variable COL_MAX : Z.

(** [strdcpy] into the cleared status line. *)
Lemma strdcpy_partial fuel (a : list Z) :
  Forall (fun c => c <> 0) a ->
  (length a < Z.to_nat COL_MAX)%nat -> (length a < fuel)%nat ->
  strdcpy fuel (replicate (Z.to_nat COL_MAX) 0) (a ++ [0])
    = Done (partial_line COL_MAX a).
Proof.
  intros Ha Hroom Hf. unfold strdcpy, partial_line.
  rewrite (zeros_split (S (length a)) (Z.to_nat COL_MAX)) by lia.
  pose proof (strdcpy_loop_spec a fuel [] (replicate (S (length a)) 0)
                (replicate (Z.to_nat COL_MAX - S (length a)) 0) [] [] 0 Ha) as H.
  cbn [app length] in H. change (Z.of_nat 0) with 0 in H.
  rewrite H; [|now rewrite length_replicate|exact Hf].
  do 2 f_equal.
  replace (Z.to_nat COL_MAX - length a)%nat
    with (S (Z.to_nat COL_MAX - S (length a))) by lia.
  reflexivity.
Qed.

(** [strdcat] onto a status line that is NUL behind its text. *)
Lemma cat_partial fuel (l a r : list Z) (len : Z) :
  Forall (fun c => c <> 0) l -> Forall (fun c => c <> 0) a ->
  1 <= len <= 255 ->
  (length l + length (take (Z.to_nat len) a) <= Z.to_nat COL_MAX)%nat ->
  (Z.of_nat (length a) < len -> (length l + length a < Z.to_nat COL_MAX)%nat) ->
  (Z.to_nat COL_MAX < fuel)%nat ->
  cat fuel (a ++ 0 :: r) len (partial_line COL_MAX l)
    = Done (partial_line COL_MAX (l ++ take (Z.to_nat len) a)).
Proof.
  intros Hl Ha Hlen Hfit Hnul Hf.
  unfold cat, partial_line. cbn [fst snd].
  unfold to_char. rewrite (Z.mod_small len) by lia.
  unfold strdcat.
  assert (Hlt : (length l < Z.to_nat COL_MAX)%nat).
  { destruct (decide (Z.of_nat (length a) < len)) as [Hs|Hs]; [specialize (Hnul Hs); lia|].
    rewrite length_take in Hfit. lia. }
  assert (Hend : strdcat_end fuel (l ++ replicate (Z.to_nat COL_MAX - length l) 0) 0
                 = Done (Z.of_nat (length l))).
  { replace (Z.to_nat COL_MAX - length l)%nat
      with (S (Z.to_nat COL_MAX - S (length l))) by lia.
    cbn [replicate].
    apply (strdcat_end_spec l fuel [] _ Hl). lia. }
  rewrite Hend. cbn [bind].
  destruct (decide (Z.of_nat (length a) < len)) as [Hs|Hs].
  - specialize (Hnul Hs).
    rewrite (zeros_split (S (length a)) (Z.to_nat COL_MAX - length l)) by lia.
    pose proof (strdcat_loop_whole a fuel l (replicate (S (length a)) 0)
                  (replicate (Z.to_nat COL_MAX - length l - S (length a)) 0)
                  [] r 0 len Ha) as H.
    rewrite Z.mod_small in H by lia.
    cbn [app length] in H. change (Z.of_nat 0) with 0 in H.
    rewrite H; [|lia|now rewrite length_replicate|lia].
    cbn [bind fst snd].
    rewrite take_ge by lia.
    rewrite length_app. f_equal. f_equal; [|lia].
    rewrite <- app_assoc. f_equal. f_equal.
    replace (Z.to_nat COL_MAX - (length l + length a))%nat
      with (S (Z.to_nat COL_MAX - length l - S (length a))) by lia.
    reflexivity.
  - rewrite length_take in Hfit.
    rewrite (zeros_split (Z.to_nat len) (Z.to_nat COL_MAX - length l)) by lia.
    pose proof (strdcat_loop_cut a fuel l (replicate (Z.to_nat len) 0)
                  (replicate (Z.to_nat COL_MAX - length l - Z.to_nat len) 0)
                  [] r 0 len Ha) as H.
    rewrite Z.mod_small in H by lia.
    cbn [app length] in H. change (Z.of_nat 0) with 0 in H.
    rewrite H; [|lia|lia|now rewrite length_replicate|lia].
    cbn [bind fst snd].
    rewrite length_app, length_take. f_equal. f_equal; [|lia].
    rewrite <- app_assoc. f_equal. f_equal. f_equal. lia.
Qed.

Lemma pad_to_length n l : length (pad_to n l) = (length l `max` Z.to_nat n)%nat.
Proof. unfold pad_to. rewrite length_app, length_replicate. lia. Qed.

Lemma pad_to_nonzero n l :
  Forall (fun c => c <> 0) l -> Forall (fun c => c <> 0) (pad_to n l).
Proof.
  intros H. unfold pad_to. apply Forall_app. split; [exact H|].
  apply Forall_replicate. discriminate.
Qed.

(** The padding loop. *)
Lemma pad_partial fuel (steps : nat) : forall (n : Z) (l : list Z),
  Forall (fun c => c <> 0) l ->
  n <= COL_MAX -> (length l <= Z.to_nat COL_MAX)%nat ->
  (Z.to_nat COL_MAX < fuel)%nat ->
  (Z.to_nat n - length l < steps)%nat ->
  pad fuel steps n (partial_line COL_MAX l) = Done (partial_line COL_MAX (pad_to n l)).
Proof.
  induction steps as [|steps IH]; intros n l Hl Hn Hfit Hf Hsteps; [lia|].
  cbn [pad]. change (snd (partial_line COL_MAX l)) with (Z.of_nat (length l)).
  destruct (Z.ltb_spec (Z.of_nat (length l)) n) as [Hlt|Hge].
  - change [ch_SPACE; 0] with ([ch_SPACE] ++ 0 :: []).
    assert (Hsp : Forall (fun c : Z => c <> 0) [ch_SPACE]) by (repeat constructor; discriminate).
    rewrite (cat_partial fuel l [ch_SPACE] [] 1 Hl Hsp) by (simpl; lia).
    cbn [bind]. change (take (Z.to_nat 1) [ch_SPACE]) with [ch_SPACE].
    rewrite IH; auto.
    all: try (rewrite length_app; simpl; lia).
    + f_equal. f_equal. unfold pad_to. rewrite <- app_assoc, length_app. cbn [length app].
      f_equal.
      replace (Z.to_nat n - length l)%nat with (S (Z.to_nat n - (length l + 1))) by lia.
      reflexivity.
    + apply Forall_app. split; [exact Hl|exact Hsp].
  - f_equal. unfold pad_to.
    replace (Z.to_nat n - length l)%nat with O by lia.
    cbn [replicate]. now rewrite app_nil_r.
Qed.

Lemma pad_if_partial fuel (b : bool) (l : list Z) :
  Forall (fun c => c <> 0) l ->
  (length l < Z.to_nat COL_MAX)%nat -> (Z.to_nat COL_MAX < fuel)%nat ->
  pad_if fuel b (partial_line COL_MAX l)
    = Done (partial_line COL_MAX (l ++ (if b then [ch_SPACE] else []))).
Proof.
  intros Hl Hfit Hf. unfold pad_if. destruct b.
  - change [ch_SPACE; 0] with ([ch_SPACE] ++ 0 :: []).
    assert (Hsp : Forall (fun c : Z => c <> 0) [ch_SPACE]) by (repeat constructor; discriminate).
    now rewrite (cat_partial fuel l [ch_SPACE] [] 1 Hl Hsp) by (simpl; lia).
  - now rewrite app_nil_r.
Qed.

End StatusLineFacts.

(** *** Numerals *)

Lemma digit_count_spec (k : nat) : forall n,
  0 <= n < 10 ^ Z.of_nat (S k) ->
  (1 <= digit_count k n <= S k)%nat /\
  n < 10 ^ Z.of_nat (digit_count k n) /\
  (n < 10 -> digit_count k n = 1%nat) /\
  (10 <= n -> 10 ^ (Z.of_nat (digit_count k n) - 1) <= n).
Proof.
  induction k as [|k IH]; intros n Hn.
  - cbn [digit_count]. change (10 ^ Z.of_nat 1) with 10 in *.
    repeat split; try lia.
  - cbn [digit_count]. destruct (Z.ltb_spec n 10) as [Hs|Hs].
    + change (10 ^ Z.of_nat 1) with 10. repeat split; try lia.
    + pose proof (Z.div_mod n 10 ltac:(lia)) as Hdm.
      pose proof (Z.mod_pos_bound n 10 ltac:(lia)) as Hmod.
      rewrite (Nat2Z.inj_succ (S k)), Z.pow_succ_r in Hn by lia.
      destruct (IH (n `div` 10)) as (Hd & Hlt & Hone & Hlow); [lia|].
      set (d := digit_count k (n `div` 10)) in *.
      split; [lia|]. split.
      { rewrite Nat2Z.inj_succ, Z.pow_succ_r by lia. lia. }
      split; [lia|]. intros _.
      replace (Z.of_nat (S d) - 1) with (Z.of_nat d) by lia.
      destruct (Z.lt_ge_cases (n `div` 10) 10) as [Hsmall|Hbig].
      * rewrite (Hone Hsmall). change (10 ^ Z.of_nat 1) with 10. lia.
      * specialize (Hlow Hbig).
        replace (Z.of_nat d) with (Z.succ (Z.of_nat d - 1)) by lia.
        rewrite Z.pow_succ_r by lia. lia.
Qed.

Lemma numeral_length n :
  length (numeral n) = digit_count (Z.to_nat (Z.log2 n)) n.
Proof. unfold numeral. now rewrite length_rev, low_digits_length. Qed.

(** The numeral has as many digits as the number needs. *)
Lemma numeral_spec n :
  0 <= n ->
  (1 <= length (numeral n))%nat /\
  n < 10 ^ Z.of_nat (length (numeral n)) /\
  (n < 10 -> length (numeral n) = 1%nat) /\
  (10 <= n -> 10 ^ (Z.of_nat (length (numeral n)) - 1) <= n).
Proof.
  intros Hn. rewrite numeral_length.
  destruct (digit_count_spec (Z.to_nat (Z.log2 n)) n) as (Hd & Hlt & Hone & Hlow).
  - split; [lia|]. rewrite Nat2Z.inj_succ, Z2Nat.id by apply Z.log2_nonneg.
    destruct (decide (n = 0)) as [->|Hne]; [reflexivity|].
    destruct (Z.log2_spec n ltac:(lia)) as [_ Hup].
    eapply Z.lt_le_trans; [exact Hup|].
    apply Z.pow_le_mono_l. pose proof (Z.log2_nonneg n). lia.
  - repeat split; auto; lia.
Qed.

Lemma numeral_short n : 0 <= n < 10 ^ 7 -> (length (numeral n) <= 7)%nat.
Proof.
  intros Hn. destruct (numeral_spec n) as (Hd & Hlt & Hone & Hlow); [lia|].
  destruct (Z.lt_ge_cases n 10) as [Hs|Hb]; [rewrite (Hone Hs); lia|].
  specialize (Hlow Hb).
  assert (H : 10 ^ (Z.of_nat (length (numeral n)) - 1) < 10 ^ 7) by lia.
  apply Z.pow_lt_mono_r_iff in H; lia.
Qed.

Lemma numeral_digits n : Forall (fun c => 48 <= c <= 57) (numeral n).
Proof. unfold numeral. apply Forall_rev, low_digits_range. Qed.

Lemma numeral_nonzero n : Forall (fun c => c <> 0) (numeral n).
Proof.
  eapply Forall_impl; [|apply numeral_digits]. simpl. intros c Hc. lia.
Qed.

Lemma numeral_decimal n : 0 <= n -> decimal (numeral n) = n.
Proof.
  intros Hn. destruct (numeral_spec n) as (Hd & Hlt & _); [lia|].
  unfold numeral. rewrite decimal_low_digits by lia.
  rewrite <- numeral_length. apply Z.mod_small. lia.
Qed.

(** The tail of an array from an index inside it. *)
Lemma drop_S_tail_shape (d : nat) (l : list Z) :
  (d < length l)%nat -> drop d l = l !!! d :: drop (S d) l.
Proof.
  intros H. destruct (lookup_lt_is_Some_2 l d H) as [x Hx].
  rewrite (drop_S l x d Hx). f_equal.
  symmetry. now apply list_lookup_total_correct.
Qed.

(** [putn] leaves the numeral and a NUL at the start of [num]. *)
Lemma putn_numeral fuel n (tmp num : list Z) :
  length tmp = 7%nat -> length num = 8%nat ->
  0 <= n < 10 ^ 7 -> (8 <= fuel)%nat ->
  putn fuel n tmp num
    = Done (numeral n ++ 0 :: drop (S (length (numeral n))) num).
Proof.
  intros Ht Hnum Hn Hfuel.
  destruct (putn_digits_spec 7 fuel n tmp 0) as (d & Hd & Hrun & Hlt & Hge);
    try lia.
  destruct (numeral_spec n) as (Hd0 & Hlt0 & Hone0 & Hlow0); [lia|].
  assert (Hdd : d = length (numeral n)).
  { destruct (Z.lt_ge_cases n 10) as [Hs|Hb].
    - rewrite (Hone0 Hs).
      destruct fuel as [|fuel]; [lia|]. cbn [putn_digits] in Hrun.
      rewrite array_write_in in Hrun by lia. cbn [bind] in Hrun.
      rewrite Z.div_small in Hrun by lia. change (0 <? 0) with false in Hrun.
      cbv beta iota zeta in Hrun.
      injection Hrun as _ Hi. lia.
    - specialize (Hlow0 Hb). specialize (Hge ltac:(lia)).
      assert (H1 : 10 ^ (Z.of_nat d - 1) < 10 ^ Z.of_nat (length (numeral n))) by lia.
      assert (H2 : 10 ^ (Z.of_nat (length (numeral n)) - 1) < 10 ^ Z.of_nat d) by lia.
      apply Z.pow_lt_mono_r_iff in H1; [|lia|lia].
      apply Z.pow_lt_mono_r_iff in H2; [|lia|lia]. lia. }
  unfold putn. rewrite Hrun. cbn [bind].
  change (Z.to_nat 0) with O. rewrite take_0. cbn [app]. simpl (0 + d)%nat.
  assert (Hlen' : length (low_digits d n ++ drop d tmp) = 7%nat).
  { rewrite length_app, low_digits_length, length_drop. lia. }
  rewrite putn_copy_spec by lia.
  cbn [bind]. change (Z.to_nat 0) with O. rewrite take_0. cbn [app].
  replace (Z.to_nat (0 + Z.of_nat d - 1 + 1)) with d by lia.
  replace (0 + (0 + Z.of_nat d - 1) + 1) with (Z.of_nat d) by lia.
  rewrite take_app_length' by (now rewrite low_digits_length).
  rewrite Nat2Z.id.
  assert (Hnumeral : rev (low_digits d n) = numeral n).
  { unfold numeral. rewrite <- numeral_length, <- Hdd. reflexivity. }
  rewrite Hnumeral.
  rewrite array_write_in by (rewrite length_app, length_drop; lia).
  rewrite Nat2Z.id. f_equal.
  rewrite (drop_S_tail_shape d num) by lia.
  rewrite insert_app_r_alt by lia. rewrite <- Hdd, Nat.sub_diag. reflexivity.
Qed.

(** *** The fields of the status line *)

Section StatusLineFields.

Variable COL_MAX : Z.

Lemma partial_line_full (l : list Z) :
  (Z.to_nat COL_MAX <= length l)%nat -> fst (partial_line COL_MAX l) = l.
Proof.
  intros H. unfold partial_line. cbn [fst].
  replace (Z.to_nat COL_MAX - length l)%nat with O by lia.
  cbn [replicate]. apply app_nil_r.
Qed.

(** A number is appended as its numeral; [num] holds the numeral
    afterwards. *)
Lemma cat_number_partial fuel n (tmp num l : list Z) :
  length tmp = 7%nat -> length num = 8%nat ->
  0 <= n < 10 ^ 7 ->
  Forall (fun c => c <> 0) l ->
  (length l + length (numeral n) <= Z.to_nat COL_MAX)%nat ->
  (8 <= fuel)%nat -> (Z.to_nat COL_MAX < fuel)%nat ->
  exists num',
    cat_number fuel n tmp (num, partial_line COL_MAX l)
      = Done (num', partial_line COL_MAX (l ++ numeral n)) /\
    length num' = 8%nat.
Proof.
  intros Ht Hnum Hn Hl Hfit Hf8 Hf.
  pose proof (numeral_short n Hn) as Hshort.
  destruct (numeral_spec n) as (Hd & _); [lia|].
  exists (numeral n ++ 0 :: drop (S (length (numeral n))) num).
  assert (Hlen : length (numeral n ++ 0 :: drop (S (length (numeral n))) num) = 8%nat).
  { rewrite length_app. cbn [length]. rewrite length_drop. lia. }
  split; [|exact Hlen].
  unfold cat_number, to_uint. rewrite (Z.mod_small n) by lia.
  rewrite putn_numeral by auto. cbn [bind].
  rewrite putn_numeral by auto. cbn [bind].
  assert (Hdrop : drop (S (length (numeral n)))
                    (numeral n ++ 0 :: drop (S (length (numeral n))) num)
                  = drop (S (length (numeral n))) num).
  { replace (numeral n ++ 0 :: drop (S (length (numeral n))) num)
      with ((numeral n ++ [0]) ++ drop (S (length (numeral n))) num)
      by (now rewrite <- app_assoc).
    apply drop_app_length'. rewrite length_app. simpl. lia. }
  rewrite Hdrop.
  rewrite strlen_spec by (auto using numeral_nonzero; lia). cbn [bind].
  rewrite cat_partial; auto using numeral_nonzero; try lia.
  - cbn [bind]. rewrite Nat2Z.id, take_ge by lia. reflexivity.
  - rewrite Nat2Z.id, take_ge by lia. lia.
Qed.

End StatusLineFields.

(** The spaces before the free bytes make the field seven wide. *)
Lemma rest_padding (r : Z) :
  0 <= r < 10 ^ 7 ->
  (if r <? 1000000 then [ch_SPACE] else [])
    ++ (if r <? 100000 then [ch_SPACE] else [])
    ++ (if r <? 10000 then [ch_SPACE] else [])
    ++ (if r <? 1000 then [ch_SPACE] else [])
    ++ (if r <? 100 then [ch_SPACE] else [])
    ++ (if r <? 10 then [ch_SPACE] else [])
  = replicate (7 - length (numeral r)) ch_SPACE.
Proof.
  intros Hr. pose proof (numeral_short r Hr) as Hshort.
  destruct (numeral_spec r) as (Hd & Hlt & Hone & Hlow); [lia|].
  set (d := length (numeral r)) in *.
  assert (Hcases : (d = 1 \/ d = 2 \/ d = 3 \/ d = 4 \/ d = 5 \/ d = 6 \/ d = 7)%nat) by lia.
  assert (Hlow' : d <> 1%nat -> 10 ^ (Z.of_nat d - 1) <= r).
  { intros Hne. apply Hlow. destruct (Z.lt_ge_cases r 10) as [Hs|]; [|lia].
    specialize (Hone Hs). lia. }
  clearbody d.
  destruct Hcases as [->|[->|[->|[->|[->|[->| ->]]]]]];
    try (specialize (Hlow' ltac:(lia))); simpl in Hlt; simpl in Hlow';
    repeat match goal with
           | |- context [?a <? ?b] => destruct (Z.ltb_spec a b); try lia
           end; reflexivity.
Qed.

(** *** The whole line *)

Ltac nonzero :=
  repeat first
    [ assumption
    | apply pad_to_nonzero
    | apply numeral_nonzero
    | apply Forall_app; split
    | apply Forall_take
    | apply Forall_nil_2
    | apply Forall_cons_2; [discriminate|] ].

Ltac sizes :=
  rewrite ?length_app, ?pad_to_length, ?length_take, ?length_replicate;
  cbn [length str_vce str_l str_c str_rest]; lia.

Section StatusLineText.

Variables COL_MAX BUF : Z.
Hypothesis Hcol : 16 <= COL_MAX.

(** [update_modeline] fills the array with [status_text]. *)
Lemma update_modeline_spec fuel (tmp num : list Z) (s : state) :
  (forall name, filename s = Some name -> Forall (fun c => c <> 0) name) ->
  0 <= line s < 10 ^ 7 -> 0 <= col s < 10 ^ 7 ->
  0 <= BUF - doclen s < 10 ^ 7 ->
  length tmp = 7%nat -> length num = 8%nat ->
  (Z.to_nat COL_MAX < fuel)%nat ->
  exists num',
    update_modeline COL_MAX BUF fuel tmp num s
      = Done (status_text COL_MAX BUF s, num') /\
    length (status_text COL_MAX BUF s) = Z.to_nat COL_MAX.
Proof.
  intros Hfile Hline Hcolumn Hrest Htmp Hnum Hfuel.
  unfold update_modeline, status_text.
  set (name := match filename s with Some name => name | None => [] end).
  set (k := if 21 <? COL_MAX then 16%nat else 11%nat).
  set (l0 := str_vce ++ take k name).
  assert (Hname : Forall (fun c => c <> 0) name).
  { subst name. destruct (filename s) as [nm|]; [now apply Hfile|constructor]. }
  assert (Hz0 : Forall (fun c => c <> 0) l0) by (subst l0; unfold str_vce; nonzero).
  assert (Hk : (5 + k <= Z.to_nat COL_MAX)%nat /\ (k = 11 \/ k = 16)%nat /\
               (21 < COL_MAX -> k = 16%nat)).
  { subst k. destruct (Z.ltb_spec 21 COL_MAX); lia. }
  assert (Hlen0 : (5 <= length l0 <= 5 + k)%nat).
  { subst l0. sizes. }
  rewrite strdcpy_partial by (first [unfold str_vce; progress nonzero | sizes]).
  cbn [bind].
  assert (Hst0 : match filename s with
                 | Some name =>
                     cat fuel (name ++ [0]) (if 21 <? COL_MAX then 16 else 11)
                       (partial_line COL_MAX str_vce)
                 | None => Done (partial_line COL_MAX str_vce)
                 end = Done (partial_line COL_MAX l0)).
  { subst l0 name k. destruct (filename s) as [nm|].
    - assert (Hnm : Forall (fun c => c <> 0) nm) by exact Hname.
      assert (Hvce : Forall (fun c => c <> 0) str_vce) by (unfold str_vce; nonzero).
      destruct (Z.ltb_spec 21 COL_MAX).
      + rewrite (cat_partial COL_MAX fuel str_vce nm [] 16 Hvce Hnm);
          [reflexivity|lia|sizes|intros; sizes|lia].
      + rewrite (cat_partial COL_MAX fuel str_vce nm [] 11 Hvce Hnm);
          [reflexivity|lia|sizes|intros; sizes|lia].
    - rewrite take_nil, app_nil_r. reflexivity. }
  rewrite Hst0. cbn [bind]. clear Hst0.
  assert (Hl_text : Forall (fun c => c <> 0) str_l) by (unfold str_l; nonzero).
  assert (Hc_text : Forall (fun c => c <> 0) str_c) by (unfold str_c; nonzero).
  assert (Hrest_text : Forall (fun c => c <> 0) str_rest) by (unfold str_rest; nonzero).
  pose proof (numeral_short _ Hline) as HdL.
  pose proof (numeral_short _ Hcolumn) as HdC.
  pose proof (numeral_short _ Hrest) as HdR.
  destruct (numeral_spec (line s)) as (HdL1 & _); [lia|].
  destruct (numeral_spec (col s)) as (HdC1 & _); [lia|].
  destruct (numeral_spec (BUF - doclen s)) as (HdR1 & _); [lia|].
  (* the end of every branch: the last padding *)
  assert (Hlast : forall (l num' : list Z),
            Forall (fun c => c <> 0) l -> (length l <= Z.to_nat COL_MAX)%nat ->
            exists num'',
              (st <- pad fuel fuel COL_MAX (snd (num', partial_line COL_MAX l)) ;;
               Done (fst st, fst (num', partial_line COL_MAX l)))
                = Done (pad_to COL_MAX l, num'') /\
              length (pad_to COL_MAX l) = Z.to_nat COL_MAX).
  { intros l num' Hz Hlen. exists num'. cbn [fst snd].
    rewrite pad_partial by (auto; lia). cbn [bind].
    rewrite partial_line_full by (rewrite pad_to_length; lia).
    split; [reflexivity|]. rewrite pad_to_length. lia. }
  destruct (Z.ltb_spec 34 COL_MAX) as [H34|H34].
  2: { cbn [bind]. apply Hlast; auto. lia. }
  (* the line *)
  rewrite pad_partial by (auto; lia). cbn [bind].
  rewrite (cat_partial COL_MAX fuel (pad_to 21 l0) str_l [] 3)
    by (first [progress nonzero | lia | sizes | intros; sizes]).
  cbn [bind]. change (take (Z.to_nat 3) str_l) with str_l.
  destruct (cat_number_partial COL_MAX fuel (line s) tmp num (pad_to 21 l0 ++ str_l))
    as (num1 & Hrun1 & Hnum1); auto; try lia.
  { nonzero. }
  { sizes. }
  rewrite Hrun1. cbn [bind]. clear Hrun1.
  rewrite <- app_assoc.
  set (l1 := pad_to 21 l0 ++ str_l ++ numeral (line s)).
  assert (Hz1 : Forall (fun c => c <> 0) l1) by (subst l1; nonzero).
  assert (Hlen1 : (24 < length l1 <= 31)%nat).
  { subst l1. sizes. }
  destruct (Z.ltb_spec 48 COL_MAX) as [H48|H48].
  2: { apply Hlast; auto. lia. }
  (* the column *)
  cbn [fst snd].
  rewrite pad_partial by (auto; lia). cbn [bind].
  rewrite (cat_partial COL_MAX fuel (pad_to 35 l1) str_c [] 3)
    by (first [progress nonzero | lia | sizes | intros; sizes]).
  cbn [bind]. change (take (Z.to_nat 3) str_c) with str_c.
  destruct (cat_number_partial COL_MAX fuel (col s) tmp num1 (pad_to 35 l1 ++ str_c))
    as (num2 & Hrun2 & Hnum2); auto; try lia.
  { nonzero. }
  { sizes. }
  rewrite Hrun2. cbn [bind]. clear Hrun2.
  rewrite <- app_assoc.
  set (l2 := pad_to 35 l1 ++ str_c ++ numeral (col s)).
  assert (Hz2 : Forall (fun c => c <> 0) l2) by (subst l2; nonzero).
  assert (Hlen2 : (38 < length l2 <= 45)%nat).
  { subst l2. sizes. }
  destruct (Z.ltb_spec 64 COL_MAX) as [H64|H64].
  2: { apply Hlast; auto. lia. }
  (* the free bytes *)
  cbn [fst snd].
  rewrite pad_partial by (auto; lia). cbn [bind].
  rewrite (cat_partial COL_MAX fuel (pad_to (COL_MAX - 13) l2) str_rest [] 6)
    by (first [progress nonzero | lia | sizes | intros; sizes]).
  cbn [bind]. change (take (Z.to_nat 6) str_rest) with str_rest.
  replace (BUF - (ebuf s - egap s) - (gap s - buf s)) with (BUF - doclen s)
    by (unfold doclen; lia).
  cbv zeta. unfold to_uint. rewrite (Z.mod_small (BUF - doclen s)) by lia.
  cbn [fst snd].
  set (r := BUF - doclen s) in *.
  set (l3 := pad_to (COL_MAX - 13) l2 ++ str_rest).
  assert (Hz3 : Forall (fun c => c <> 0) l3) by (subst l3; nonzero).
  assert (Hlen3 : length l3 = (Z.to_nat COL_MAX - 7)%nat).
  { subst l3. sizes. }
  assert (Hsp : forall b : bool, (length (if b then [ch_SPACE] else []) <= 1)%nat)
    by (intros []; simpl; lia).
  assert (Hspz : forall b : bool, Forall (fun c => c <> 0) (if b then [ch_SPACE] else []))
    by (intros []; unfold ch_SPACE; nonzero).
  pose proof (rest_padding r Hrest) as Hpadding.
  set (p1 := if r <? 1000000 then [ch_SPACE] else []) in *.
  set (p2 := if r <? 100000 then [ch_SPACE] else []) in *.
  set (p3 := if r <? 10000 then [ch_SPACE] else []) in *.
  set (p4 := if r <? 1000 then [ch_SPACE] else []) in *.
  set (p5 := if r <? 100 then [ch_SPACE] else []) in *.
  set (p6 := if r <? 10 then [ch_SPACE] else []) in *.
  assert (Hp : (length p1 <= 1 /\ length p2 <= 1 /\ length p3 <= 1 /\
                length p4 <= 1 /\ length p5 <= 1 /\ length p6 <= 1)%nat).
  { subst p1 p2 p3 p4 p5 p6. repeat split; apply Hsp. }
  assert (Hpz : Forall (fun c => c <> 0) p1 /\ Forall (fun c => c <> 0) p2 /\
                Forall (fun c => c <> 0) p3 /\ Forall (fun c => c <> 0) p4 /\
                Forall (fun c => c <> 0) p5 /\ Forall (fun c => c <> 0) p6).
  { subst p1 p2 p3 p4 p5 p6. repeat split; apply Hspz. }
  destruct Hp as (Hp1 & Hp2 & Hp3 & Hp4 & Hp5 & Hp6).
  destruct Hpz as (Hz1' & Hz2' & Hz3' & Hz4' & Hz5' & Hz6').
  rewrite (pad_if_partial COL_MAX fuel (r <? 1000000) l3) by (auto; lia).
  cbn [bind]. fold p1.
  rewrite (pad_if_partial COL_MAX fuel (r <? 100000) (l3 ++ p1))
    by (first [progress nonzero | sizes]).
  cbn [bind]. fold p2.
  rewrite (pad_if_partial COL_MAX fuel (r <? 10000) ((l3 ++ p1) ++ p2))
    by (first [progress nonzero | sizes]).
  cbn [bind]. fold p3.
  rewrite (pad_if_partial COL_MAX fuel (r <? 1000) (((l3 ++ p1) ++ p2) ++ p3))
    by (first [progress nonzero | sizes]).
  cbn [bind]. fold p4.
  rewrite (pad_if_partial COL_MAX fuel (r <? 100) ((((l3 ++ p1) ++ p2) ++ p3) ++ p4))
    by (first [progress nonzero | sizes]).
  cbn [bind]. fold p5.
  rewrite (pad_if_partial COL_MAX fuel (r <? 10) (((((l3 ++ p1) ++ p2) ++ p3) ++ p4) ++ p5))
    by (first [progress nonzero | sizes]).
  cbn [bind]. fold p6.
  assert (Hspaces : (((((l3 ++ p1) ++ p2) ++ p3) ++ p4) ++ p5) ++ p6
                    = l3 ++ replicate (7 - length (numeral r)) ch_SPACE).
  { rewrite <- Hpadding. now rewrite <- !app_assoc. }
  rewrite Hspaces.
  set (l4 := l3 ++ replicate (7 - length (numeral r)) ch_SPACE).
  assert (Hz4 : Forall (fun c => c <> 0) l4).
  { subst l4. nonzero. apply Forall_replicate. discriminate. }
  assert (Hlen4 : (length l4 + length (numeral r) = Z.to_nat COL_MAX)%nat).
  { subst l4. rewrite length_app, length_replicate. lia. }
  destruct (cat_number_partial COL_MAX fuel r tmp num2 l4)
    as (num3 & Hrun3 & Hnum3); auto; try lia.
  rewrite Hrun3. cbn [bind]. clear Hrun3.
  assert (Hshape : pad_to (COL_MAX - 13) l2 ++ str_rest ++ pad_left 7 (numeral r)
                   = l4 ++ numeral r).
  { subst l4 l3. unfold pad_left. change (Z.to_nat 7) with 7%nat.
    now rewrite <- !app_assoc. }
  rewrite Hshape.
  apply Hlast.
  - nonzero.
  - rewrite length_app. lia.
Qed.

(** X24.  [message] with a text of 1 to 255 bytes that fits behind
    the five bytes of "VCE: " writes nothing outside [modeline]: the
    line is "VCE: ", the text, and spaces up to [COL_MAX] bytes.  The
    call returns when a line end arrives, with the input behind it. *)
Theorem message_shows_text (fuel : nat) (msg r input line rest : list Z) :
  Forall (fun c => c <> 0) msg ->
  1 <= Z.of_nat (length msg) <= 255 ->
  5 + Z.of_nat (length msg) <= COL_MAX ->
  (Z.to_nat COL_MAX < fuel)%nat ->
  first_line input = Some (line, rest) ->
  message COL_MAX fuel (msg ++ 0 :: r) input
    = Done (message_text COL_MAX msg, rest) /\
  message_text COL_MAX msg
    = str_vce ++ msg
        ++ replicate (Z.to_nat COL_MAX - 5 - length msg) ch_SPACE /\
  length (message_text COL_MAX msg) = Z.to_nat COL_MAX.
Proof.
  intros Hmsg Hlen Hwide Hfuel Hinput. clear Hcol.
  assert (Hwait : wait_return input = Done rest).
  { clear - Hinput. revert line rest Hinput.
    induction input as [|ch input IH]; intros line rest Hinput; [discriminate|].
    cbn [first_line wait_return] in *.
    destruct ((ch =? ch_NL) || (ch =? ch_CR)); [congruence|].
    destruct (first_line input) as [[l r]|] eqn:E; [|discriminate].
    injection Hinput as _ <-. now apply (IH l r). }
  assert (Hvce : Forall (fun c => c <> 0) str_vce) by (unfold str_vce; nonzero).
  unfold message, message_text.
  rewrite strdcpy_partial by (first [assumption | sizes]). cbn [bind].
  rewrite strlen_spec by (auto; lia). cbn [bind].
  rewrite cat_partial; auto; try lia.
  - cbn [bind]. rewrite Nat2Z.id, take_ge by lia.
    rewrite pad_partial.
    + cbn [bind]. rewrite Hwait. cbn [bind].
      rewrite partial_line_full by (rewrite pad_to_length; lia).
      split; [reflexivity|]. split.
      * unfold pad_to. rewrite <- app_assoc, length_app. do 3 f_equal.
        change (length str_vce) with 5%nat. lia.
      * rewrite pad_to_length, length_app. change (length str_vce) with 5%nat. lia.
    + nonzero.
    + lia.
    + rewrite length_app. simpl. lia.
    + lia.
    + lia.
  - rewrite Nat2Z.id, take_ge by lia. simpl. lia.
Qed.

End StatusLineText.

(** *** The status line of a frame *)

Lemma newlines_le (l : list Z) : 0 <= newlines l <= Z.of_nat (length l).
Proof.
  unfold newlines. pose proof (length_filter (fun c => c = ch_NL) l). lia.
Qed.

Section StatusLineShown.

Variables COL_MAX ROW_MAX BUF : Z.
Hypothesis Hcol : 16 <= COL_MAX.
Hypothesis Hrow : 2 <= ROW_MAX.
Hypothesis Hdiv : COL_MAX `mod` 8 = 0.

(** X23.  The status line of a frame.  In a run with a buffer of [BUF]
    bytes, [BUF] below 9,999,999, and a terminal of at most 10,000,000
    columns, their number a multiple of 8, the frame returns with every
    store inside the screen array and [update_modeline] after it writes
    nothing outside [modeline], [num] and [tmp]: it fills the
    [COL_MAX] bytes of [modeline] with [status_text], where the number
    shown as "Rest" is the size of the gap. *)
Theorem status_line_after_frame (s : state) (fuel : nat) (tmp num : list Z) :
  steady COL_MAX ROW_MAX s -> enough s fuel -> (Z.to_nat COL_MAX < fuel)%nat ->
  COL_MAX <= 10 ^ 7 ->
  ebuf s - buf s = BUF -> BUF + 1 < 10 ^ 7 ->
  (forall name, filename s = Some name -> Forall (fun c => c <> 0) name) ->
  length tmp = 7%nat -> length num = 8%nat ->
  exists s' num',
    update_display COL_MAX ROW_MAX fuel s = Done s' /\
    update_modeline COL_MAX BUF fuel tmp num s'
      = Done (status_text COL_MAX BUF s', num') /\
    length (status_text COL_MAX BUF s') = Z.to_nat COL_MAX /\
    BUF - doclen s' = room s'.
Proof.
  intros Hst Hf Hf2 Hwide Hbuf Hsmall Hfile Htmp Hnum.
  destruct (update_display_result COL_MAX ROW_MAX Hcol Hrow Hdiv fuel s Hst Hf)
    as (s' & Hrun & Hst' & Htx & Hpg & He & Hline).
  pose proof (text_doclen _ _ Htx) as Hdl.
  assert (Hfields : buf s' = buf s /\ ebuf s' = ebuf s /\ gap s' = gap s /\
                    egap s' = egap s /\ filename s' = filename s).
  { unfold text in Htx. injection Htx. intros. repeat split; assumption. }
  destruct Hfields as (Eb & Ee & Eg & Eeg & Efn).
  destruct Hst as [[W1 W2 W3 W4 W5] _]. destruct Hst' as [_ (_ & Hc & _)].
  assert (Hroom : BUF - doclen s' = room s').
  { unfold doclen, room. lia. }
  pose proof (newlines_le (bytes (mem s) (buf s) (idx s))) as Hnl.
  rewrite bytes_length in Hnl.
  destruct (update_modeline_spec COL_MAX BUF Hcol fuel tmp num s')
    as (num' & Hm & Hlen); auto.
  - intros name Hname. apply Hfile. now rewrite <- Efn.
  - rewrite Hline. unfold doclen in W5. lia.
  - lia.
  - rewrite Hroom. unfold room. lia.
  - exists s', num'. auto.
Qed.

End StatusLineShown.

(** ** The command loop on its input *)

Lemma bind_assoc {A B C : Type} (m : outcome A) (f : A -> outcome B) (g : B -> outcome C) :
  (y <- (x <- m ;; f x) ;; g y) = (x <- m ;; y <- f x ;; g y).
Proof. destruct m; reflexivity. Qed.



Section Keys.

Variable COL_MAX : Z.
Hypothesis Hcol : 16 <= COL_MAX.




End Keys.



Section MainSafe.

Variables COL_MAX ROW_MAX : Z.
Variable open_ok : nat -> bool.
Hypothesis Hcol : 16 <= COL_MAX.
Hypothesis Hrow : 2 <= ROW_MAX.
Hypothesis Hdiv : COL_MAX `mod` 8 = 0.



(** X28.  At the end of the input the loop does not end: [fgetc]
    answers [EOF], the switch hands it to [insert] like any other
    byte, and the next round reads [EOF] again.  So no bound on the
    rounds is enough for the loop to return. *)
Theorem main_loop_spins_at_eof (n : nat) : forall (fuel k : nat) (s : state),
  steady COL_MAX ROW_MAX s -> enough s fuel ->
  main_loop COL_MAX ROW_MAX open_ok fuel n k [] s = OutOfFuel.
Proof.
  induction n as [|n IH]; intros fuel k s Hst Hf; [reflexivity|].
  cbn [main_loop].
  destruct (update_display_keeps COL_MAX ROW_MAX Hcol Hrow Hdiv fuel s Hst Hf)
    as (sa & Hrun & Hsta & Htx).
  rewrite Hrun. cbn [bind fgetc].
  pose proof (text_enough _ _ fuel Htx Hf) as Hfa.
  change (-1 =? 4) with false. change (-1 =? 5) with false.
  change (-1 =? 12) with false. change (-1 =? 19) with false.
  change (-1 =? 24) with false. change (-1 =? 27) with false. cbv iota.
  destruct (dispatch_total COL_MAX ROW_MAX Hcol Hrow Hdiv fuel (Insert (-1)) sa Hsta Hfa)
    as (s2 & Hins & Hst2 & Hb2 & He2).
  cbn [dispatch] in Hins. rewrite Hins. cbn [bind].
  apply IH; [exact Hst2|]. unfold enough in *. rewrite He2, Hb2. exact Hfa.
Qed.

End MainSafe.

Section MainKeys.

Variables COL_MAX ROW_MAX : Z.
Variable open_ok : nat -> bool.

(** X27.  The loop runs the commands its input selects.  For an input
    that is made of keys which read no further input (single bytes,
    arrow sequences, unbound sequences), followed by ESC q, the loop
    returns what the rounds for the commands of these keys return,
    with the last frame drawn, and leaves the input behind ESC q. *)
Theorem main_loop_runs_the_keys (fuel : nat) (keys : list (list Z)) :
  forall (cmds : list command) (n k : nat) (s : state) (rest : list Z),
  Forall2 selects keys cmds -> (length keys < n)%nat ->
  main_loop COL_MAX ROW_MAX open_ok fuel n k (concat keys ++ 27 :: 113 :: rest) s
    = (s' <- rounds COL_MAX ROW_MAX fuel cmds s ;; Done (s', rest)).
Proof.
  induction keys as [|key keys IH]; intros cmds n k s rest Hsel Hn.
  - inversion Hsel; subst. destruct n as [|n]; [simpl in Hn; lia|].
    cbn [main_loop concat app rounds].
    destruct (update_display COL_MAX ROW_MAX fuel s); reflexivity.
  - inversion Hsel as [|? c ? cmds' Hkey Hrest]; subst.
    destruct n as [|n]; [simpl in Hn; lia|]. simpl in Hn.
    assert (Hlen : (length keys < n)%nat) by lia.
    cbn [main_loop concat rounds]. unfold round. rewrite !bind_assoc.
    destruct (update_display COL_MAX ROW_MAX fuel s) as [sa| |]; cbn [bind];
      try reflexivity.
    rewrite <- app_assoc.
    inversion Hkey as [ch c' Hbyte| | | | |b H1 H2 H3 H4|b H1 H2 H3 H4]; subst;
      cbn [app fgetc].
    + unfold byte_command in Hbyte.
      destruct (ch =? 4); [injection Hbyte as <-; cbn [dispatch bind]; now apply IH|].
      destruct (ch =? 5); [injection Hbyte as <-; cbn [dispatch];
                           destruct (up fuel sa); cbn [bind]; auto|].
      destruct (ch =? 12); [injection Hbyte as <-; cbn [dispatch];
                            destruct (update_display COL_MAX ROW_MAX fuel sa);
                            cbn [bind]; auto|].
      destruct (ch =? 19); [injection Hbyte as <-; cbn [dispatch bind]; now apply IH|].
      destruct (ch =? 24); [injection Hbyte as <-; cbn [dispatch];
                            destruct (down fuel sa); cbn [bind]; auto|].
      destruct (ch =? 27); [discriminate|].
      injection Hbyte as <-. cbn [dispatch].
      destruct (insert fuel ch sa); cbn [bind]; auto.
    + simpl. destruct (up fuel sa); cbn [bind]; auto.
    + simpl. destruct (down fuel sa); cbn [bind]; auto.
    + simpl. now apply IH.
    + simpl. now apply IH.
    + simpl.
      destruct (Z.eqb_spec b 91); [contradiction|].
      destruct (Z.eqb_spec b 113); [contradiction|].
      destruct (Z.eqb_spec b 115); [contradiction|].
      destruct (Z.eqb_spec b 118); [contradiction|].
      now apply IH.
    + simpl.
      destruct (Z.eqb_spec b 65); [contradiction|].
      destruct (Z.eqb_spec b 66); [contradiction|].
      destruct (Z.eqb_spec b 67); [contradiction|].
      destruct (Z.eqb_spec b 68); [contradiction|].
      now apply IH.
Qed.

End MainKeys.

(** ** The further properties at concrete states *)

Lemma movegap_puts_gap_at_cursor_witness :
  exists s',
    movegap 20 sample = Done s' /\
    gap s' = buf s' + idx s' /\
    room s' = room sample /\
    idx s' = idx sample /\
    untouched s' = untouched sample /\
    wf s'.
Proof.
  apply (movegap_puts_gap_at_cursor sample 20).
  - constructor; vm_compute; discriminate.
  - vm_compute. lia.
Defined.

Lemma insert_places_byte_witness :
  exists s',
    insert 20 ch_CR sample = Done s' /\
    document s' = take (Z.to_nat (idx sample)) (document sample) ++ [stored ch_CR]
                    ++ drop (Z.to_nat (idx sample)) (document sample) /\
    idx s' = idx sample + 1 /\
    doclen s' = doclen sample + 1 /\
    room s' = room sample - 1 /\
    0 <= stored ch_CR < 256 /\
    (ch_CR = ch_CR -> stored ch_CR = ch_NL).
Proof.
  apply (insert_places_byte sample 20 ch_CR).
  - constructor; vm_compute; discriminate.
  - vm_compute. lia.
  - discriminate.
  - discriminate.
  - vm_compute. reflexivity.
Defined.

Lemma typed_keys_fill_the_gap_witness :
  exists s',
    rounds 80 24 20 (Insert <$> [97; 13; 98]) sample = Done s' /\
    document s' = take (Z.to_nat (idx sample)) (document sample)
                    ++ take (Z.to_nat (room sample)) (stored <$> [97; 13; 98])
                    ++ drop (Z.to_nat (idx sample)) (document sample) /\
    idx s' = idx sample + Z.min (Z.of_nat (length [97; 13; 98])) (room sample).
Proof.
  apply (typed_keys_fill_the_gap 80 24).
  - lia.
  - lia.
  - reflexivity.
  - split; [constructor; vm_compute; discriminate|]. unfold cell_ok. simpl. lia.
  - vm_compute. lia.
  - repeat constructor; first [reflexivity | discriminate].
Defined.

Lemma left_right_clamp_witness :
  left sample = set_idx (Z.max 0 (idx sample - 1)) sample /\
  right sample = set_idx (Z.min (doclen sample) (idx sample + 1)) sample /\
  wf (left sample) /\ wf (right sample) /\
  (0 < idx sample -> right (left sample) = sample) /\
  (idx sample < doclen sample -> left (right sample) = sample).
Proof.
  apply (left_right_clamp sample).
  constructor; vm_compute; discriminate.
Defined.

Lemma nextline_finds_next_line_witness :
  exists r,
    nextline 20 sample 1 = Done r /\ 1 <= r <= doclen sample /\
    ((1 < r /\ document sample !! Z.to_nat (r - 1) = Some ch_NL /\
      forall k, 1 <= k < r - 1 -> document sample !! Z.to_nat k <> Some ch_NL)
     \/
     (r = doclen sample /\
      forall k, 1 <= k < doclen sample -> document sample !! Z.to_nat k <> Some ch_NL)).
Proof.
  apply (nextline_finds_next_line sample 20 1).
  - constructor; vm_compute; discriminate.
  - vm_compute. lia.
  - vm_compute. split; discriminate.
Defined.

Lemma prevline_line_start_witness :
  exists r,
    prevline 20 sample 4 = Done r /\ 0 <= r <= 4 /\
    (r = 0 \/ document sample !! Z.to_nat (r - 1) = Some ch_NL) /\
    (forall k, r <= k < 4 -> document sample !! Z.to_nat k <> Some ch_NL).
Proof.
  apply (prevline_line_start 20 sample 4).
  - constructor; vm_compute; discriminate.
  - vm_compute. lia.
  - vm_compute. split; discriminate.
  - left. vm_compute. discriminate.
Defined.

Lemma adjust_resolves_column_witness :
  exists r,
    adjust 20 sample 3 1 = Done r /\ 3 <= r <= doclen sample /\
    (forall k, 3 <= k < r ->
       exists c, document sample !! Z.to_nat k = Some c /\ c <> ch_NL /\
                 width (take (Z.to_nat (k - 3))
                          (drop (Z.to_nat 3) (document sample))) < 1) /\
    (r = doclen sample \/
     document sample !! Z.to_nat r = Some ch_NL \/
     1 <= width (take (Z.to_nat (r - 3))
                   (drop (Z.to_nat 3) (document sample)))).
Proof.
  apply (adjust_resolves_column sample 20 3 1).
  - constructor; vm_compute; discriminate.
  - vm_compute. lia.
  - vm_compute. split; discriminate.
Defined.

Lemma down_lands_on_next_line_witness :
  exists r c,
    nextline 20 sample (idx sample) = Done r /\
    down 20 sample = Done (set_idx c sample) /\
    idx sample <= r /\ r <= c /\ c <= doclen sample /\
    (forall k, r <= k < c -> document sample !! Z.to_nat k <> Some ch_NL) /\
    (col sample <= 0 -> c = r).
Proof.
  apply (down_lands_on_next_line sample 20).
  - constructor; vm_compute; discriminate.
  - vm_compute. lia.
Defined.

Lemma up_lands_on_previous_line_witness :
  exists a b c,
    prevline 20 sample (idx sample) = Done a /\
    prevline 20 sample (a - 1) = Done b /\
    up 20 sample = Done (set_idx c sample) /\
    0 <= b /\ b <= a /\ a <= idx sample /\ b <= c /\ c <= doclen sample /\
    (forall k, b <= k < c -> document sample !! Z.to_nat k <> Some ch_NL) /\
    (col sample <= 0 -> c = b).
Proof.
  apply (up_lands_on_previous_line sample 20).
  - constructor; vm_compute; discriminate.
  - vm_compute. lia.
Defined.

Lemma startup_holds_the_file_witness :
  document (startup 1000 4 (Contents [102] [97; 10; 98; 99; 100; 101]))
    = loaded 4 (Contents [102] [97; 10; 98; 99; 100; 101]) /\
  doclen (startup 1000 4 (Contents [102] [97; 10; 98; 99; 100; 101]))
    = Z.of_nat (length (loaded 4 (Contents [102] [97; 10; 98; 99; 100; 101]))) /\
  room (startup 1000 4 (Contents [102] [97; 10; 98; 99; 100; 101]))
    = 4 - Z.of_nat (length (loaded 4 (Contents [102] [97; 10; 98; 99; 100; 101]))) /\
  gap (startup 1000 4 (Contents [102] [97; 10; 98; 99; 100; 101]))
    = buf (startup 1000 4 (Contents [102] [97; 10; 98; 99; 100; 101]))
      + doclen (startup 1000 4 (Contents [102] [97; 10; 98; 99; 100; 101])) /\
  idx (startup 1000 4 (Contents [102] [97; 10; 98; 99; 100; 101])) = 0 /\
  dirty (startup 1000 4 (Contents [102] [97; 10; 98; 99; 100; 101])) = 0 /\
  wf (startup 1000 4 (Contents [102] [97; 10; 98; 99; 100; 101])).
Proof.
  apply (startup_holds_the_file 1000 4 (Contents [102] [97; 10; 98; 99; 100; 101])).
  lia.
Defined.

Lemma save_file_writes_document_witness :
  exists s' out,
    save_file 20 (Some [102]) true sample = Done (s', out) /\
    wf s' /\ document s' = document sample /\ idx s' = idx sample /\
    (out = None <-> true = false \/ (filename sample = None /\ Some [102] = None)) /\
    (forall l, out = Some l -> l = document sample /\ dirty s' = 0) /\
    (out = None -> dirty s' = dirty sample) /\
    (filename sample = None -> Some [102] = None -> s' = sample).
Proof.
  apply (save_file_writes_document sample 20 (Some [102]) true).
  - constructor; vm_compute; discriminate.
  - vm_compute. lia.
Defined.

Lemma load_then_save_round_trip_witness :
  exists s',
    save_file 10 None true (startup 1000 4 (Contents [102] [97; 10; 98; 99; 100; 101]))
      = Done (s', Some (take (Z.to_nat 4) [97; 10; 98; 99; 100; 101])) /\
    document s' = take (Z.to_nat 4) [97; 10; 98; 99; 100; 101] /\
    idx s' = 0 /\ dirty s' = 0.
Proof.
  apply (load_then_save_round_trip 1000 4 [102] [97; 10; 98; 99; 100; 101] 10 None).
  - lia.
  - vm_compute. lia.
Defined.

Lemma frame_leaves_text_alone_witness :
  exists s',
    update_display 80 24 20 sample = Done s' /\
    text s' = text sample /\
    document s' = document sample /\
    0 <= page s' /\ page s' <= epage s' /\ epage s' <= doclen s' /\
    steady 80 24 s'.
Proof.
  apply (frame_leaves_text_alone 80 24).
  - lia.
  - lia.
  - reflexivity.
  - split; [constructor; vm_compute; discriminate|]. unfold cell_ok. simpl. lia.
  - vm_compute. lia.
Defined.


Lemma line_number_after_edit_witness :
  exists s1 s2,
    insert 20 ch_CR sample = Done s1 /\
    update_display 80 24 20 s1 = Done s2 /\
    line s2 = cursor_line s2.
Proof.
  apply (line_number_after_edit 80 24).
  - lia.
  - lia.
  - reflexivity.
  - split; [constructor; vm_compute; discriminate|]. unfold cell_ok. simpl. lia.
  - vm_compute. lia.
Defined.

Lemma empty_document_frame_witness :
  exists s',
    update_display 80 24 20 fresh = Done s' /\
    (row s', col s') = (0, 0) /\
    (page s', epage s') = (0, 0) /\
    line s' = 1 /\
    (forall i j, 0 <= i < 24 - 1 -> 0 <= j < 80 ->
                 screen s' !! (i * 80 + j) = Some ch_SPACE).
Proof.
  apply (empty_document_frame 80 24).
  - split; [constructor; vm_compute; discriminate|]. unfold cell_ok. simpl. lia.
  - vm_compute. lia.
  - reflexivity.
Defined.

Lemma putn_writes_decimal_witness :
  exists num',
    putn 8 1840 (replicate 7 0) (replicate 8 0) = Done num' /\
    length num' = 8%nat /\
    decimal (cstring num') = 1840 /\
    Forall (fun c => 48 <= c <= 57) (cstring num') /\
    (1 <= length (cstring num') <= 7)%nat /\
    1840 < 10 ^ Z.of_nat (length (cstring num')) /\
    (1840 <> 0 -> 10 ^ (Z.of_nat (length (cstring num')) - 1) <= 1840).
Proof.
  apply (putn_writes_decimal 8 1840 (replicate 7 0) (replicate 8 0)).
  - reflexivity.
  - reflexivity.
  - lia.
  - lia.
Defined.

Lemma putn_overflows_from_eight_digits_witness :
  putn 8 10000000 (replicate 7 0) (replicate 8 0) = Fault 7.
Proof.
  apply (putn_overflows_from_eight_digits 8 10000000 (replicate 7 0) (replicate 8 0)).
  - reflexivity.
  - lia.
  - lia.
Defined.

Lemma strdcpy_copies_string_witness :
  strdcpy 10 (replicate 16 0) ([86; 67; 69; 58; 32] ++ 0 :: [])
    = Done ([86; 67; 69; 58; 32] ++ 0 :: drop (S (length [86; 67; 69; 58; 32]))
                                          (replicate 16 0),
            Z.of_nat (length [86; 67; 69; 58; 32])) /\
  cstring ([86; 67; 69; 58; 32] ++ 0 :: drop (S (length [86; 67; 69; 58; 32]))
                                         (replicate 16 0))
    = [86; 67; 69; 58; 32].
Proof.
  apply (strdcpy_copies_string 10 (replicate 16 0) [86; 67; 69; 58; 32] []).
  - repeat constructor; discriminate.
  - simpl. lia.
  - simpl. lia.
Defined.

Lemma strdcat_appends_counted_witness :
  (Z.of_nat (length [76; 58; 32]) < 2 -> (length [76; 58; 32] <= length (replicate 8 0))%nat ->
   strdcat 20 ([86; 67; 69] ++ 0 :: replicate 8 0) ([76; 58; 32] ++ 0 :: []) 2
     = Done ([86; 67; 69] ++ [76; 58; 32] ++ 0 :: drop (length [76; 58; 32]) (replicate 8 0),
             Z.of_nat (length [76; 58; 32]))) /\
  (2 <= Z.of_nat (length [76; 58; 32]) -> 2 <= Z.of_nat (length (replicate 8 0)) + 1 ->
   strdcat 20 ([86; 67; 69] ++ 0 :: replicate 8 0) ([76; 58; 32] ++ 0 :: []) 2
     = Done ([86; 67; 69] ++ take (Z.to_nat 2) [76; 58; 32]
               ++ drop (Z.to_nat 2 - 1) (replicate 8 0), 2)).
Proof.
  apply (strdcat_appends_counted 20 [86; 67; 69] (replicate 8 0) [76; 58; 32] [] 2).
  - repeat constructor; discriminate.
  - repeat constructor; discriminate.
  - lia.
  - simpl. lia.
Defined.

Lemma get_name_returns_clean_name_witness :
  exists nm,
    nm = foldl (name_key 80) [] [97; 33; 98; 8; 99] /\
    get_name 80 [97; 33; 98; 8; 99; 10; 120]
      = Done (if decide (nm = []) then None else Some nm, [120]) /\
    Forall (fun c => name_char c = true) nm /\
    Z.of_nat (length nm) <= 80 - 6.
Proof.
  apply (get_name_returns_clean_name 80).
  - lia.
  - reflexivity.
Defined.

Lemma every_key_sequence_returns_witness :
  exists s',
    rounds 80 24 20 [Insert 97; Up; Save None false; Down; Left; Redraw] sample = Done s' /\
    steady 80 24 s' /\ buf s' = buf sample /\ ebuf s' = ebuf sample.
Proof.
  apply (every_key_sequence_returns 80 24).
  - lia.
  - lia.
  - reflexivity.
  - split; [constructor; vm_compute; discriminate|]. unfold cell_ok. simpl. lia.
  - vm_compute. lia.
Defined.

Lemma status_line_after_frame_witness :
  exists s' num',
    update_display 80 24 100 named = Done s' /\
    update_modeline 80 16 100 (replicate 7 0) (replicate 8 0) s'
      = Done (status_text 80 16 s', num') /\
    length (status_text 80 16 s') = Z.to_nat 80 /\
    16 - doclen s' = room s'.
Proof.
  apply (status_line_after_frame 80 24 16).
  - lia.
  - lia.
  - reflexivity.
  - split; [constructor; vm_compute; discriminate|]. unfold cell_ok. simpl. lia.
  - vm_compute. lia.
  - vm_compute. lia.
  - vm_compute. discriminate.
  - reflexivity.
  - vm_compute. reflexivity.
  - intros name H. vm_compute in H. injection H as <-.
    repeat constructor; discriminate.
  - reflexivity.
  - reflexivity.
Defined.

Lemma message_shows_text_witness :
  message 16 20 ([86; 101; 114; 115; 105; 111; 110; 32; 48; 46; 56] ++ 0 :: [])
          [120; 13; 121]
    = Done (message_text 16 [86; 101; 114; 115; 105; 111; 110; 32; 48; 46; 56], [121]) /\
  message_text 16 [86; 101; 114; 115; 105; 111; 110; 32; 48; 46; 56]
    = str_vce ++ [86; 101; 114; 115; 105; 111; 110; 32; 48; 46; 56]
        ++ replicate (Z.to_nat 16 - 5
                      - length [86; 101; 114; 115; 105; 111; 110; 32; 48; 46; 56])
             ch_SPACE /\
  length (message_text 16 [86; 101; 114; 115; 105; 111; 110; 32; 48; 46; 56])
    = Z.to_nat 16.
Proof.
  apply (message_shows_text 16 20 [86; 101; 114; 115; 105; 111; 110; 32; 48; 46; 56]
           [] [120; 13; 121] [120] [121]).
  - repeat constructor; discriminate.
  - simpl. lia.
  - simpl. lia.
  - vm_compute. lia.
  - reflexivity.
Defined.


Lemma main_loop_spins_at_eof_witness :
  main_loop 80 24 (fun _ => true) 20 7 0 [] fresh = OutOfFuel.
Proof.
  apply (main_loop_spins_at_eof 80 24 (fun _ => true)).
  - lia.
  - lia.
  - reflexivity.
  - split; [constructor; vm_compute; discriminate|]. unfold cell_ok. simpl. lia.
  - vm_compute. lia.
Defined.

Lemma main_loop_runs_the_keys_witness :
  main_loop 80 24 (fun _ => true) 100 3 0
            (concat [[104]; [27; 91; 68]] ++ 27 :: 113 :: [105]) fresh
    = (s' <- rounds 80 24 100 [Insert 104; Left] fresh ;; Done (s', [105])).
Proof.
  apply (main_loop_runs_the_keys 80 24 (fun _ => true) 100 [[104]; [27; 91; 68]]).
  - apply Forall2_cons; [apply sel_byte; reflexivity|].
    apply Forall2_cons; [apply sel_left|]. apply Forall2_nil.
  - simpl. lia.
Defined.
